(** * The MongoDB query-condition translator of sponge (pkg/mgo/query)

    A shallow embedding of [query_condition.go]: the column model, the
    operator and logic tables, the per-column normalisation [convert], the
    grouping of columns ([checkSameLogic], [groupingIndex]) and the two
    builders [convertMultiColumns] and [ConvertToMongoFilter], followed by
    the properties of the specification that concern them.

    Go values are embedded as follows.
    - [string] is a byte string; [len] is [String.length].
    - [int] lengths and slice indexes are [nat]: the only subtraction in the
      code, [l-1], is evaluated where [l >= 1].
    - [bson.M] (a [map[string]interface{}]) is [gmap string value].
    - a method with a pointer receiver [*Column] returns the column it
      leaves behind together with its [error]; [ConvertToMongoFilter]
      returns its receiver likewise.
    - a Go result [(bson.M, error)] is kept as a pair of options, [None]
      standing for [nil]; an index out of range is the outcome [Panic].
    - [fmt.Sprintf("%v", v)] is a parameter [Sprintf_v] of the
      development, and so is what [strings.ToLower] returns on a string
      that is not ASCII, [mapToLower]; the examples at the end of the file
      are ASCII. *)

From Stdlib Require Import ZArith String Ascii List Bool Lia.
From stdpp Require Import base option list gmap strings pretty sorting.

Set Warnings "-register-all".
Local Open Scope string_scope.

(* ===================================================================== *)
(** * Library functions of Go used by the translator *)
(* ===================================================================== *)

Module GoStrings.

(** [strings.ToLower] looks first whether the string is ASCII, that is
    whether every byte is below [utf8.RuneSelf]; on an ASCII string the
    bytes [A] to [Z] become [a] to [z] and every other byte is kept. *)
Fixpoint isASCII (s : string) : bool :=
  match s with
  | EmptyString => true
  | String c s' => (nat_of_ascii c <? 128)%nat && isASCII s'
  end.

Definition lower_byte (c : ascii) : ascii :=
  let n := nat_of_ascii c in
  if (65 <=? n)%nat && (n <=? 90)%nat then ascii_of_nat (n + 32) else c.

Fixpoint lowerASCII (s : string) : string :=
  match s with
  | EmptyString => EmptyString
  | String c s' => String (lower_byte c) (lowerASCII s')
  end.

(** [strings.HasSuffix] and [strings.TrimSuffix]. *)
Definition HasSuffix (s suffix : string) : bool :=
  (String.length suffix <=? String.length s)%nat &&
  String.eqb
    (substring (String.length s - String.length suffix)
               (String.length suffix) s)
    suffix.

Definition TrimSuffix (s suffix : string) : string :=
  if HasSuffix s suffix
  then substring 0 (String.length s - String.length suffix) s
  else s.

(** [strings.Split] for a separator of one byte: the fields between the
    separators, empty fields kept, so the result is never empty. *)
Fixpoint fields (sep : ascii) (s : string) : string * list string :=
  match s with
  | EmptyString => (EmptyString, [])
  | String c s' =>
      let '(hd, tl) := fields sep s' in
      if Ascii.eqb c sep then (EmptyString, hd :: tl)
      else (String c hd, tl)
  end.

Definition Split (s : string) (sep : ascii) : list string :=
  let '(hd, tl) := fields sep s in hd :: tl.

(** [regexp.QuoteMeta]: a backslash before each regular-expression
    metacharacter. *)
Definition special (c : ascii) : bool :=
  existsb (Ascii.eqb c) (list_ascii_of_string "\.+*?()|[]{}^$").

Fixpoint QuoteMeta (s : string) : string :=
  match s with
  | EmptyString => EmptyString
  | String c s' =>
      if special c then String "\"%char (String c (QuoteMeta s'))
      else String c (QuoteMeta s')
  end.

(** [encoding/hex]: the value of a hexadecimal digit, either case. *)
Definition fromHexChar (c : ascii) : option nat :=
  let n := nat_of_ascii c in
  if (48 <=? n)%nat && (n <=? 57)%nat then Some (n - 48)
  else if (97 <=? n)%nat && (n <=? 102)%nat then Some (n - 97 + 10)
  else if (65 <=? n)%nat && (n <=? 70)%nat then Some (n - 65 + 10)
  else None.

(** [hex.Decode]: two digits per byte; [None] on a digit that is not
    hexadecimal or on an odd length. *)
Fixpoint hexDecode (s : string) : option (list Byte.byte) :=
  match s with
  | EmptyString => Some []
  | String _ EmptyString => None
  | String a (String b s') =>
      match fromHexChar a, fromHexChar b, hexDecode s' with
      | Some h, Some l, Some bs =>
          Some (byte_of_ascii (ascii_of_nat (16 * h + l)) :: bs)
      | _, _, _ => None
      end
  end.

End GoStrings.
Import GoStrings.

(** [primitive.ObjectID] is [[12]byte]. *)
Definition ObjectID : Type := list Byte.byte.

(** [primitive.ObjectIDFromHex]: exactly 24 hexadecimal digits. *)
Definition ObjectIDFromHex (s : string) : option ObjectID :=
  if (String.length s =? 24)%nat then hexDecode s else None.

(* ===================================================================== *)
(** * Data model *)
(* ===================================================================== *)

(** The dynamic values ([interface{}]) that a column carries and that the
    translator builds. *)
Inductive value : Type :=
| VNil                                      (* the nil interface *)
| VString (s : string)
| VInt (z : Z)
| VBool (b : bool)
| VObjectID (oid : ObjectID)                (* primitive.ObjectID *)
| VArr (l : list value)                     (* []interface{} *)
| VM (m : gmap string value)                (* bson.M *)
| VMs (l : list (gmap string value)).       (* []bson.M *)

Abbreviation bsonM := (gmap string value).

(** The errors of the package, one constructor per [fmt.Errorf] format with
    the argument it prints; [ErrOther] is an error made by a caller's
    validation function. *)
Inductive error : Type :=
| ErrNameNotAllowed (name : string)   (* field name '%s' is not allowed *)
| ErrNameEmpty                        (* field 'name' cannot be empty *)
| ErrValueNil                         (* field 'value' cannot be nil *)
| ErrUnknownLogic (logic : string)    (* unknown logic type '%s' *)
| ErrUnsupportedExp (exp : string)    (* unsported exp type '%s' *)
| ErrInvalidValueType (v : value)     (* invalid value type '%s' *)
| ErrOther (msg : string).

Record Column : Type := mkColumn {
  Name : string;
  Exp : string;
  Value : value;
  Logic : string
}.

Definition setName (c : Column) (n : string) : Column :=
  mkColumn n (Exp c) (Value c) (Logic c).
Definition setExp (c : Column) (e : string) : Column :=
  mkColumn (Name c) e (Value c) (Logic c).
Definition setValue (c : Column) (v : value) : Column :=
  mkColumn (Name c) (Exp c) v (Logic c).
Definition setLogic (c : Column) (l : string) : Column :=
  mkColumn (Name c) (Exp c) (Value c) l.

Record Params : Type := mkParams {
  Page : Z;
  Limit : Z;
  Sort : string;
  Columns : list Column;
  Size : Z
}.

Definition setColumns (p : Params) (cs : list Column) : Params :=
  mkParams (Page p) (Limit p) (Sort p) cs (Size p).

(** The options of a call. A whitelist is a Go map or [nil]; a validation
    function is a check of the columns that returns an error or [nil]. *)
Record rulerOptions : Type := mkRulerOptions {
  whitelistNames : option (gmap string bool);
  validateFn : option (list Column -> option error)
}.

Definition RulerOption : Type := rulerOptions -> rulerOptions.

Definition apply (o : rulerOptions) (opts : list RulerOption) : rulerOptions :=
  fold_left (fun o opt => opt o) opts o.

Definition WithWhitelistNames (names : option (gmap string bool)) : RulerOption :=
  fun o => mkRulerOptions names (validateFn o).

Definition WithValidateFn (fn : option (list Column -> option error)) : RulerOption :=
  fun o => mkRulerOptions (whitelistNames o) fn.

(** What a call leaves: the two results of a Go [return], or a run-time
    panic (a slice index out of range). *)
Inductive outcome : Type :=
| Return (filter : option bsonM) (err : option error)
| Panic.

(* ===================================================================== *)
(** * Constants and tables *)
(* ===================================================================== *)

Definition Eq := "eq".
Definition eqSymbol := "=".
Definition Neq := "neq".
Definition neqSymbol := "!=".
Definition Gt := "gt".
Definition gtSymbol := ">".
Definition Gte := "gte".
Definition gteSymbol := ">=".
Definition Lt := "lt".
Definition ltSymbol := "<".
Definition Lte := "lte".
Definition lteSymbol := "<=".
Definition Like := "like".
Definition In := "in".
Definition NotIn := "nin".

Definition AND := "and".
Definition andSymbol1 := "&".
Definition andSymbol2 := "&&".
Definition OR := "or".
Definition orSymbol1 := "|".
Definition orSymbol2 := "||".

Definition allLogicAnd : nat := 1.
Definition allLogicOr : nat := 2.

Definition expMap : gmap string string :=
  list_to_map
    [ (Eq, eqSymbol); (eqSymbol, eqSymbol);
      (Neq, neqSymbol); (neqSymbol, neqSymbol);
      (Gt, gtSymbol); (gtSymbol, gtSymbol);
      (Gte, gteSymbol); (gteSymbol, gteSymbol);
      (Lt, ltSymbol); (ltSymbol, ltSymbol);
      (Lte, lteSymbol); (lteSymbol, lteSymbol);
      (Like, Like);
      (In, In);
      (NotIn, NotIn);
      ("notin", NotIn);
      ("not in", NotIn) ].

Definition logicMap : gmap string string :=
  list_to_map
    [ (AND, andSymbol1); (andSymbol1, andSymbol1); (andSymbol2, andSymbol1);
      (OR, orSymbol1); (orSymbol1, orSymbol1); (orSymbol2, orSymbol1) ].

(* ===================================================================== *)
(** * Identifiers in hexadecimal *)
(* ===================================================================== *)

(** [encoding/hex]: the digit of a value below 16, in lower case. *)
Definition hexDigit (n : nat) : ascii :=
  ascii_of_nat (if (n <? 10)%nat then 48 + n else 87 + n).

(** [hex.EncodeToString]: two digits per byte. *)
Fixpoint hexEncode (bs : list Byte.byte) : string :=
  match bs with
  | [] => EmptyString
  | b :: bs =>
      let n := nat_of_ascii (ascii_of_byte b) in
      String (hexDigit (n / 16)) (String (hexDigit (n mod 16)) (hexEncode bs))
  end.

(** [primitive.ObjectID.Hex]. *)
Definition Hex (oid : ObjectID) : string := hexEncode oid.

(** [strings.Join] of fields with a separator of one byte. *)
Fixpoint Join (fields : list string) (sep : ascii) : string :=
  match fields with
  | [] => EmptyString
  | [f] => f
  | f :: rest => String.append f (String sep (Join rest sep))
  end.

(* ===================================================================== *)
(** * The cache of user examples (internal/cache) *)
(* ===================================================================== *)

Module UserExampleCache.

(** The interface [cache.Cache] of the package that the wrapper calls: a
    store of type [store] and the calls on it, each with the store it
    leaves and its error. A value is a pointer to a record, [None] for
    [nil]; a duration is a number of nanoseconds. *)
Record Cache (store cacheError UserExample : Type) : Type := mkCache {
  cacheSet : store -> string -> option UserExample -> Z
             -> store * option cacheError;
  cacheGet : store -> string -> store * option UserExample * option cacheError;
  cacheMultiSet : store -> gmap string (option UserExample) -> Z
                  -> store * option cacheError;
  cacheMultiGet : store -> list string
                  -> store * gmap string (option UserExample) * option cacheError;
  cacheDel : store -> string -> store * option cacheError;
  cacheSetCacheWithNotFound : store -> string -> store * option cacheError
}.

Arguments cacheSet {store cacheError UserExample}.
Arguments cacheGet {store cacheError UserExample}.
Arguments cacheMultiSet {store cacheError UserExample}.
Arguments cacheMultiGet {store cacheError UserExample}.
Arguments cacheDel {store cacheError UserExample}.
Arguments cacheSetCacheWithNotFound {store cacheError UserExample}.

Definition userExampleCachePrefixKey : string := "userExample:".

Definition GetUserExampleCacheKey (id : string) : string :=
  String.append userExampleCachePrefixKey id.

(** The result of a call that can dereference a [nil] record. *)
Inductive result (cacheError : Type) : Type :=
| Done (err : option cacheError)
| NilDereference.

Arguments Done {cacheError}.
Arguments NilDereference {cacheError}.

Section Wrapper.

Context {store cacheError UserExample : Type}.

(** The field [ID] of [model.UserExample]. *)
Variable ID : UserExample -> ObjectID.

Variable c : Cache store cacheError UserExample.

(** The method [Set] ([Set] is a sort of Rocq). *)
Definition SetData (s : store) (id : string) (data : option UserExample)
    (duration : Z) : store * option cacheError :=
  match data with
  | None => (s, None)
  | Some _ =>
      if String.eqb id "" then (s, None)
      else cacheSet c s (GetUserExampleCacheKey id) data duration
  end.

Definition Get (s : store) (id : string)
    : store * option UserExample * option cacheError :=
  let '(s, data, err) := cacheGet c s (GetUserExampleCacheKey id) in
  match err with
  | Some err => (s, None, Some err)
  | None => (s, data, None)
  end.

(** The first loop of [MultiSet]: the map from keys to records, or [None]
    when a record is [nil] and reading its [ID] panics. *)
Fixpoint valMapOf (data : list (option UserExample))
    (valMap : gmap string (option UserExample))
    : option (gmap string (option UserExample)) :=
  match data with
  | [] => Some valMap
  | None :: _ => None
  | Some v :: rest =>
      valMapOf rest (<[ GetUserExampleCacheKey (Hex (ID v)) := Some v ]> valMap)
  end.

Definition MultiSet (s : store) (data : list (option UserExample))
    (duration : Z) : store * result cacheError :=
  match valMapOf data ∅ with
  | None => (s, NilDereference)
  | Some valMap =>
      let '(s, err) := cacheMultiSet c s valMap duration in (s, Done err)
  end.

(** The last loop of [MultiGet]: the items found, under their ids. *)
Fixpoint retMapOf (ids : list string)
    (itemMap retMap : gmap string (option UserExample))
    : gmap string (option UserExample) :=
  match ids with
  | [] => retMap
  | id :: rest =>
      match itemMap !! GetUserExampleCacheKey id with
      | Some val => retMapOf rest itemMap (<[ id := val ]> retMap)
      | None => retMapOf rest itemMap retMap
      end
  end.

Definition MultiGet (s : store) (ids : list string)
    : store * option (gmap string (option UserExample)) * option cacheError :=
  let keys := map GetUserExampleCacheKey ids in
  let '(s, itemMap, err) := cacheMultiGet c s keys in
  match err with
  | Some err => (s, None, Some err)
  | None => (s, Some (retMapOf ids itemMap ∅), None)
  end.

Definition Del (s : store) (id : string) : store * option cacheError :=
  cacheDel c s (GetUserExampleCacheKey id).

Definition SetPlaceholder (s : store) (id : string)
    : store * option cacheError :=
  cacheSetCacheWithNotFound c s (GetUserExampleCacheKey id).

End Wrapper.

(** A cache for the examples: a map that keeps what it is given, without
    expiry and without errors. *)
Definition mapCache (UserExample : Type)
    : Cache (gmap string (option UserExample)) unit UserExample :=
  mkCache _ _ _
    (fun s k v _ => (<[ k := v ]> s, None))
    (fun s k => (s, default None (s !! k), None))
    (fun s m _ => (m ∪ s, None))
    (fun s ks =>
       (s, list_to_map (omap (fun k => (fun v => (k, v)) <$> s !! k) ks), None))
    (fun s k => (delete k s, None))
    (fun s k => (s, None)).

End UserExampleCache.

(* ===================================================================== *)
(** * [strings.ToLower] *)
(* ===================================================================== *)

Section Translator.

(** [strings.Map(unicode.ToLower, s)], which [strings.ToLower] returns on a
    string that is not ASCII. The tables of Unicode are no part of the
    development: it holds for any such function. *)
Variable mapToLower : string -> string.

Definition ToLower (s : string) : string :=
  if isASCII s then lowerASCII s else mapToLower s.

(* ===================================================================== *)
(** * Methods of [Column] *)
(* ===================================================================== *)

(** [whitelists[c.Name]] on a Go map: [false] for a key that is absent. *)
Definition allowed (whitelists : gmap string bool) (name : string) : bool :=
  default false (whitelists !! name).

Definition checkName (c : Column) (whitelists : option (gmap string bool))
  : option error :=
  if String.eqb (Name c) ""
     || match whitelists with
        | Some w => negb (allowed w (Name c))
        | None => false
        end
  then Some (ErrNameNotAllowed (Name c))
  else None.

Definition checkValid (c : Column) : option error :=
  if String.eqb (Name c) "" then Some ErrNameEmpty
  else match Value c with
       | VNil => Some ErrValueNil
       | _ => None
       end.

Definition convertLogic (c : Column) : Column * option error :=
  let c := if String.eqb (Logic c) "" then setLogic c AND else c in
  match logicMap !! ToLower (Logic c) with
  | Some v => (setLogic c v, None)
  | None => (c, Some (ErrUnknownLogic (Logic c)))
  end.

Definition isObjectID (v : value) : option ObjectID :=
  match v with
  | VString str =>
      if (String.length str =? 24)%nat then ObjectIDFromHex str else None
  | _ => None
  end.

Section Convert.

(** [fmt.Sprintf("%v", v)], the formatter of Go's library. *)
Variable Sprintf_v : value -> string.

(** The [switch c.Exp] of [convert], on the column whose [Exp] is already
    the symbol of [expMap]: the column it leaves and the error of the
    [In], [NotIn] case. *)
Definition convertValue (c : Column) : Column * option error :=
  let exp := Exp c in
  if String.eqb exp neqSymbol then (setValue c (VM {[ "$ne" := Value c ]}), None)
  else if String.eqb exp gtSymbol then (setValue c (VM {[ "$gt" := Value c ]}), None)
  else if String.eqb exp gteSymbol then (setValue c (VM {[ "$gte" := Value c ]}), None)
  else if String.eqb exp ltSymbol then (setValue c (VM {[ "$lt" := Value c ]}), None)
  else if String.eqb exp lteSymbol then (setValue c (VM {[ "$lte" := Value c ]}), None)
  else if String.eqb exp Like then
    let escapedValue := QuoteMeta (Sprintf_v (Value c)) in
    (setValue c (VM (<[ "$regex" := VString escapedValue ]>
                      {[ "$options" := VString "i" ]})), None)
  else if String.eqb exp In || String.eqb exp NotIn then
    match Value c with
    | VString val =>
        let values := map VString (Split val ","%char) in
        (setValue c (VM {[ "$" ++ exp := VArr values ]}), None)
    | _ => (c, Some (ErrInvalidValueType (Value c)))
    end
  else (c, None).

(** The block of [convert] guarded by [isObjectID(c.Value)]: the value
    becomes the identifier and the name is rewritten. *)
Definition objectIDColumn (c : Column) : Column :=
  match isObjectID (Value c) with
  | Some oid =>
      let c := setValue c (VObjectID oid) in
      if String.eqb (Name c) "id" then setName c "_id"
      else if HasSuffix (Name c) ":oid"
           then setName c (TrimSuffix (Name c) ":oid")
           else c
  | None => c
  end.

Definition convert (c : Column) : Column * option error :=
  match checkValid c with
  | Some err => (c, Some err)
  | None =>
      let c := objectIDColumn c in
      let c := if String.eqb (Exp c) "" then setExp c Eq else c in
      match expMap !! ToLower (Exp c) with
      | Some v =>
          match convertValue (setExp c v) with
          | (c, Some err) => (c, Some err)
          | (c, None) => convertLogic c
          end
      | None => (c, Some (ErrUnsupportedExp (Exp c)))
      end
  end.

(** The document [bson.M{column.Name: column.Value}]. *)
Definition predicate (column : Column) : bsonM :=
  {[ Name column := Value column ]}.

(* =================================================================== *)
(** * Grouping *)
(* =================================================================== *)

(** The first loop of [checkSameLogic], from index [i] on, over the
    columns that are left: the indexes whose logic is [orSymbol1]. The
    loop works on a copy of each column. *)
Fixpoint orIndexesFrom (l i : nat) (columns : list Column)
    (orIndexes : list nat) : list nat + error :=
  match columns with
  | [] => inl orIndexes
  | column :: rest =>
      if (i =? l - 1)%nat then inl orIndexes
      else
        match convertLogic column with
        | (_, Some err) => inr err
        | (column, None) =>
            orIndexesFrom l (S i) rest
              (if String.eqb (Logic column) orSymbol1
               then orIndexes ++ [i] else orIndexes)
        end
  end.

(** The loop of [groupingIndex] over [orIndexes]. *)
Fixpoint groupingFrom (orIndexes : list nat) (groupIndexes : list (list nat))
    (lastIndex : nat) : list (list nat) * nat :=
  match orIndexes with
  | [] => (groupIndexes, lastIndex)
  | index :: rest =>
      let group := seq lastIndex (S index - lastIndex) in
      groupingFrom rest (groupIndexes ++ [group])
        (if (lastIndex =? index)%nat then S lastIndex else index)
  end.

Definition groupingIndex (l : nat) (orIndexes : list nat) : list (list nat) :=
  let '(groupIndexes, lastIndex) := groupingFrom orIndexes [] 0 in
  let group := seq (lastIndex + 1) (l - (lastIndex + 1)) in
  groupIndexes ++ [group].

(** [checkSameLogic]; a [nil] slice of groups is the empty list. *)
Definition checkSameLogic (columns : list Column)
    : nat * list (list nat) * option error :=
  let l := length columns in
  match orIndexesFrom l 0 columns [] with
  | inr err => (0, [], Some err)
  | inl orIndexes =>
      if (length orIndexes =? 0)%nat then (allLogicAnd, [], None)
      else if (length orIndexes =? l - 1)%nat then (allLogicOr, [], None)
      else (0, groupingIndex l orIndexes, None)
  end.

(* =================================================================== *)
(** * The builders *)
(* =================================================================== *)

(** The body shared by the two single-logic loops of
    [convertMultiColumns]: append the predicate of [column] to the slice
    under [key], or start it. *)
Definition appendUnder (key : string) (column : Column) (filter : bsonM)
    : bsonM :=
  match filter !! key with
  | None => <[ key := VMs [predicate column] ]> filter
  | Some v =>
      match v with
      | VMs cols => <[ key := VMs (cols ++ [predicate column]) ]> filter
      | _ => filter
      end
  end.

(** The loop of the [allLogicAnd] branch. *)
Fixpoint andColumns (whitelistNames : option (gmap string bool))
    (columns : list Column) (filter : bsonM) : outcome :=
  match columns with
  | [] => Return (Some filter) None
  | column :: rest =>
      match checkName column whitelistNames with
      | Some err => Return None (Some err)
      | None =>
          match convert column with
          | (_, Some err) => Return None (Some err)
          | (column, None) =>
              andColumns whitelistNames rest (appendUnder "$and" column filter)
          end
      end
  end.

(** The loop of the [allLogicOr] branch. *)
Fixpoint orColumns (columns : list Column) (filter : bsonM) : outcome :=
  match columns with
  | [] => Return (Some filter) None
  | column :: rest =>
      match convert column with
      | (_, Some err) => Return None (Some err)
      | (column, None) => orColumns rest (appendUnder "$or" column filter)
      end
  end.

(** The inner loop of the mixed branch over one group of indexes. *)
Fixpoint andConditionsOf (columns : list Column) (indexes : list nat)
    (andConditions : list bsonM) : outcome + list bsonM :=
  match indexes with
  | [] => inr andConditions
  | index :: rest =>
      match columns !! index with
      | None => inl Panic
      | Some column =>
          match convert column with
          | (_, Some err) => inl (Return None (Some err))
          | (column, None) =>
              andConditionsOf columns rest (andConditions ++ [predicate column])
          end
      end
  end.

(** The outer loop of the mixed branch over the groups. *)
Fixpoint orConditionsOf (columns : list Column) (groupIndexes : list (list nat))
    (orConditions : list bsonM) : outcome :=
  match groupIndexes with
  | [] => Return (Some (<[ "$or" := VMs orConditions ]> ∅)) None
  | indexes :: rest =>
      if (length indexes =? 1)%nat then
        match indexes !! 0%nat with
        | None => Panic
        | Some index =>
            match columns !! index with
            | None => Panic
            | Some column =>
                match convert column with
                | (_, Some err) => Return None (Some err)
                | (column, None) =>
                    orConditionsOf columns rest
                      (orConditions ++ [predicate column])
                end
            end
        end
      else
        match andConditionsOf columns indexes [] with
        | inl o => o
        | inr andConditions =>
            orConditionsOf columns rest
              (orConditions ++ [ {[ "$and" := VMs andConditions ]} ])
        end
  end.

(** [convertMultiColumns]: every loop ranges over copies of the columns,
    so the receiver's columns are left as they were. *)
Definition convertMultiColumns (p : Params)
    (whitelistNames : option (gmap string bool)) : outcome :=
  match checkSameLogic (Columns p) with
  | (_, _, Some err) => Return None (Some err)
  | (logicType, groupIndexes, None) =>
      if (logicType =? allLogicAnd)%nat then
        andColumns whitelistNames (Columns p) ∅
      else if (logicType =? allLogicOr)%nat then
        orColumns (Columns p) ∅
      else orConditionsOf (Columns p) groupIndexes []
  end.

(** [ConvertToMongoFilter]: the fast paths work on the elements of
    [p.Columns] themselves, so the receiver is returned with the columns
    as the call leaves them. *)
Definition ConvertToMongoFilter (p : Params) (opts : list RulerOption)
    : Params * outcome :=
  let o := apply (mkRulerOptions None None) opts in
  match
    match validateFn o with
    | Some fn => fn (Columns p)
    | None => None
    end
  with
  | Some err => (p, Return None (Some err))
  | None =>
      match Columns p with
      | [] => (p, Return (Some ∅) None)
      | [c0] =>
          match checkName c0 (whitelistNames o) with
          | Some err => (p, Return None (Some err))
          | None =>
              let '(c0, err) := convert c0 in
              let p := setColumns p [c0] in
              match err with
              | Some err => (p, Return None (Some err))
              | None => (p, Return (Some (predicate c0)) None)
              end
          end
      | [c0; c1] =>
          match checkName c0 (whitelistNames o) with
          | Some err => (p, Return None (Some err))
          | None =>
              match checkName c1 (whitelistNames o) with
              | Some err => (p, Return None (Some err))
              | None =>
                  let '(c0, err) := convert c0 in
                  let p := setColumns p [c0; c1] in
                  match err with
                  | Some err => (p, Return None (Some err))
                  | None =>
                      let '(c1, err) := convert c1 in
                      let p := setColumns p [c0; c1] in
                      match err with
                      | Some err => (p, Return None (Some err))
                      | None =>
                          if String.eqb (Logic c0) andSymbol1 then
                            (p, Return (Some {[ "$and" :=
                                   VMs [predicate c0; predicate c1] ]}) None)
                          else
                            (p, Return (Some {[ "$or" :=
                                   VMs [predicate c0; predicate c1] ]}) None)
                      end
                  end
              end
          end
      | _ => (p, convertMultiColumns p (whitelistNames o))
      end
  end.

End Convert.

(* ===================================================================== *)
(** * Vocabulary of the properties *)
(* ===================================================================== *)

(** The options that a call builds from its arguments, and what the
    validation function, if there is one, says of the columns. *)
Definition optionsOf (opts : list RulerOption) : rulerOptions :=
  apply (mkRulerOptions None None) opts.

Definition validation (o : rulerOptions) (p : Params) : option error :=
  match validateFn o with
  | Some fn => fn (Columns p)
  | None => None
  end.

(** An outcome that carries no filter beside an error. *)
Definition noPartial (o : outcome) : Prop :=
  forall f e, o = Return f (Some e) -> f = None.

(** The outcome with the filter of a success put alone in a group [$and]. *)
Definition wrapAnd (o : outcome) : outcome :=
  match o with
  | Return (Some f) None => Return (Some {[ "$and" := VMs [f] ]}) None
  | _ => o
  end.

(** Mixed logic: three columns or more on which [checkSameLogic] reports
    neither an error nor a single logic. *)
Definition mixedLogic (columns : list Column) : Prop :=
  3 <= length columns /\
  exists groupIndexes, checkSameLogic columns = (0, groupIndexes, None).

(** The symbol that the logic of a column normalises to, when it does. *)
Definition logicOf (c : Column) : option string :=
  match convertLogic c with
  | (c', None) => Some (Logic c')
  | (_, Some _) => None
  end.

(** The logic that [convertLogic] looks up: [AND] for the empty string. *)
Definition logicKey (c : Column) : string :=
  ToLower (if String.eqb (Logic c) "" then AND else Logic c).

(** The operator that [convert] looks up: [Eq] for the empty string. *)
Definition expKey (c : Column) : string :=
  ToLower (if String.eqb (Exp c) "" then Eq else Exp c).

(** The columns whose logic is consulted: all but the last. *)
Definition internal (columns : list Column) : list Column :=
  removelast columns.

(** The predicate of a column after its normalisation. *)
Definition normalized (Sprintf_v : value -> string) (c : Column) : bsonM :=
  predicate (fst (convert Sprintf_v c)).

(** The symbols and variants of the tables beside the named token each
    stands for. *)
Definition expAliases : list (string * string) :=
  [ ("=", "eq"); ("!=", "neq"); (">", "gt"); (">=", "gte");
    ("<", "lt"); ("<=", "lte"); ("notin", "nin"); ("not in", "nin") ].

Definition logicAliases : list (string * string) :=
  [ ("&", "and"); ("&&", "and"); ("|", "or"); ("||", "or") ].

(** Two results of [convert] that a caller cannot tell apart: the same
    error, the same name and value, and the same column when there is no
    error. *)
Definition sameResult (r1 r2 : Column * option error) : Prop :=
  snd r1 = snd r2 /\
  Name (fst r1) = Name (fst r2) /\
  Value (fst r1) = Value (fst r2) /\
  (snd r1 = None -> fst r1 = fst r2).

(** Two columns that a builder cannot tell apart: the same name, and from
    [convert] the same error and the same predicate. *)
Definition alike (Sprintf_v : value -> string) (c1 c2 : Column) : Prop :=
  Name c1 = Name c2 /\
  snd (convert Sprintf_v c1) = snd (convert Sprintf_v c2) /\
  predicate (fst (convert Sprintf_v c1)) = predicate (fst (convert Sprintf_v c2)).

(** A column that the builders accept: its name passes [checkName] and
    [convert] gives no error. *)
Definition accepted (Sprintf_v : value -> string)
    (w : option (gmap string bool)) (c : Column) : Prop :=
  checkName c w = None /\ snd (convert Sprintf_v c) = None.

(** The grouping in the specification's words: each index of [orIndexes]
    ends its run, itself included, and the next run starts right after
    it; the last run takes what is left of the [l] columns. *)
Fixpoint runsFrom (start : nat) (orIndexes : list nat) (l : nat)
    : list (list nat) :=
  match orIndexes with
  | [] => [seq start (l - start)]
  | index :: rest => seq start (S index - start) :: runsFrom (S index) rest l
  end.

Definition specRuns (l : nat) (orIndexes : list nat) : list (list nat) :=
  runsFrom 0 orIndexes l.

(** An instance of the formatter for the examples: [%v] prints a string as
    it is, an integer in decimal and a boolean as [true] or [false]; the
    examples format no other value. *)
Definition fmtValue (v : value) : string :=
  match v with
  | VString s => s
  | VInt z => pretty z
  | VBool b => if b then "true" else "false"
  | _ => ""
  end.

(** The examples hold ASCII strings only, on which [ToLower] never calls
    [strings.Map]; they are run with a function that keeps its string. *)
Definition keepRunes (s : string) : string := s.

(** Parameters with the given columns, first page of ten. *)
Definition paramsOf (columns : list Column) : Params :=
  mkParams 0 10 "" columns 0.

(** The identifier of the specification's example. *)
Definition exampleHex : string := "507f1f77bcf86cd799439011".

(** The bytes of [exampleHex]. *)
Definition exampleOID : ObjectID :=
  [Byte.x50; Byte.x7f; Byte.x1f; Byte.x77; Byte.xbc; Byte.xf8;
   Byte.x6c; Byte.xd7; Byte.x99; Byte.x43; Byte.x90; Byte.x11].

(** The filter of a success, and its entry under a key. *)
Definition entryOf (key : string) (o : outcome) : option value :=
  match o with
  | Return (Some f) _ => f !! key
  | _ => None
  end.

(** Reading a pattern back: [unquote] drops the backslash that escapes a
    character, and [escaped] tells that every metacharacter of a pattern
    stands right after such a backslash, so that the pattern matches its
    text literally. *)
Fixpoint unquote (pattern : string) : string :=
  match pattern with
  | EmptyString => EmptyString
  | String c s =>
      if Ascii.eqb c "\"%char then
        match s with
        | String d s' => String d (unquote s')
        | EmptyString => String c EmptyString
        end
      else String c (unquote s)
  end.

Fixpoint escaped (pattern : string) : bool :=
  match pattern with
  | EmptyString => true
  | String c s =>
      if Ascii.eqb c "\"%char then
        match s with
        | String d s' => special d && escaped s'
        | EmptyString => false
        end
      else negb (special c) && escaped s
  end.

(** The metacharacters of a text. *)
Fixpoint metacharacters (text : string) : nat :=
  match text with
  | EmptyString => 0
  | String c s => (if special c then 1 else 0) + metacharacters s
  end.

(* ===================================================================== *)
(** * The conditions of a query *)
(* ===================================================================== *)

(** [Conditions]: the columns of a query without its paging. *)
Record Conditions : Type := mkConditions {
  ConditionsColumns : list Column
}.

(** The errors of [CheckValid]: its own two formats, and the errors of a
    column in the formats of [checkValid] and [convertLogic]. *)
Inductive conditionsError : Type :=
| ErrColumnsEmpty                     (* field 'columns' cannot be empty *)
| ErrUnknownExp (exp : string)        (* unknown exp type '%s' *)
| ErrOfColumn (err : error).

(** The loop of [CheckValid]: the tables are read with the tokens as they
    are written, not in lower case. *)
Fixpoint checkColumns (columns : list Column) : option conditionsError :=
  match columns with
  | [] => None
  | column :: rest =>
      match checkValid column with
      | Some err => Some (ErrOfColumn err)
      | None =>
          if negb (String.eqb (Exp column) "")
             && negb (bool_decide (is_Some (expMap !! Exp column)))
          then Some (ErrUnknownExp (Exp column))
          else if negb (String.eqb (Logic column) "")
                  && negb (bool_decide (is_Some (logicMap !! Logic column)))
          then Some (ErrOfColumn (ErrUnknownLogic (Logic column)))
          else checkColumns rest
      end
  end.

Definition CheckValid (c : Conditions) : option conditionsError :=
  if (length (ConditionsColumns c) =? 0)%nat then Some ErrColumnsEmpty
  else checkColumns (ConditionsColumns c).

(** [ConvertToMongo]: the call of [ConvertToMongoFilter] on parameters that
    share the columns of the conditions, so that what the call leaves of
    the columns is left in the conditions. *)
Definition ConvertToMongo (Sprintf_v : value -> string) (c : Conditions)
    (opts : list RulerOption) : Conditions * outcome :=
  let p := mkParams 0 0 "" (ConditionsColumns c) 0 in
  let '(p, o) := ConvertToMongoFilter Sprintf_v p opts in
  (mkConditions (Columns p), o).

(* ===================================================================== *)
(** * Basic facts *)
(* ===================================================================== *)

Ltac eqb_cases :=
  repeat match goal with
  | |- context [String.eqb ?a ?b] =>
      let E := fresh "E" in
      destruct (String.eqb a b) eqn:E;
      [apply String.eqb_eq in E | apply String.eqb_neq in E]
  end.

Lemma logicMap_values (k v : string) :
  logicMap !! k = Some v -> v = andSymbol1 \/ v = orSymbol1.
Proof.
  intros H. apply elem_of_list_to_map_2 in H.
  repeat (apply elem_of_cons in H as [H | H]; [inversion H; auto |]).
  inversion H.
Qed.

Lemma convertLogic_eq (c : Column) :
  convertLogic c =
  match logicMap !! logicKey c with
  | Some v => (setLogic c v, None)
  | None =>
      (setLogic c (if String.eqb (Logic c) "" then AND else Logic c),
       Some (ErrUnknownLogic (if String.eqb (Logic c) "" then AND else Logic c)))
  end.
Proof.
  unfold convertLogic, logicKey. destruct c as [n e v l]; simpl.
  destruct (String.eqb l ""); simpl; destruct (logicMap !! _); reflexivity.
Qed.

Lemma logicOf_eq (c : Column) : logicOf c = logicMap !! logicKey c.
Proof.
  unfold logicOf. rewrite convertLogic_eq.
  destruct (logicMap !! logicKey c); reflexivity.
Qed.

Lemma logicOf_ext (c1 c2 : Column) :
  Logic c1 = Logic c2 -> logicOf c1 = logicOf c2.
Proof. intros H. rewrite !logicOf_eq. unfold logicKey. now rewrite H. Qed.

Lemma convertLogic_ok (c c' : Column) :
  convertLogic c = (c', None) ->
  c' = setLogic c (Logic c') /\ logicOf c = Some (Logic c').
Proof.
  rewrite logicOf_eq, convertLogic_eq.
  destruct (logicMap !! logicKey c); intros H; inversion H; subst; auto.
Qed.

Lemma convertLogic_of (c : Column) (sym : string) :
  logicOf c = Some sym -> convertLogic c = (setLogic c sym, None).
Proof.
  rewrite logicOf_eq, convertLogic_eq. now intros ->.
Qed.

Lemma logicOf_values (c : Column) (sym : string) :
  logicOf c = Some sym -> sym = andSymbol1 \/ sym = orSymbol1.
Proof. rewrite logicOf_eq. apply logicMap_values. Qed.

Lemma setExp_setExp (c : Column) (e1 e2 : string) :
  setExp (setExp c e1) e2 = setExp c e2.
Proof. reflexivity. Qed.

Lemma objectIDColumn_Exp (c : Column) : Exp (objectIDColumn c) = Exp c.
Proof.
  unfold objectIDColumn. destruct (isObjectID (Value c)); [|reflexivity].
  cbv zeta. simpl Name. eqb_cases; [reflexivity|].
  destruct (HasSuffix _ _); reflexivity.
Qed.

Lemma objectIDColumn_Logic (c : Column) : Logic (objectIDColumn c) = Logic c.
Proof.
  unfold objectIDColumn. destruct (isObjectID (Value c)); [|reflexivity].
  cbv zeta. simpl Name. eqb_cases; [reflexivity|].
  destruct (HasSuffix _ _); reflexivity.
Qed.

Section ConvertFacts.

Variable Sprintf_v : value -> string.

Lemma convertValue_fields (c c' : Column) (e : option error) :
  convertValue Sprintf_v c = (c', e) ->
  Name c' = Name c /\ Exp c' = Exp c /\ Logic c' = Logic c.
Proof.
  unfold convertValue. cbv zeta.
  destruct (String.eqb (Exp c) neqSymbol); [intros H; inversion H; auto|].
  destruct (String.eqb (Exp c) gtSymbol); [intros H; inversion H; auto|].
  destruct (String.eqb (Exp c) gteSymbol); [intros H; inversion H; auto|].
  destruct (String.eqb (Exp c) ltSymbol); [intros H; inversion H; auto|].
  destruct (String.eqb (Exp c) lteSymbol); [intros H; inversion H; auto|].
  destruct (String.eqb (Exp c) Like); [intros H; inversion H; auto|].
  destruct (String.eqb (Exp c) In || String.eqb (Exp c) NotIn);
    [|intros H; inversion H; auto].
  destruct (Value c); intros H; inversion H; auto.
Qed.

(** [convert] in one piece, in terms of the column that came in. *)
Lemma convert_eq (c : Column) :
  convert Sprintf_v c =
  match checkValid c with
  | Some err => (c, Some err)
  | None =>
      match expMap !! expKey c with
      | Some v =>
          match convertValue Sprintf_v (setExp (objectIDColumn c) v) with
          | (c3, Some err) => (c3, Some err)
          | (c3, None) => convertLogic c3
          end
      | None =>
          (setExp (objectIDColumn c) (if String.eqb (Exp c) "" then Eq else Exp c),
           Some (ErrUnsupportedExp (if String.eqb (Exp c) "" then Eq else Exp c)))
      end
  end.
Proof.
  unfold convert, expKey. destruct (checkValid c); [reflexivity|].
  cbv zeta. rewrite objectIDColumn_Exp.
  destruct (String.eqb (Exp c) "") eqn:E.
  - simpl Exp. destruct (expMap !! ToLower Eq); reflexivity.
  - rewrite objectIDColumn_Exp.
    destruct (expMap !! ToLower (Exp c)); [reflexivity|].
    f_equal. generalize (objectIDColumn_Exp c).
    destruct (objectIDColumn c); simpl. now intros <-.
Qed.

(** A column that [convert] accepts has a logic that normalises, to the
    symbol that [convert] leaves in the column. *)
Lemma convert_ok_logic (c c' : Column) :
  convert Sprintf_v c = (c', None) -> logicOf c = Some (Logic c').
Proof.
  rewrite convert_eq. destruct (checkValid c); [discriminate|].
  destruct (expMap !! expKey c); [|discriminate].
  destruct (convertValue _ _) as [c3 [e|]] eqn:Hv; [discriminate|].
  intros H. apply convertLogic_ok in H as [_ H].
  apply convertValue_fields in Hv as (_ & _ & Hl).
  rewrite <- H. apply logicOf_ext.
  simpl in Hl. now rewrite Hl, objectIDColumn_Logic.
Qed.

End ConvertFacts.

Lemma objectIDColumn_setExp (c : Column) (e : string) :
  objectIDColumn (setExp c e) = setExp (objectIDColumn c) e.
Proof.
  unfold objectIDColumn. simpl Value.
  destruct (isObjectID (Value c)); [|reflexivity].
  cbv zeta. simpl Name. destruct (String.eqb (Name c) "id"); [reflexivity|].
  destruct (HasSuffix _ _); reflexivity.
Qed.

Lemma objectIDColumn_setLogic (c : Column) (l : string) :
  objectIDColumn (setLogic c l) = setLogic (objectIDColumn c) l.
Proof.
  unfold objectIDColumn. simpl Value.
  destruct (isObjectID (Value c)); [|reflexivity].
  cbv zeta. simpl Name. destruct (String.eqb (Name c) "id"); [reflexivity|].
  destruct (HasSuffix _ _); reflexivity.
Qed.

Lemma ToLower_nonempty (s : string) : ToLower s <> "" -> s <> "".
Proof. intros H ->. now apply H. Qed.

Lemma expKey_nonempty (c : Column) :
  Exp c <> "" -> expKey c = ToLower (Exp c).
Proof.
  intros H. unfold expKey. apply String.eqb_neq in H. now rewrite H.
Qed.

Lemma logicOf_setLogic (c : Column) (s : string) :
  s <> "" -> logicOf (setLogic c s) = logicMap !! ToLower s.
Proof.
  intros H. rewrite logicOf_eq. unfold logicKey. simpl Logic.
  apply String.eqb_neq in H. now rewrite H.
Qed.

Section AliasFacts.

Variable Sprintf_v : value -> string.

Lemma convertValue_setLogic (c : Column) (l : string) :
  convertValue Sprintf_v (setLogic c l) =
  (setLogic (fst (convertValue Sprintf_v c)) l, snd (convertValue Sprintf_v c)).
Proof.
  unfold convertValue. cbv zeta. simpl Exp. simpl Value.
  destruct (String.eqb (Exp c) neqSymbol); [reflexivity|].
  destruct (String.eqb (Exp c) gtSymbol); [reflexivity|].
  destruct (String.eqb (Exp c) gteSymbol); [reflexivity|].
  destruct (String.eqb (Exp c) ltSymbol); [reflexivity|].
  destruct (String.eqb (Exp c) lteSymbol); [reflexivity|].
  destruct (String.eqb (Exp c) Like); [reflexivity|].
  destruct (String.eqb (Exp c) In || String.eqb (Exp c) NotIn);
    [|reflexivity].
  destruct (Value c); reflexivity.
Qed.

(** Two operators that the table sends to the same symbol give the same
    result. *)
Lemma convert_exp_congr (c : Column) (e1 e2 : string) :
  e1 <> "" -> e2 <> "" ->
  expMap !! ToLower e1 = expMap !! ToLower e2 ->
  is_Some (expMap !! ToLower e1) ->
  sameResult (convert Sprintf_v (setExp c e1)) (convert Sprintf_v (setExp c e2)).
Proof.
  intros H1 H2 Heq [v Hv]. rewrite !convert_eq.
  change (checkValid (setExp c e1)) with (checkValid c).
  change (checkValid (setExp c e2)) with (checkValid c).
  destruct (checkValid c) eqn:Hc.
  - repeat split; simpl; intros; discriminate.
  - rewrite !expKey_nonempty by assumption. simpl Exp.
    rewrite <- Heq, Hv, !objectIDColumn_setExp, !setExp_setExp.
    repeat split; reflexivity.
Qed.

(** Two logic tokens that the table sends to the same symbol give the
    same result. *)
Lemma convert_logic_congr (c : Column) (l1 l2 sym : string) :
  logicOf (setLogic c l1) = Some sym ->
  logicOf (setLogic c l2) = Some sym ->
  sameResult (convert Sprintf_v (setLogic c l1))
             (convert Sprintf_v (setLogic c l2)).
Proof.
  intros H1 H2. rewrite !convert_eq.
  change (checkValid (setLogic c l1)) with (checkValid c).
  change (checkValid (setLogic c l2)) with (checkValid c).
  change (expKey (setLogic c l1)) with (expKey c).
  change (expKey (setLogic c l2)) with (expKey c).
  change (Exp (setLogic c l1)) with (Exp c).
  change (Exp (setLogic c l2)) with (Exp c).
  destruct (checkValid c).
  { repeat split; simpl; intros; discriminate. }
  rewrite !objectIDColumn_setLogic.
  destruct (expMap !! expKey c) as [v|].
  2:{ repeat split; simpl; intros; discriminate. }
  change (setExp (setLogic (objectIDColumn c) l1) v)
    with (setLogic (setExp (objectIDColumn c) v) l1).
  change (setExp (setLogic (objectIDColumn c) l2) v)
    with (setLogic (setExp (objectIDColumn c) v) l2).
  rewrite !convertValue_setLogic.
  destruct (convertValue Sprintf_v (setExp (objectIDColumn c) v)) as [c3 [e|]];
    simpl fst; simpl snd.
  { repeat split; simpl; intros; discriminate. }
  rewrite (convertLogic_of (setLogic c3 l1) sym),
          (convertLogic_of (setLogic c3 l2) sym).
  - repeat split; reflexivity.
  - rewrite <- H2. now apply logicOf_ext.
  - rewrite <- H1. now apply logicOf_ext.
Qed.

End AliasFacts.

(** An alias beside its named token: an operator spelt as one of the
    symbols [=], [!=], [>], [>=], [<], [<=] or as [notin] or [not in], in
    any mix of upper and lower case, gives the same result of [convert] as
    the named token it stands for; and a logic spelt [&], [&&], [|] or [||]
    gives the same result as [and], respectively [or]. *)
Lemma alias_same_result (Sprintf_v : value -> string)
    (n e l : string) (v : value) (s a t : string) :
  ToLower s = a ->
  ((a, t) ∈ expAliases ->
   sameResult (convert Sprintf_v (mkColumn n s v l))
              (convert Sprintf_v (mkColumn n t v l))) /\
  ((a, t) ∈ logicAliases ->
   sameResult (convert Sprintf_v (mkColumn n e v s))
              (convert Sprintf_v (mkColumn n e v t))).
Proof.
  intros Hs. split; intros Hin.
  - change (mkColumn n s v l) with (setExp (mkColumn n "" v l) s).
    change (mkColumn n t v l) with (setExp (mkColumn n "" v l) t).
    unfold expAliases in Hin.
    repeat (apply elem_of_cons in Hin as [Hin | Hin];
      [injection Hin as Ha Ht; rewrite Ha in Hs; rewrite Ht;
       apply convert_exp_congr;
       [apply ToLower_nonempty; rewrite Hs; discriminate
       |discriminate
       |rewrite Hs; reflexivity
       |rewrite Hs; eexists; reflexivity] |]).
    inversion Hin.
  - change (mkColumn n e v s) with (setLogic (mkColumn n e v "") s).
    change (mkColumn n e v t) with (setLogic (mkColumn n e v "") t).
    unfold logicAliases in Hin.
    repeat (apply elem_of_cons in Hin as [Hin | Hin];
      [injection Hin as Ha Ht; rewrite Ha in Hs; rewrite Ht;
       eapply convert_logic_congr;
       [rewrite logicOf_setLogic
          by (apply ToLower_nonempty; rewrite Hs; discriminate);
        rewrite Hs|]; reflexivity |]).
    inversion Hin.
Qed.

(* ===================================================================== *)
(** * Object identifiers *)
(* ===================================================================== *)

Lemma length_append (a b : string) :
  String.length (String.append a b) = String.length a + String.length b.
Proof. induction a as [|x a IH]; simpl; [reflexivity | now rewrite IH]. Qed.

Lemma substring_all (b : string) : substring 0 (String.length b) b = b.
Proof. induction b as [|x b IH]; simpl; [reflexivity | now rewrite IH]. Qed.

Lemma substring_append_r (a b : string) :
  substring (String.length a) (String.length b) (String.append a b) = b.
Proof. induction a as [|x a IH]; simpl; [apply substring_all | exact IH]. Qed.

Lemma substring_append_l (a b : string) :
  substring 0 (String.length a) (String.append a b) = a.
Proof.
  induction a as [|x a IH]; simpl; [now destruct b | now rewrite IH].
Qed.

Lemma HasSuffix_append (base suffix : string) :
  HasSuffix (String.append base suffix) suffix = true.
Proof.
  unfold HasSuffix. rewrite length_append.
  replace (String.length base + String.length suffix - String.length suffix)
    with (String.length base) by lia.
  rewrite substring_append_r, String.eqb_refl.
  rewrite andb_true_r. apply Nat.leb_le. lia.
Qed.

Lemma TrimSuffix_append (base suffix : string) :
  TrimSuffix (String.append base suffix) suffix = base.
Proof.
  unfold TrimSuffix. rewrite HasSuffix_append, length_append.
  replace (String.length base + String.length suffix - String.length suffix)
    with (String.length base) by lia.
  apply substring_append_l.
Qed.

Lemma TrimSuffix_none (s suffix : string) :
  HasSuffix s suffix = false -> TrimSuffix s suffix = s.
Proof. unfold TrimSuffix. now intros ->. Qed.

Lemma isObjectID_string (s : string) (oid : ObjectID) :
  String.length s = 24 -> ObjectIDFromHex s = Some oid ->
  isObjectID (VString s) = Some oid.
Proof. intros Hl Hh. simpl. now rewrite Hl, Nat.eqb_refl. Qed.

(** The name that the identifier block leaves. *)
Lemma objectIDColumn_some (c : Column) (oid : ObjectID) :
  isObjectID (Value c) = Some oid ->
  objectIDColumn c =
  mkColumn (if String.eqb (Name c) "id" then "_id" else TrimSuffix (Name c) ":oid")
           (Exp c) (VObjectID oid) (Logic c).
Proof.
  intros H. unfold objectIDColumn. rewrite H. cbv zeta. simpl Name.
  destruct (String.eqb (Name c) "id"); [reflexivity|].
  destruct (HasSuffix (Name c) ":oid") eqn:E.
  - reflexivity.
  - now rewrite (TrimSuffix_none _ _ E).
Qed.

Lemma convertValue_eqSymbol (Sprintf_v : value -> string) (c : Column) :
  Exp c = eqSymbol -> convertValue Sprintf_v c = (c, None).
Proof. intros H. unfold convertValue. rewrite H. reflexivity. Qed.

Lemma convertLogic_Value (c : Column) : Value (fst (convertLogic c)) = Value c.
Proof.
  rewrite convertLogic_eq. destruct (logicMap !! logicKey c); reflexivity.
Qed.

Lemma convertLogic_Name (c : Column) : Name (fst (convertLogic c)) = Name c.
Proof.
  rewrite convertLogic_eq. destruct (logicMap !! logicKey c); reflexivity.
Qed.

(** C7, as the code has it. Identifier coercion: for a column with a name
    whose value is a string of exactly 24 characters that parses as a
    hexadecimal object identifier, [convert] goes on with the parsed
    identifier in place of the string (so with the operator [=] the value
    it leaves is the identifier itself), and the name it leaves is [_id]
    for the name [id] and the name without its suffix for a name that ends
    in [:oid]. *)
Theorem convert_objectID (Sprintf_v : value -> string)
    (c : Column) (s : string) (oid : ObjectID) :
  Name c <> "" ->
  Value c = VString s ->
  String.length s = 24 ->
  ObjectIDFromHex s = Some oid ->
  let name' := if String.eqb (Name c) "id" then "_id"
               else TrimSuffix (Name c) ":oid" in
  Name (fst (convert Sprintf_v c)) = name' /\
  (Name c = "id" -> name' = "_id") /\
  (forall base, Name c = String.append base ":oid" -> name' = base) /\
  (expMap !! expKey c = Some eqSymbol ->
   Value (fst (convert Sprintf_v c)) = VObjectID oid) /\
  convert Sprintf_v c =
  match expMap !! expKey c with
  | Some sym =>
      match convertValue Sprintf_v
              (mkColumn name' sym (VObjectID oid) (Logic c)) with
      | (c3, Some err) => (c3, Some err)
      | (c3, None) => convertLogic c3
      end
  | None =>
      (mkColumn name' (if String.eqb (Exp c) "" then Eq else Exp c)
                (VObjectID oid) (Logic c),
       Some (ErrUnsupportedExp (if String.eqb (Exp c) "" then Eq else Exp c)))
  end.
Proof.
  intros Hn Hv Hl Hh name'.
  assert (Hid : isObjectID (Value c) = Some oid)
    by (rewrite Hv; now apply isObjectID_string).
  assert (Hc : checkValid c = None).
  { unfold checkValid. apply String.eqb_neq in Hn. now rewrite Hn, Hv. }
  assert (Heq : convert Sprintf_v c =
    match expMap !! expKey c with
    | Some sym =>
        match convertValue Sprintf_v
                (mkColumn name' sym (VObjectID oid) (Logic c)) with
        | (c3, Some err) => (c3, Some err)
        | (c3, None) => convertLogic c3
        end
    | None =>
        (mkColumn name' (if String.eqb (Exp c) "" then Eq else Exp c)
                  (VObjectID oid) (Logic c),
         Some (ErrUnsupportedExp (if String.eqb (Exp c) "" then Eq else Exp c)))
    end).
  { rewrite convert_eq, Hc, (objectIDColumn_some c oid Hid). reflexivity. }
  split; [|split; [|split; [|split]]].
  - rewrite Heq. destruct (expMap !! expKey c) as [sym|]; [|reflexivity].
    destruct (convertValue _ _) as [c3 [e|]] eqn:E;
      apply convertValue_fields in E as (E & _ & _); simpl fst.
    + exact E.
    + now rewrite convertLogic_Name.
  - intros E. subst name'. now rewrite E.
  - intros base E. subst name'. rewrite E.
    destruct (String.eqb (String.append base ":oid") "id") eqn:E2.
    + apply String.eqb_eq in E2.
      exfalso. apply (f_equal String.length) in E2.
      rewrite length_append in E2. simpl in E2. lia.
    + apply TrimSuffix_append.
  - intros E. rewrite Heq, E, convertValue_eqSymbol by reflexivity.
    now rewrite convertLogic_Value.
  - exact Heq.
Qed.

(* ===================================================================== *)
(** * Lists of one logic *)
(* ===================================================================== *)

Lemma internal_cons (c c2 : Column) (columns : list Column) :
  internal (c :: c2 :: columns) = c :: internal (c2 :: columns).
Proof. reflexivity. Qed.

Lemma orIndexesFrom_cons (l i : nat) (column : Column) (rest : list Column)
    (orIndexes : list nat) :
  orIndexesFrom l i (column :: rest) orIndexes =
  if (i =? l - 1)%nat then inl orIndexes
  else
    match convertLogic column with
    | (_, Some err) => inr err
    | (column, None) =>
        orIndexesFrom l (S i) rest
          (if String.eqb (Logic column) orSymbol1
           then orIndexes ++ [i] else orIndexes)%list
    end.
Proof. reflexivity. Qed.

(** With every internal logic [&], the scan of [checkSameLogic] finds no
    index. *)
Lemma orIndexesFrom_and (columns : list Column) :
  forall (l i : nat) (orIndexes : list nat),
  l = i + length columns ->
  Forall (fun c => logicOf c = Some andSymbol1) (internal columns) ->
  orIndexesFrom l i columns orIndexes = inl orIndexes.
Proof.
  induction columns as [|c columns IH]; intros l i acc Hl Hall; [reflexivity|].
  rewrite orIndexesFrom_cons. destruct columns as [|c2 columns].
  - simpl in Hl. replace (i =? l - 1)%nat with true; [reflexivity|].
    symmetry. apply Nat.eqb_eq. lia.
  - rewrite internal_cons in Hall. apply Forall_cons in Hall as [Hc Hall].
    simpl in Hl. replace (i =? l - 1)%nat with false
      by (symmetry; apply Nat.eqb_neq; lia).
    rewrite (convertLogic_of c _ Hc). simpl Logic.
    change (String.eqb andSymbol1 orSymbol1) with false.
    apply IH; [simpl; lia | exact Hall].
Qed.

(** With every internal logic [|], it finds every index but the last. *)
Lemma orIndexesFrom_or (columns : list Column) :
  forall (l i : nat) (orIndexes : list nat),
  l = i + length columns ->
  Forall (fun c => logicOf c = Some orSymbol1) (internal columns) ->
  orIndexesFrom l i columns orIndexes =
  inl (orIndexes ++ seq i (length columns - 1))%list.
Proof.
  induction columns as [|c columns IH]; intros l i acc Hl Hall.
  - simpl. now rewrite app_nil_r.
  - rewrite orIndexesFrom_cons. destruct columns as [|c2 columns].
    + simpl in Hl. replace (i =? l - 1)%nat with true
        by (symmetry; apply Nat.eqb_eq; lia).
      simpl. now rewrite app_nil_r.
    + rewrite internal_cons in Hall. apply Forall_cons in Hall as [Hc Hall].
      simpl in Hl. replace (i =? l - 1)%nat with false
        by (symmetry; apply Nat.eqb_neq; lia).
      rewrite (convertLogic_of c _ Hc). simpl Logic.
      change (String.eqb orSymbol1 orSymbol1) with true. cbv iota.
      rewrite (IH l (S i) (acc ++ [i])%list); [|simpl; lia | exact Hall].
      rewrite <- app_assoc. simpl length.
      now rewrite !Nat.sub_succ, !Nat.sub_0_r.
Qed.

Lemma checkSameLogic_and (columns : list Column) :
  Forall (fun c => logicOf c = Some andSymbol1) (internal columns) ->
  checkSameLogic columns = (allLogicAnd, [], None).
Proof.
  intros H. unfold checkSameLogic.
  now rewrite (orIndexesFrom_and columns (length columns) 0 [] eq_refl H).
Qed.

Lemma checkSameLogic_or (columns : list Column) :
  2 <= length columns ->
  Forall (fun c => logicOf c = Some orSymbol1) (internal columns) ->
  checkSameLogic columns = (allLogicOr, [], None).
Proof.
  intros Hl H. unfold checkSameLogic.
  rewrite (orIndexesFrom_or columns (length columns) 0 [] eq_refl H).
  simpl app. rewrite length_seq.
  replace (length columns - 1 =? 0)%nat with false
    by (symmetry; apply Nat.eqb_neq; lia).
  now rewrite Nat.eqb_refl.
Qed.

Lemma appendUnder_empty (key : string) (c : Column) :
  appendUnder key c ∅ = {[ key := VMs [predicate c] ]}.
Proof. unfold appendUnder. now rewrite lookup_empty, insert_empty. Qed.

Lemma appendUnder_singleton (key : string) (c : Column) (acc : list bsonM) :
  appendUnder key c {[ key := VMs acc ]}
  = {[ key := VMs (acc ++ [predicate c])%list ]}.
Proof.
  unfold appendUnder. now rewrite lookup_singleton_eq, insert_singleton_eq.
Qed.

Section SingleLogic.

Variable Sprintf_v : value -> string.

Lemma andColumns_acc (w : option (gmap string bool)) (columns : list Column) :
  forall (acc : list bsonM) (f : bsonM),
  andColumns Sprintf_v w columns {[ "$and" := VMs acc ]} = Return (Some f) None ->
  f = {[ "$and" := VMs (acc ++ map (normalized Sprintf_v) columns)%list ]}.
Proof.
  induction columns as [|c columns IH]; intros acc f H; simpl in H.
  - injection H as <-. now rewrite app_nil_r.
  - destruct (checkName c w); [discriminate|].
    unfold normalized at 1. simpl map.
    destruct (convert Sprintf_v c) as [c' [e|]]; [discriminate|].
    rewrite appendUnder_singleton in H. apply IH in H.
    now rewrite <- app_assoc in H.
Qed.

Lemma andColumns_ok (w : option (gmap string bool)) (columns : list Column)
    (f : bsonM) :
  columns <> [] ->
  andColumns Sprintf_v w columns ∅ = Return (Some f) None ->
  f = {[ "$and" := VMs (map (normalized Sprintf_v) columns) ]}.
Proof.
  destruct columns as [|c columns]; [congruence|]. intros _ H.
  simpl in H. destruct (checkName c w); [discriminate|].
  unfold normalized at 1. simpl map.
  destruct (convert Sprintf_v c) as [c' [e|]]; [discriminate|].
  rewrite appendUnder_empty in H. now apply andColumns_acc in H.
Qed.

Lemma orColumns_acc (columns : list Column) :
  forall (acc : list bsonM) (f : bsonM),
  orColumns Sprintf_v columns {[ "$or" := VMs acc ]} = Return (Some f) None ->
  f = {[ "$or" := VMs (acc ++ map (normalized Sprintf_v) columns)%list ]}.
Proof.
  induction columns as [|c columns IH]; intros acc f H; simpl in H.
  - injection H as <-. now rewrite app_nil_r.
  - unfold normalized at 1. simpl map.
    destruct (convert Sprintf_v c) as [c' [e|]]; [discriminate|].
    rewrite appendUnder_singleton in H. apply IH in H.
    now rewrite <- app_assoc in H.
Qed.

Lemma orColumns_ok (columns : list Column) (f : bsonM) :
  columns <> [] ->
  orColumns Sprintf_v columns ∅ = Return (Some f) None ->
  f = {[ "$or" := VMs (map (normalized Sprintf_v) columns) ]}.
Proof.
  destruct columns as [|c columns]; [congruence|]. intros _ H.
  simpl in H. unfold normalized at 1. simpl map.
  destruct (convert Sprintf_v c) as [c' [e|]]; [discriminate|].
  rewrite appendUnder_empty in H. now apply orColumns_acc in H.
Qed.

End SingleLogic.

Section BuilderFacts.

Variable Sprintf_v : value -> string.

(** The call on three columns or more. *)
Lemma ConvertToMongoFilter_multi (p : Params) (opts : list RulerOption) :
  3 <= length (Columns p) ->
  ConvertToMongoFilter Sprintf_v p opts =
  match validation (optionsOf opts) p with
  | Some err => (p, Return None (Some err))
  | None =>
      (p, convertMultiColumns Sprintf_v p (whitelistNames (optionsOf opts)))
  end.
Proof.
  intros H. unfold ConvertToMongoFilter, validation, optionsOf.
  destruct (match validateFn _ with Some fn => fn (Columns p) | None => None end);
    [reflexivity|].
  destruct (Columns p) as [|c0 [|c1 [|c2 rest]]]; simpl length in H;
    try lia; reflexivity.
Qed.

(** The call on two columns. *)
Lemma ConvertToMongoFilter_two (p : Params) (opts : list RulerOption)
    (c0 c1 : Column) :
  Columns p = [c0; c1] ->
  ConvertToMongoFilter Sprintf_v p opts =
  let w := whitelistNames (optionsOf opts) in
  match validation (optionsOf opts) p with
  | Some err => (p, Return None (Some err))
  | None =>
      match checkName c0 w with
      | Some err => (p, Return None (Some err))
      | None =>
          match checkName c1 w with
          | Some err => (p, Return None (Some err))
          | None =>
              match convert Sprintf_v c0 with
              | (c0', Some err) =>
                  (setColumns p [c0'; c1], Return None (Some err))
              | (c0', None) =>
                  match convert Sprintf_v c1 with
                  | (c1', Some err) =>
                      (setColumns p [c0'; c1'], Return None (Some err))
                  | (c1', None) =>
                      (setColumns p [c0'; c1'],
                       Return (Some {[ (if String.eqb (Logic c0') andSymbol1
                                        then "$and" else "$or") :=
                                       VMs [predicate c0'; predicate c1'] ]})
                              None)
                  end
              end
          end
      end
  end.
Proof.
  intros H. unfold ConvertToMongoFilter, validation, optionsOf. rewrite H.
  cbv zeta.
  destruct (match validateFn _ with Some fn => fn [c0; c1] | None => None end);
    [reflexivity|].
  destruct (checkName c0 _); [reflexivity|].
  destruct (checkName c1 _); [reflexivity|].
  destruct (convert Sprintf_v c0) as [c0' [e|]]; [reflexivity|].
  destruct (convert Sprintf_v c1) as [c1' [e|]]; [reflexivity|].
  destruct (String.eqb (Logic c0') andSymbol1); reflexivity.
Qed.

(** The call on one column. *)
Lemma ConvertToMongoFilter_one (p : Params) (opts : list RulerOption)
    (c0 : Column) :
  Columns p = [c0] ->
  ConvertToMongoFilter Sprintf_v p opts =
  match validation (optionsOf opts) p with
  | Some err => (p, Return None (Some err))
  | None =>
      match checkName c0 (whitelistNames (optionsOf opts)) with
      | Some err => (p, Return None (Some err))
      | None =>
          match convert Sprintf_v c0 with
          | (c0', Some err) => (setColumns p [c0'], Return None (Some err))
          | (c0', None) =>
              (setColumns p [c0'], Return (Some (predicate c0')) None)
          end
      end
  end.
Proof.
  intros H. unfold ConvertToMongoFilter, validation, optionsOf. rewrite H.
  destruct (match validateFn _ with Some fn => fn [c0] | None => None end);
    [reflexivity|].
  destruct (checkName c0 _); [reflexivity|].
  destruct (convert Sprintf_v c0) as [c0' [e|]]; reflexivity.
Qed.

(** The call on no column. *)
Lemma ConvertToMongoFilter_none (p : Params) (opts : list RulerOption) :
  Columns p = [] ->
  ConvertToMongoFilter Sprintf_v p opts =
  match validation (optionsOf opts) p with
  | Some err => (p, Return None (Some err))
  | None => (p, Return (Some ∅) None)
  end.
Proof.
  intros H. unfold ConvertToMongoFilter, validation, optionsOf. rewrite H.
  destruct (match validateFn _ with Some fn => fn [] | None => None end);
    reflexivity.
Qed.

Lemma convertMultiColumns_and (p : Params) (w : option (gmap string bool)) :
  checkSameLogic (Columns p) = (allLogicAnd, [], None) ->
  convertMultiColumns Sprintf_v p w = andColumns Sprintf_v w (Columns p) ∅.
Proof. intros H. unfold convertMultiColumns. now rewrite H. Qed.

Lemma convertMultiColumns_or (p : Params) (w : option (gmap string bool)) :
  checkSameLogic (Columns p) = (allLogicOr, [], None) ->
  convertMultiColumns Sprintf_v p w = orColumns Sprintf_v (Columns p) ∅.
Proof. intros H. unfold convertMultiColumns. now rewrite H. Qed.

End BuilderFacts.

Lemma length_two {A : Type} (l : list A) :
  length l = 2 -> exists a b, l = [a; b].
Proof.
  destruct l as [|a [|b [|c l]]]; simpl; intros H; try discriminate; eauto.
Qed.

Lemma length_one {A : Type} (l : list A) :
  length l = 1 -> exists a, l = [a].
Proof.
  destruct l as [|a [|b l]]; simpl; intros H; try discriminate; eauto.
Qed.

(** C8, as the code has it. For a list of at least two columns whose
    internal logic values (those of all columns but the last) all normalise
    to AND, a call of [ConvertToMongoFilter] that succeeds returns the one
    group [$and] holding exactly the normalised predicates of the columns,
    in the order of the columns; and the one group [$or] when they all
    normalise to OR. *)
Theorem single_logic_group (Sprintf_v : value -> string)
    (p : Params) (opts : list RulerOption) (sym key : string) (f : bsonM) :
  (sym, key) ∈ [(andSymbol1, "$and"); (orSymbol1, "$or")] ->
  2 <= length (Columns p) ->
  Forall (fun c => logicOf c = Some sym) (internal (Columns p)) ->
  snd (ConvertToMongoFilter Sprintf_v p opts) = Return (Some f) None ->
  f = {[ key := VMs (map (normalized Sprintf_v) (Columns p)) ]}.
Proof.
  intros Hin Hlen Hall Hres.
  destruct (Nat.eq_dec (length (Columns p)) 2) as [H2 | H2].
  - (* two columns *)
    destruct (length_two _ H2) as (c0 & c1 & Hcols).
    rewrite (ConvertToMongoFilter_two _ _ _ c0 c1 Hcols) in Hres.
    cbv zeta in Hres. rewrite Hcols in Hall |- *.
    destruct (validation _ _); [discriminate|].
    destruct (checkName c0 _); [discriminate|].
    destruct (checkName c1 _); [discriminate|].
    unfold normalized. simpl map.
    destruct (convert Sprintf_v c0) as [c0' [e|]] eqn:H0; [discriminate|].
    destruct (convert Sprintf_v c1) as [c1' [e|]] eqn:H1; [discriminate|].
    apply convert_ok_logic in H0.
    apply Forall_cons in Hall as [Hc _]. rewrite Hc in H0.
    injection H0 as H0. rewrite <- H0 in Hres. simpl fst.
    apply elem_of_cons in Hin as [Hin | Hin].
    + injection Hin as -> ->. simpl in Hres. now injection Hres as <-.
    + apply list_elem_of_singleton in Hin. injection Hin as -> ->.
      simpl in Hres. now injection Hres as <-.
  - (* three columns or more *)
    rewrite ConvertToMongoFilter_multi in Hres by lia.
    destruct (validation _ _); [discriminate|]. simpl snd in Hres.
    assert (Hne : Columns p <> []) by (intros E; rewrite E in Hlen; simpl in Hlen; lia).
    apply elem_of_cons in Hin as [Hin | Hin].
    + injection Hin as -> ->.
      rewrite (convertMultiColumns_and _ _ _ (checkSameLogic_and _ Hall)) in Hres.
      now apply andColumns_ok in Hres.
    + apply list_elem_of_singleton in Hin. injection Hin as -> ->.
      rewrite (convertMultiColumns_or _ _ _ (checkSameLogic_or _ Hlen Hall)) in Hres.
      now apply orColumns_ok in Hres.
Qed.

(* ===================================================================== *)
(** * Errors *)
(* ===================================================================== *)

Lemma noPartial_error (e : error) : noPartial (Return None (Some e)).
Proof. intros f e' H. now injection H as <- _. Qed.

Lemma noPartial_success (f : option bsonM) : noPartial (Return f None).
Proof. intros f' e H. discriminate. Qed.

Lemma noPartial_panic : noPartial Panic.
Proof. intros f e H. discriminate. Qed.

Create HintDb partial.
#[local] Hint Resolve noPartial_error noPartial_success noPartial_panic : partial.

Section ErrorFacts.

Variable Sprintf_v : value -> string.

Lemma andColumns_noPartial (w : option (gmap string bool))
    (columns : list Column) :
  forall filter, noPartial (andColumns Sprintf_v w columns filter).
Proof.
  induction columns as [|c columns IH]; intros filter; simpl;
    [auto with partial|].
  destruct (checkName c w); [auto with partial|].
  destruct (convert Sprintf_v c) as [c' [e|]]; auto with partial.
Qed.

Lemma orColumns_noPartial (columns : list Column) :
  forall filter, noPartial (orColumns Sprintf_v columns filter).
Proof.
  induction columns as [|c columns IH]; intros filter; simpl;
    [auto with partial|].
  destruct (convert Sprintf_v c) as [c' [e|]]; auto with partial.
Qed.

Lemma andConditionsOf_noPartial (columns : list Column) (indexes : list nat) :
  forall andConditions o,
  andConditionsOf Sprintf_v columns indexes andConditions = inl o ->
  noPartial o.
Proof.
  induction indexes as [|i indexes IH]; intros acc o; simpl;
    [discriminate|].
  destruct (columns !! i) as [c|].
  - destruct (convert Sprintf_v c) as [c' [e|]].
    + intros H. injection H as <-. auto with partial.
    + apply IH.
  - intros H. injection H as <-. auto with partial.
Qed.

Lemma orConditionsOf_noPartial (columns : list Column)
    (groupIndexes : list (list nat)) :
  forall orConditions,
  noPartial (orConditionsOf Sprintf_v columns groupIndexes orConditions).
Proof.
  induction groupIndexes as [|g groupIndexes IH]; intros acc; simpl;
    [auto with partial|].
  destruct (length g =? 1)%nat.
  - destruct (g !! 0%nat) as [i|]; [|auto with partial].
    destruct (columns !! i) as [c|]; [|auto with partial].
    destruct (convert Sprintf_v c) as [c' [e|]]; auto with partial.
  - destruct (andConditionsOf Sprintf_v columns g []) as [o|conds] eqn:E.
    + eapply andConditionsOf_noPartial; eassumption.
    + apply IH.
Qed.

Lemma convertMultiColumns_noPartial (p : Params)
    (w : option (gmap string bool)) :
  noPartial (convertMultiColumns Sprintf_v p w).
Proof.
  unfold convertMultiColumns.
  destruct (checkSameLogic (Columns p)) as [[logicType groupIndexes] [e|]];
    [auto with partial|].
  destruct (logicType =? allLogicAnd)%nat; [apply andColumns_noPartial|].
  destruct (logicType =? allLogicOr)%nat; [apply orColumns_noPartial|].
  apply orConditionsOf_noPartial.
Qed.

Lemma ConvertToMongoFilter_noPartial (p : Params) (opts : list RulerOption) :
  noPartial (snd (ConvertToMongoFilter Sprintf_v p opts)).
Proof.
  destruct (le_lt_dec 3 (length (Columns p))) as [H3 | H3].
  - rewrite ConvertToMongoFilter_multi by exact H3.
    destruct (validation _ _); simpl; [auto with partial|].
    apply convertMultiColumns_noPartial.
  - destruct (Columns p) as [|c0 [|c1 [|c2 rest]]] eqn:Hcols;
      simpl in H3; try lia.
    + rewrite ConvertToMongoFilter_none by exact Hcols.
      destruct (validation _ _); simpl; auto with partial.
    + rewrite (ConvertToMongoFilter_one _ _ _ c0 Hcols).
      destruct (validation _ _); simpl; [auto with partial|].
      destruct (checkName c0 _); simpl; [auto with partial|].
      destruct (convert Sprintf_v c0) as [c0' [e|]]; simpl; auto with partial.
    + rewrite (ConvertToMongoFilter_two _ _ _ c0 c1 Hcols). cbv zeta.
      destruct (validation _ _); simpl; [auto with partial|].
      destruct (checkName c0 _); simpl; [auto with partial|].
      destruct (checkName c1 _); simpl; [auto with partial|].
      destruct (convert Sprintf_v c0) as [c0' [e|]]; simpl; [auto with partial|].
      destruct (convert Sprintf_v c1) as [c1' [e|]]; simpl; auto with partial.
Qed.

End ErrorFacts.

(** C5. Whenever [ConvertToMongoFilter] returns an error, the filter it
    returns is [nil]; and a validation function given in the options is
    asked about the columns as they came in, before any check of a name
    and any normalisation: the error it gives is the error of the call,
    with no filter and the columns untouched. *)
Theorem error_aborts (Sprintf_v : value -> string)
    (p : Params) (opts : list RulerOption) :
  (forall f e,
     snd (ConvertToMongoFilter Sprintf_v p opts) = Return f (Some e) ->
     f = None) /\
  (forall fn e,
     validateFn (optionsOf opts) = Some fn ->
     fn (Columns p) = Some e ->
     ConvertToMongoFilter Sprintf_v p opts = (p, Return None (Some e))).
Proof.
  split.
  - apply ConvertToMongoFilter_noPartial.
  - intros fn e Hfn He. unfold ConvertToMongoFilter.
    fold (optionsOf opts). now rewrite Hfn, He.
Qed.

(* ===================================================================== *)
(** * What a call leaves of its receiver *)
(* ===================================================================== *)

Ltac frame_cases :=
  repeat split; try reflexivity; intros; simpl in *; try lia;
  try congruence; auto.

(** C6, as the code has it. After a call of [ConvertToMongoFilter] that
    succeeds, [Page], [Limit], [Sort] and [Size] are as before; on one or
    two columns each column is the column that [convert] leaves of it
    (name, operator, value and logic normalised in place); on three
    columns or more the columns are as before, since [convertMultiColumns]
    converts copies. *)
Theorem columns_after_conversion (Sprintf_v : value -> string)
    (p : Params) (opts : list RulerOption) (f : bsonM) :
  snd (ConvertToMongoFilter Sprintf_v p opts) = Return (Some f) None ->
  let p' := fst (ConvertToMongoFilter Sprintf_v p opts) in
  Page p' = Page p /\ Limit p' = Limit p /\ Sort p' = Sort p /\
  Size p' = Size p /\
  (length (Columns p) <= 2 ->
   Columns p' = map (fun c => fst (convert Sprintf_v c)) (Columns p)) /\
  (3 <= length (Columns p) -> Columns p' = Columns p).
Proof.
  intros Hres p'. subst p'.
  destruct (le_lt_dec 3 (length (Columns p))) as [H3 | H3].
  - rewrite ConvertToMongoFilter_multi by exact H3.
    destruct (validation _ _); simpl; frame_cases.
  - destruct (Columns p) as [|c0 [|c1 [|c2 rest]]] eqn:Hcols;
      simpl in H3; try lia.
    + rewrite ConvertToMongoFilter_none by exact Hcols.
      destruct (validation _ _); simpl; frame_cases.
    + rewrite (ConvertToMongoFilter_one _ _ _ c0 Hcols) in Hres |- *.
      simpl map.
      destruct (validation _ _); [discriminate|].
      destruct (checkName c0 _); [discriminate|].
      destruct (convert Sprintf_v c0) as [c0' [e|]]; [discriminate|].
      simpl; frame_cases.
    + rewrite (ConvertToMongoFilter_two _ _ _ c0 c1 Hcols) in Hres |- *.
      cbv zeta in Hres |- *. simpl map.
      destruct (validation _ _); [discriminate|].
      destruct (checkName c0 _); [discriminate|].
      destruct (checkName c1 _); [discriminate|].
      destruct (convert Sprintf_v c0) as [c0' [e|]]; [discriminate|].
      destruct (convert Sprintf_v c1) as [c1' [e|]]; [discriminate|].
      simpl; frame_cases.
Qed.

(* ===================================================================== *)
(** * The fast paths beside the general algorithm *)
(* ===================================================================== *)

Lemma checkSameLogic_one (c0 : Column) :
  checkSameLogic [c0] = (allLogicAnd, [], None).
Proof. reflexivity. Qed.

Lemma checkSameLogic_two (c0 c1 : Column) (sym : string) :
  logicOf c0 = Some sym ->
  checkSameLogic [c0; c1] =
  (if String.eqb sym orSymbol1 then allLogicOr else allLogicAnd, [], None).
Proof.
  intros H. unfold checkSameLogic. simpl length.
  rewrite orIndexesFrom_cons. simpl Nat.eqb. cbv iota.
  rewrite (convertLogic_of _ _ H). simpl Logic.
  destruct (String.eqb sym orSymbol1); reflexivity.
Qed.

(** C4, as the code has it. Once the validation function, if any, has
    accepted the columns: on no column the fast path and
    [convertMultiColumns] both return the empty filter; on one column
    they fail with the same error or both succeed, [convertMultiColumns]
    with the predicate of the fast path alone in a group [$and]; on two
    columns, whenever the fast path succeeds [convertMultiColumns] returns
    the same filter. *)
Theorem fast_paths_and_general (Sprintf_v : value -> string)
    (p : Params) (opts : list RulerOption) :
  validation (optionsOf opts) p = None ->
  let fast := snd (ConvertToMongoFilter Sprintf_v p opts) in
  let general :=
    convertMultiColumns Sprintf_v p (whitelistNames (optionsOf opts)) in
  (length (Columns p) = 0 ->
   fast = Return (Some ∅) None /\ general = Return (Some ∅) None) /\
  (length (Columns p) = 1 -> general = wrapAnd fast) /\
  (length (Columns p) = 2 ->
   forall f, fast = Return (Some f) None -> general = Return (Some f) None).
Proof.
  intros Hv fast general. subst fast general. split; [|split]; intros Hlen.
  - apply length_zero_iff_nil in Hlen.
    rewrite ConvertToMongoFilter_none, Hv by exact Hlen.
    unfold convertMultiColumns. rewrite Hlen. split; reflexivity.
  - destruct (length_one _ Hlen) as (c0 & Hcols).
    rewrite (ConvertToMongoFilter_one _ _ _ c0 Hcols), Hv.
    rewrite convertMultiColumns_and by (rewrite Hcols; apply checkSameLogic_one).
    rewrite Hcols. simpl andColumns.
    destruct (checkName c0 _); [reflexivity|].
    destruct (convert Sprintf_v c0) as [c0' [e|]]; [reflexivity|].
    simpl. now rewrite appendUnder_empty.
  - destruct (length_two _ Hlen) as (c0 & c1 & Hcols). intros f.
    rewrite (ConvertToMongoFilter_two _ _ _ c0 c1 Hcols), Hv. cbv zeta.
    destruct (checkName c0 _) eqn:N0; [discriminate|].
    destruct (checkName c1 _) eqn:N1; [discriminate|].
    destruct (convert Sprintf_v c0) as [c0' [e|]] eqn:H0; [discriminate|].
    destruct (convert Sprintf_v c1) as [c1' [e|]] eqn:H1; [discriminate|].
    simpl snd. intros Hf. injection Hf as <-.
    pose proof (convert_ok_logic _ _ _ H0) as Hl.
    destruct (logicOf_values _ _ Hl) as [E | E]; rewrite E in Hl |- *.
    + rewrite convertMultiColumns_and
        by (rewrite Hcols; apply (checkSameLogic_two _ _ _ Hl)).
      rewrite Hcols. simpl andColumns. rewrite N0, H0, N1, H1.
      now rewrite appendUnder_empty, appendUnder_singleton.
    + rewrite convertMultiColumns_or
        by (rewrite Hcols; apply (checkSameLogic_two _ _ _ Hl)).
      rewrite Hcols. simpl orColumns. rewrite H0, H1.
      now rewrite appendUnder_empty, appendUnder_singleton.
Qed.

(* ===================================================================== *)
(** * The set operators *)
(* ===================================================================== *)

Lemma convertLogic_snd_ext (c1 c2 : Column) :
  Logic c1 = Logic c2 -> snd (convertLogic c1) = snd (convertLogic c2).
Proof.
  intros H. rewrite !convertLogic_eq. unfold logicKey. rewrite H.
  destruct (logicMap !! _); reflexivity.
Qed.

Lemma checkSameLogic_type (columns : list Column) (logicType : nat)
    (groupIndexes : list (list nat)) (e : option error) :
  checkSameLogic columns = (logicType, groupIndexes, e) ->
  logicType = 0 \/ logicType = allLogicAnd \/ logicType = allLogicOr.
Proof.
  unfold checkSameLogic.
  destruct (orIndexesFrom _ _ _ _) as [orIndexes | err].
  - destruct (length orIndexes =? 0)%nat; [intros H; inversion H; auto|].
    destruct (length orIndexes =? length columns - 1)%nat;
      intros H; inversion H; auto.
  - intros H; inversion H; auto.
Qed.

Section SetOperators.

Variable Sprintf_v : value -> string.

Lemma convertValue_set (c : Column) (sym : string) :
  Exp c = sym -> sym ∈ [In; NotIn] ->
  convertValue Sprintf_v c =
  match Value c with
  | VString val =>
      (setValue c
         (VM {[ (if String.eqb sym In then "$in" else "$nin") :=
                VArr (map VString (Split val ","%char)) ]}), None)
  | _ => (c, Some (ErrInvalidValueType (Value c)))
  end.
Proof.
  intros H Hin. unfold convertValue. rewrite H.
  apply elem_of_cons in Hin as [-> | Hin];
    [|apply list_elem_of_singleton in Hin as ->];
    destruct (Value c); reflexivity.
Qed.

Lemma andColumns_fails (w : option (gmap string bool)) (c : Column)
    (columns : list Column) :
  forall filter,
  c ∈ columns -> snd (convert Sprintf_v c) <> None ->
  exists e, andColumns Sprintf_v w columns filter = Return None (Some e).
Proof.
  induction columns as [|c0 columns IH]; intros filter Hin Hc.
  - now apply elem_of_nil in Hin.
  - simpl. destruct (checkName c0 w); [eauto|].
    destruct (convert Sprintf_v c0) as [c0' [e|]] eqn:H0; [eauto|].
    apply elem_of_cons in Hin as [-> | Hin].
    + rewrite H0 in Hc. now contradiction Hc.
    + now apply IH.
Qed.

Lemma orColumns_fails (c : Column) (columns : list Column) :
  forall filter,
  c ∈ columns -> snd (convert Sprintf_v c) <> None ->
  exists e, orColumns Sprintf_v columns filter = Return None (Some e).
Proof.
  induction columns as [|c0 columns IH]; intros filter Hin Hc.
  - now apply elem_of_nil in Hin.
  - simpl. destruct (convert Sprintf_v c0) as [c0' [e|]] eqn:H0; [eauto|].
    apply elem_of_cons in Hin as [-> | Hin].
    + rewrite H0 in Hc. now contradiction Hc.
    + now apply IH.
Qed.

(** A column that [convert] rejects makes the call fail, unless the logic
    is mixed. *)
Lemma rejected_column_fails (p : Params) (opts : list RulerOption)
    (c : Column) :
  c ∈ Columns p -> snd (convert Sprintf_v c) <> None ->
  ~ mixedLogic (Columns p) ->
  exists e,
    snd (ConvertToMongoFilter Sprintf_v p opts) = Return None (Some e).
Proof.
  intros Hin Hc Hmix.
  destruct (le_lt_dec 3 (length (Columns p))) as [H3 | H3].
  - rewrite ConvertToMongoFilter_multi by exact H3.
    destruct (validation _ _); simpl snd; [eauto|].
    unfold convertMultiColumns.
    destruct (checkSameLogic (Columns p)) as [[logicType groups] [e|]] eqn:Hs;
      [eauto|].
    destruct (checkSameLogic_type _ _ _ _ Hs) as [-> | [-> | ->]].
    + exfalso. apply Hmix. split; eauto.
    + simpl. now apply andColumns_fails with (c := c).
    + simpl. now apply orColumns_fails with (c := c).
  - destruct (Columns p) as [|c0 [|c1 [|c2 rest]]] eqn:Hcols;
      simpl in H3; try lia.
    + now apply elem_of_nil in Hin.
    + rewrite (ConvertToMongoFilter_one _ _ _ c0 Hcols).
      apply list_elem_of_singleton in Hin as ->.
      destruct (validation _ _); simpl snd; [eauto|].
      destruct (checkName c0 _); simpl snd; [eauto|].
      destruct (convert Sprintf_v c0) as [c0' [e|]]; simpl snd; [eauto|].
      now contradiction Hc.
    + rewrite (ConvertToMongoFilter_two _ _ _ c0 c1 Hcols). cbv zeta.
      destruct (validation _ _); simpl snd; [eauto|].
      destruct (checkName c0 _); simpl snd; [eauto|].
      destruct (checkName c1 _); simpl snd; [eauto|].
      destruct (convert Sprintf_v c0) as [c0' [e|]] eqn:H0; simpl snd; [eauto|].
      destruct (convert Sprintf_v c1) as [c1' [e|]] eqn:H1; simpl snd; [eauto|].
      apply elem_of_cons in Hin as [-> | Hin].
      * rewrite H0 in Hc. now contradiction Hc.
      * apply list_elem_of_singleton in Hin as ->.
        rewrite H1 in Hc. now contradiction Hc.
Qed.

End SetOperators.

(** C9, as the code has it. For a column with a name whose operator
    normalises to [in] or [nin]: a value that is neither nil nor a string
    gives the type error; so does a string of 24 characters that parses as
    an object identifier, which [convert] has replaced by the identifier
    before it reads the operator; any other string is split at its commas
    into the list of its fields, under [$in], respectively [$nin], and
    only the logic can still be refused. A column that [convert] rejects
    makes [ConvertToMongoFilter] fail on every list that holds it and whose
    logic is not mixed. *)
Theorem set_operator (Sprintf_v : value -> string) (c : Column) (sym : string) :
  Name c <> "" ->
  expMap !! expKey c = Some sym ->
  sym ∈ [In; NotIn] ->
  (Value c <> VNil -> (forall s, Value c <> VString s) ->
   snd (convert Sprintf_v c) = Some (ErrInvalidValueType (Value c))) /\
  (forall s oid,
     Value c = VString s -> isObjectID (VString s) = Some oid ->
     snd (convert Sprintf_v c) = Some (ErrInvalidValueType (VObjectID oid))) /\
  (forall s,
     Value c = VString s -> isObjectID (VString s) = None ->
     Value (fst (convert Sprintf_v c)) =
       VM {[ (if String.eqb sym In then "$in" else "$nin") :=
             VArr (map VString (Split s ","%char)) ]} /\
     snd (convert Sprintf_v c) = snd (convertLogic c)) /\
  (forall p opts,
     c ∈ Columns p -> snd (convert Sprintf_v c) <> None ->
     ~ mixedLogic (Columns p) ->
     exists e,
       snd (ConvertToMongoFilter Sprintf_v p opts) = Return None (Some e)).
Proof.
  intros Hn Hsym Hin.
  apply String.eqb_neq in Hn.
  split; [|split; [|split]].
  - intros Hnil Hstr. rewrite convert_eq. unfold checkValid. rewrite Hn.
    assert (Hid : objectIDColumn c = c).
    { unfold objectIDColumn.
      destruct (Value c) eqn:E; try reflexivity. now contradiction (Hstr s). }
    rewrite Hid, Hsym.
    rewrite (convertValue_set _ _ sym) by (reflexivity || exact Hin).
    simpl Value. destruct (Value c) eqn:E; try reflexivity.
    + now contradiction Hnil.
    + now contradiction (Hstr s).
  - intros s oid Hv Hid. rewrite convert_eq. unfold checkValid.
    rewrite Hn, Hv, Hsym. rewrite <- Hv in Hid.
    rewrite (objectIDColumn_some c oid Hid).
    now rewrite (convertValue_set _ _ sym) by (reflexivity || exact Hin).
  - intros s Hv Hid. rewrite convert_eq. unfold checkValid.
    rewrite Hn, Hv, Hsym.
    assert (Hc : objectIDColumn c = c).
    { unfold objectIDColumn. now rewrite Hv, Hid. }
    rewrite Hc, (convertValue_set _ _ sym) by (reflexivity || exact Hin).
    simpl Value. rewrite Hv. split.
    + now rewrite convertLogic_Value.
    + now apply convertLogic_snd_ext.
  - intros p opts. apply rejected_column_fails.
Qed.

(* ===================================================================== *)
(** * The code on concrete columns *)
(* ===================================================================== *)

(** C1. The grouping of mixed logic on [a OR b AND c]: the specification's
    runs are [[0]] and [[1; 2]], while [groupingIndex] returns [[0]] and
    [[2]], so that the filter holds no predicate of [b]; and on five
    columns with OR at 1 and 3 it returns 1 in two groups. *)
Theorem grouping_on_mixed_logic :
  specRuns 3 [0] = [[0]; [1; 2]] /\
  groupingIndex 3 [0] = [[0]; [2]] /\
  specRuns 5 [1; 3] = [[0; 1]; [2; 3]; [4]] /\
  groupingIndex 5 [1; 3] = [[0; 1]; [1; 2; 3]; [4]] /\
  snd (ConvertToMongoFilter fmtValue
         (paramsOf [ mkColumn "a" "eq" (VInt 1) "or";
                     mkColumn "b" "eq" (VInt 2) "and";
                     mkColumn "c" "eq" (VInt 3) "and" ]) [])
  = Return (Some {[ "$or" := VMs [ {[ "a" := VInt 1 ]};
                                   {[ "c" := VInt 3 ]} ] ]}) None.
Proof. repeat split; vm_compute; reflexivity. Qed.

(** C2. The whitelist on three columns: with the whitelist [{a}] the name
    [b] is refused by [checkName], by the call on two columns joined by OR
    and by the call on three columns joined by AND, and passes on three
    columns joined by OR. *)
Theorem whitelist_on_or_columns :
  let w : gmap string bool := {[ "a" := true ]} in
  let columns (logic : string) :=
    [ mkColumn "a" "eq" (VInt 1) logic;
      mkColumn "b" "eq" (VInt 2) logic;
      mkColumn "a" "eq" (VInt 3) "" ] in
  checkName (mkColumn "b" "eq" (VInt 2) "or") (Some w)
  = Some (ErrNameNotAllowed "b") /\
  snd (ConvertToMongoFilter fmtValue
         (paramsOf [ mkColumn "a" "eq" (VInt 1) "or";
                     mkColumn "b" "eq" (VInt 2) "" ])
         [WithWhitelistNames (Some w)])
  = Return None (Some (ErrNameNotAllowed "b")) /\
  snd (ConvertToMongoFilter fmtValue (paramsOf (columns "and"))
         [WithWhitelistNames (Some w)])
  = Return None (Some (ErrNameNotAllowed "b")) /\
  snd (ConvertToMongoFilter fmtValue (paramsOf (columns "or"))
         [WithWhitelistNames (Some w)])
  = Return (Some {[ "$or" := VMs [ {[ "a" := VInt 1 ]};
                                   {[ "b" := VInt 2 ]};
                                   {[ "a" := VInt 3 ]} ] ]}) None.
Proof. repeat split; vm_compute; reflexivity. Qed.

(* ===================================================================== *)
(** * No index out of range *)
(* ===================================================================== *)

Lemma groupingFrom_bound (l : nat) (orIndexes : list nat) :
  forall (groupIndexes : list (list nat)) (lastIndex : nat),
  Forall (fun i => i < l) orIndexes ->
  Forall (Forall (fun i => i < l)) groupIndexes ->
  Forall (Forall (fun i => i < l))
         (fst (groupingFrom orIndexes groupIndexes lastIndex)).
Proof.
  induction orIndexes as [|index orIndexes IH]; intros groups lastIndex Ho Hg;
    simpl; [exact Hg|].
  apply Forall_cons in Ho as [Hi Ho]. apply IH; [exact Ho|].
  apply Forall_app. split; [exact Hg|].
  apply Forall_cons. split; [|constructor].
  apply Forall_forall. intros x Hx. apply elem_of_seq in Hx. lia.
Qed.

Lemma groupingIndex_bound (l : nat) (orIndexes : list nat) :
  Forall (fun i => i < l) orIndexes ->
  Forall (Forall (fun i => i < l)) (groupingIndex l orIndexes).
Proof.
  intros Ho. unfold groupingIndex.
  pose proof (groupingFrom_bound l orIndexes [] 0 Ho ltac:(constructor)) as H.
  destruct (groupingFrom orIndexes [] 0) as [groups lastIndex]. simpl in H.
  apply Forall_app. split; [exact H|].
  apply Forall_cons. split; [|constructor].
  apply Forall_forall. intros x Hx. apply elem_of_seq in Hx. lia.
Qed.

Lemma orIndexesFrom_bound (columns : list Column) :
  forall (l i : nat) (orIndexes found : list nat),
  l = i + length columns ->
  Forall (fun i => i < l) orIndexes ->
  orIndexesFrom l i columns orIndexes = inl found ->
  Forall (fun i => i < l) found.
Proof.
  induction columns as [|c columns IH]; intros l i acc found Hl Hacc H.
  - simpl in H. now injection H as <-.
  - rewrite orIndexesFrom_cons in H.
    destruct (i =? l - 1)%nat; [now injection H as <-|].
    destruct (convertLogic c) as [c' [e|]]; [discriminate|].
    apply IH in H; [exact H | simpl in Hl; lia |].
    destruct (String.eqb (Logic c') orSymbol1); [|exact Hacc].
    apply Forall_app. split; [exact Hacc|].
    apply Forall_cons. split; [simpl in Hl; lia | constructor].
Qed.

Lemma checkSameLogic_bound (columns : list Column) (logicType : nat)
    (groupIndexes : list (list nat)) (e : option error) :
  checkSameLogic columns = (logicType, groupIndexes, e) ->
  Forall (Forall (fun i => i < length columns)) groupIndexes.
Proof.
  unfold checkSameLogic.
  destruct (orIndexesFrom _ _ _ _) as [orIndexes | err] eqn:Ho.
  - apply orIndexesFrom_bound in Ho; [|reflexivity | constructor].
    destruct (length orIndexes =? 0)%nat;
      [intros H; injection H as _ <- _; constructor|].
    destruct (length orIndexes =? length columns - 1)%nat;
      [intros H; injection H as _ <- _; constructor|].
    intros H; injection H as _ <- _. now apply groupingIndex_bound.
  - intros H; injection H as _ <- _; constructor.
Qed.

Section NoPanic.

Variable Sprintf_v : value -> string.

Lemma andColumns_returns (w : option (gmap string bool))
    (columns : list Column) :
  forall filter, andColumns Sprintf_v w columns filter <> Panic.
Proof.
  induction columns as [|c columns IH]; intros filter; simpl; [discriminate|].
  destruct (checkName c w); [discriminate|].
  destruct (convert Sprintf_v c) as [c' [e|]]; [discriminate | apply IH].
Qed.

Lemma orColumns_returns (columns : list Column) :
  forall filter, orColumns Sprintf_v columns filter <> Panic.
Proof.
  induction columns as [|c columns IH]; intros filter; simpl; [discriminate|].
  destruct (convert Sprintf_v c) as [c' [e|]]; [discriminate | apply IH].
Qed.

Lemma andConditionsOf_returns (columns : list Column) (indexes : list nat) :
  Forall (fun i => i < length columns) indexes ->
  forall andConditions,
  andConditionsOf Sprintf_v columns indexes andConditions <> inl Panic.
Proof.
  induction indexes as [|i indexes IH]; intros Hi acc; simpl; [discriminate|].
  apply Forall_cons in Hi as [Hi Hrest].
  destruct (lookup_lt_is_Some_2 columns i Hi) as [c ->].
  destruct (convert Sprintf_v c) as [c' [e|]]; [discriminate | now apply IH].
Qed.

Lemma orConditionsOf_returns (columns : list Column)
    (groupIndexes : list (list nat)) :
  Forall (Forall (fun i => i < length columns)) groupIndexes ->
  forall orConditions,
  orConditionsOf Sprintf_v columns groupIndexes orConditions <> Panic.
Proof.
  induction groupIndexes as [|g groups IH]; intros Hg acc; simpl;
    [discriminate|].
  apply Forall_cons in Hg as [Hg Hrest].
  destruct (length g =? 1)%nat eqn:E.
  - destruct g as [|i [|j g]]; try discriminate. simpl.
    apply Forall_cons in Hg as [Hi _].
    destruct (lookup_lt_is_Some_2 columns i Hi) as [c ->].
    destruct (convert Sprintf_v c) as [c' [e|]]; [discriminate | now apply IH].
  - destruct (andConditionsOf Sprintf_v columns g []) as [o | conds] eqn:Ha;
      [|now apply IH].
    intros ->. now apply (andConditionsOf_returns columns g Hg []).
Qed.

Lemma convertMultiColumns_returns (p : Params)
    (w : option (gmap string bool)) :
  convertMultiColumns Sprintf_v p w <> Panic.
Proof.
  unfold convertMultiColumns.
  destruct (checkSameLogic (Columns p)) as [[logicType groups] [e|]] eqn:Hs;
    [discriminate|].
  destruct (logicType =? allLogicAnd)%nat; [apply andColumns_returns|].
  destruct (logicType =? allLogicOr)%nat; [apply orColumns_returns|].
  apply orConditionsOf_returns. eapply checkSameLogic_bound; eassumption.
Qed.

End NoPanic.

(** X1. Every call of [ConvertToMongoFilter] returns: no index that it
    reads is out of range. *)
Theorem ConvertToMongoFilter_returns (Sprintf_v : value -> string)
    (p : Params) (opts : list RulerOption) :
  exists filter err,
    snd (ConvertToMongoFilter Sprintf_v p opts) = Return filter err.
Proof.
  assert (H : snd (ConvertToMongoFilter Sprintf_v p opts) <> Panic).
  { destruct (le_lt_dec 3 (length (Columns p))) as [H3 | H3].
    - rewrite ConvertToMongoFilter_multi by exact H3.
      destruct (validation _ _); simpl; [discriminate|].
      apply convertMultiColumns_returns.
    - destruct (Columns p) as [|c0 [|c1 [|c2 rest]]] eqn:Hcols;
        simpl in H3; try lia.
      + rewrite ConvertToMongoFilter_none by exact Hcols.
        destruct (validation _ _); discriminate.
      + rewrite (ConvertToMongoFilter_one _ _ _ c0 Hcols).
        destruct (validation _ _); [discriminate|].
        destruct (checkName c0 _); [discriminate|].
        destruct (convert Sprintf_v c0) as [c0' [e|]]; discriminate.
      + rewrite (ConvertToMongoFilter_two _ _ _ c0 c1 Hcols). cbv zeta.
        destruct (validation _ _); [discriminate|].
        destruct (checkName c0 _); [discriminate|].
        destruct (checkName c1 _); [discriminate|].
        destruct (convert Sprintf_v c0) as [c0' [e|]]; [discriminate|].
        destruct (convert Sprintf_v c1) as [c1' [e|]]; discriminate. }
  destruct (snd (ConvertToMongoFilter Sprintf_v p opts)); [eauto | congruence].
Qed.

(* ===================================================================== *)
(** * The logic of the last column *)
(* ===================================================================== *)

Lemma orIndexesFrom_last (columns : list Column) (x1 x2 : Column) :
  forall (l i : nat) (orIndexes : list nat),
  l = i + length columns + 1 ->
  orIndexesFrom l i (columns ++ [x1]) orIndexes
  = orIndexesFrom l i (columns ++ [x2]) orIndexes.
Proof.
  induction columns as [|c columns IH]; intros l i acc Hl; simpl app.
  - rewrite !orIndexesFrom_cons. simpl in Hl.
    replace (i =? l - 1)%nat with true by (symmetry; apply Nat.eqb_eq; lia).
    reflexivity.
  - rewrite !orIndexesFrom_cons. destruct (i =? l - 1)%nat; [reflexivity|].
    destruct (convertLogic c) as [c' [e|]]; [reflexivity|].
    apply IH. simpl in Hl. lia.
Qed.

Lemma checkSameLogic_last (columns : list Column) (x1 x2 : Column) :
  checkSameLogic (columns ++ [x1]) = checkSameLogic (columns ++ [x2]).
Proof.
  unfold checkSameLogic. rewrite !length_app. simpl length.
  now rewrite (orIndexesFrom_last columns x1 x2) by lia.
Qed.

Lemma appendUnder_alike (key : string) (c1 c2 : Column) (filter : bsonM) :
  predicate c1 = predicate c2 ->
  appendUnder key c1 filter = appendUnder key c2 filter.
Proof. intros H. unfold appendUnder. now rewrite H. Qed.

Section LastLogic.

Variable Sprintf_v : value -> string.

Lemma alike_refl (c : Column) : alike Sprintf_v c c.
Proof. repeat split. Qed.

(** The logic of a column reaches [convert]'s result through
    [convertLogic] alone: two logics that both normalise leave the same
    error, name and value. *)
Lemma alike_setLogic (c : Column) (l1 l2 : string) :
  is_Some (logicOf (setLogic c l1)) ->
  is_Some (logicOf (setLogic c l2)) ->
  alike Sprintf_v (setLogic c l1) (setLogic c l2).
Proof.
  intros [s1 H1] [s2 H2]. split; [reflexivity|]. rewrite !convert_eq.
  change (checkValid (setLogic c l1)) with (checkValid c).
  change (checkValid (setLogic c l2)) with (checkValid c).
  change (expKey (setLogic c l1)) with (expKey c).
  change (expKey (setLogic c l2)) with (expKey c).
  change (Exp (setLogic c l1)) with (Exp c).
  change (Exp (setLogic c l2)) with (Exp c).
  destruct (checkValid c); [split; reflexivity|].
  rewrite !objectIDColumn_setLogic.
  destruct (expMap !! expKey c) as [v|]; [|split; reflexivity].
  change (setExp (setLogic (objectIDColumn c) l1) v)
    with (setLogic (setExp (objectIDColumn c) v) l1).
  change (setExp (setLogic (objectIDColumn c) l2) v)
    with (setLogic (setExp (objectIDColumn c) v) l2).
  rewrite !convertValue_setLogic.
  destruct (convertValue Sprintf_v (setExp (objectIDColumn c) v)) as [c3 [e|]];
    simpl fst; simpl snd; [split; reflexivity|].
  rewrite (convertLogic_of (setLogic c3 l1) s1),
          (convertLogic_of (setLogic c3 l2) s2).
  - split; reflexivity.
  - rewrite <- H2. now apply logicOf_ext.
  - rewrite <- H1. now apply logicOf_ext.
Qed.

Lemma checkName_alike (c1 c2 : Column) (w : option (gmap string bool)) :
  alike Sprintf_v c1 c2 -> checkName c1 w = checkName c2 w.
Proof. intros (H & _ & _). unfold checkName. now rewrite H. Qed.

Lemma andColumns_alike (w : option (gmap string bool))
    (columns1 columns2 : list Column) :
  Forall2 (alike Sprintf_v) columns1 columns2 ->
  forall filter,
  andColumns Sprintf_v w columns1 filter = andColumns Sprintf_v w columns2 filter.
Proof.
  induction 1 as [|c1 c2 columns1 columns2 Hc _ IH]; intros filter;
    [reflexivity|].
  simpl. rewrite (checkName_alike c1 c2 w Hc).
  destruct (checkName c2 w); [reflexivity|].
  destruct Hc as (_ & He & Hp).
  destruct (convert Sprintf_v c1) as [c1' [e1|]],
           (convert Sprintf_v c2) as [c2' [e2|]];
    simpl in He, Hp; try discriminate; [congruence|].
  rewrite (appendUnder_alike _ c1' c2' _ Hp). apply IH.
Qed.

Lemma orColumns_alike (columns1 columns2 : list Column) :
  Forall2 (alike Sprintf_v) columns1 columns2 ->
  forall filter,
  orColumns Sprintf_v columns1 filter = orColumns Sprintf_v columns2 filter.
Proof.
  induction 1 as [|c1 c2 columns1 columns2 Hc _ IH]; intros filter;
    [reflexivity|].
  simpl. destruct Hc as (_ & He & Hp).
  destruct (convert Sprintf_v c1) as [c1' [e1|]],
           (convert Sprintf_v c2) as [c2' [e2|]];
    simpl in He, Hp; try discriminate; [congruence|].
  rewrite (appendUnder_alike _ c1' c2' _ Hp). apply IH.
Qed.

Lemma andConditionsOf_alike (columns1 columns2 : list Column)
    (indexes : list nat) :
  Forall2 (alike Sprintf_v) columns1 columns2 ->
  forall andConditions,
  andConditionsOf Sprintf_v columns1 indexes andConditions
  = andConditionsOf Sprintf_v columns2 indexes andConditions.
Proof.
  intros Hc. induction indexes as [|i indexes IH]; intros acc; [reflexivity|].
  simpl. destruct (columns1 !! i) as [c1|] eqn:E1.
  - destruct (Forall2_lookup_l _ _ _ _ _ Hc E1) as (c2 & -> & (_ & He & Hp)).
    destruct (convert Sprintf_v c1) as [c1' [e1|]],
             (convert Sprintf_v c2) as [c2' [e2|]];
      simpl in He, Hp; try discriminate; [congruence|].
    rewrite Hp. apply IH.
  - destruct (columns2 !! i) as [c2|] eqn:E2; [|reflexivity].
    destruct (Forall2_lookup_r _ _ _ _ _ Hc E2) as (c1 & E & _). congruence.
Qed.

Lemma orConditionsOf_alike (columns1 columns2 : list Column)
    (groupIndexes : list (list nat)) :
  Forall2 (alike Sprintf_v) columns1 columns2 ->
  forall orConditions,
  orConditionsOf Sprintf_v columns1 groupIndexes orConditions
  = orConditionsOf Sprintf_v columns2 groupIndexes orConditions.
Proof.
  intros Hc. induction groupIndexes as [|g groups IH]; intros acc;
    [reflexivity|].
  simpl. destruct (length g =? 1)%nat.
  - destruct (g !! 0%nat) as [i|]; [|reflexivity].
    destruct (columns1 !! i) as [c1|] eqn:E1.
    + destruct (Forall2_lookup_l _ _ _ _ _ Hc E1) as (c2 & -> & (_ & He & Hp)).
      destruct (convert Sprintf_v c1) as [c1' [e1|]],
               (convert Sprintf_v c2) as [c2' [e2|]];
        simpl in He, Hp; try discriminate; [congruence|].
      rewrite Hp. apply IH.
    + destruct (columns2 !! i) as [c2|] eqn:E2; [|reflexivity].
      destruct (Forall2_lookup_r _ _ _ _ _ Hc E2) as (c1 & E & _). congruence.
  - rewrite (andConditionsOf_alike columns1 columns2 g Hc).
    destruct (andConditionsOf Sprintf_v columns2 g []); [reflexivity|apply IH].
Qed.

Lemma alike_last (columns : list Column) (x1 x2 : Column) :
  alike Sprintf_v x1 x2 ->
  Forall2 (alike Sprintf_v) (columns ++ [x1]) (columns ++ [x2]).
Proof.
  intros H. apply Forall2_app; [|constructor; [exact H | constructor]].
  induction columns as [|a columns IH];
    [constructor | constructor; [apply alike_refl | exact IH]].
Qed.

End LastLogic.

(** Two lists that differ in their last column only, by two columns that
    a builder cannot tell apart, give the same filter and the same error. *)
Lemma last_column_alike (Sprintf_v : value -> string)
    (p : Params) (opts : list RulerOption)
    (columns : list Column) (x1 x2 : Column) :
  validateFn (optionsOf opts) = None ->
  alike Sprintf_v x1 x2 ->
  snd (ConvertToMongoFilter Sprintf_v (setColumns p (columns ++ [x1])) opts)
  = snd (ConvertToMongoFilter Sprintf_v (setColumns p (columns ++ [x2])) opts).
Proof.
  intros Hv Hc.
  assert (Hval : forall q, validation (optionsOf opts) q = None)
    by (intros q; unfold validation; now rewrite Hv).
  destruct (le_lt_dec 2 (length columns)) as [Hlen | Hlen].
  - (* three columns or more *)
    rewrite !ConvertToMongoFilter_multi, !Hval
      by (simpl; rewrite length_app; simpl; lia).
    simpl snd. unfold convertMultiColumns. simpl Columns.
    pose proof (alike_last Sprintf_v columns x1 x2 Hc) as Hall.
    rewrite (checkSameLogic_last columns x1 x2).
    destruct (checkSameLogic _) as [[logicType groups] [e|]]; [reflexivity|].
    destruct (logicType =? allLogicAnd)%nat; [now apply andColumns_alike|].
    destruct (logicType =? allLogicOr)%nat; [now apply orColumns_alike|].
    now apply orConditionsOf_alike.
  - destruct columns as [|c0 [|c1 columns]]; simpl in Hlen; try lia.
    + (* one column *)
      simpl app.
      rewrite (ConvertToMongoFilter_one _ (setColumns p [x1]) _ x1 eq_refl),
              (ConvertToMongoFilter_one _ (setColumns p [x2]) _ x2 eq_refl),
              !Hval.
      rewrite (checkName_alike _ x1 x2 _ Hc).
      destruct (checkName x2 _); [reflexivity|].
      destruct Hc as (_ & He & Hp).
      destruct (convert Sprintf_v x1) as [x1' [e1|]],
               (convert Sprintf_v x2) as [x2' [e2|]];
        simpl in He, Hp |- *; try discriminate; congruence.
    + (* two columns *)
      simpl app.
      rewrite (ConvertToMongoFilter_two _ (setColumns p [c0; x1]) _ c0 x1 eq_refl),
              (ConvertToMongoFilter_two _ (setColumns p [c0; x2]) _ c0 x2 eq_refl),
              !Hval.
      cbv zeta. destruct (checkName c0 _); [reflexivity|].
      rewrite (checkName_alike _ x1 x2 _ Hc).
      destruct (checkName x2 _); [reflexivity|].
      destruct (convert Sprintf_v c0) as [c0' [e0|]]; [reflexivity|].
      destruct Hc as (_ & He & Hp).
      destruct (convert Sprintf_v x1) as [x1' [e1|]],
               (convert Sprintf_v x2) as [x2' [e2|]];
        simpl in He, Hp |- *; try discriminate; congruence.
Qed.

(** X2. The logic of the last column, when it is known: without a
    validation function, two lists that differ only in the logic of the
    last column, a token that is known (or empty) in both, give the same
    filter and the same error. *)
Theorem last_logic_known (Sprintf_v : value -> string)
    (p : Params) (opts : list RulerOption)
    (columns : list Column) (c : Column) (l1 l2 : string) :
  validateFn (optionsOf opts) = None ->
  is_Some (logicOf (setLogic c l1)) ->
  is_Some (logicOf (setLogic c l2)) ->
  snd (ConvertToMongoFilter Sprintf_v
         (setColumns p (columns ++ [setLogic c l1])) opts)
  = snd (ConvertToMongoFilter Sprintf_v
           (setColumns p (columns ++ [setLogic c l2])) opts).
Proof.
  intros Hv H1 H2. apply last_column_alike; [exact Hv|].
  now apply alike_setLogic.
Qed.

(* ===================================================================== *)
(** * What a conversion leaves *)
(* ===================================================================== *)

Lemma expMap_symbols (k v : string) :
  expMap !! k = Some v ->
  v ∈ [eqSymbol; neqSymbol; gtSymbol; gteSymbol; ltSymbol; lteSymbol;
       Like; In; NotIn].
Proof.
  intros H. apply elem_of_list_to_map_2 in H.
  repeat (apply elem_of_cons in H as [H | H];
          [injection H as _ <-; repeat constructor |]).
  now apply elem_of_nil in H.
Qed.

Lemma expMap_fixed (k v : string) :
  expMap !! k = Some v -> expMap !! ToLower v = Some v.
Proof.
  intros H. apply expMap_symbols in H.
  repeat (apply elem_of_cons in H as [-> | H]; [reflexivity |]).
  now apply elem_of_nil in H.
Qed.

Lemma logicMap_fixed (k v : string) :
  logicMap !! k = Some v -> logicMap !! ToLower v = Some v.
Proof. intros H. now destruct (logicMap_values _ _ H) as [-> | ->]. Qed.

Lemma setLogic_same (c : Column) : setLogic c (Logic c) = c.
Proof. now destruct c. Qed.

Lemma setExp_same (c : Column) : setExp c (Exp c) = c.
Proof. now destruct c. Qed.

Lemma convertLogic_fields (c c' : Column) (e : option error) :
  convertLogic c = (c', e) ->
  Name c' = Name c /\ Exp c' = Exp c /\ Value c' = Value c.
Proof.
  rewrite convertLogic_eq. destruct (logicMap !! logicKey c);
    intros H; injection H as <- _; auto.
Qed.

Lemma objectIDColumn_Value (c : Column) :
  Value (objectIDColumn c) =
  match isObjectID (Value c) with
  | Some oid => VObjectID oid
  | None => Value c
  end.
Proof.
  unfold objectIDColumn. destruct (isObjectID (Value c)); [|reflexivity].
  cbv zeta. simpl Name. destruct (String.eqb (Name c) "id"); [reflexivity|].
  destruct (HasSuffix _ _); reflexivity.
Qed.

Lemma objectIDColumn_plain (c : Column) :
  isObjectID (Value (objectIDColumn c)) = None.
Proof.
  rewrite objectIDColumn_Value.
  destruct (isObjectID (Value c)) eqn:E; [reflexivity | exact E].
Qed.

Lemma objectIDColumn_id (c : Column) :
  isObjectID (Value c) = None -> objectIDColumn c = c.
Proof. intros H. unfold objectIDColumn. now rewrite H. Qed.

Lemma checkValid_ok (c : Column) :
  checkValid c = None <-> Name c <> "" /\ Value c <> VNil.
Proof.
  unfold checkValid. destruct (String.eqb (Name c) "") eqn:E.
  - apply String.eqb_eq in E. split; [discriminate | intros [H _]; now contradiction H].
  - apply String.eqb_neq in E.
    destruct (Value c); split; try discriminate; auto;
      intros [_ H]; now contradiction H.
Qed.

Section ConversionFacts.

Variable Sprintf_v : value -> string.

(** The steps behind a conversion that succeeds. *)
Lemma convert_ok_steps (c c' : Column) :
  convert Sprintf_v c = (c', None) ->
  exists v c3,
    checkValid c = None /\
    expMap !! expKey c = Some v /\
    convertValue Sprintf_v (setExp (objectIDColumn c) v) = (c3, None) /\
    convertLogic c3 = (c', None).
Proof.
  rewrite convert_eq. destruct (checkValid c); [discriminate|].
  destruct (expMap !! expKey c) as [v|]; [|discriminate].
  destruct (convertValue _ _) as [c3 [e|]] eqn:Hv; [discriminate|].
  intros H. exists v, c3. auto.
Qed.

Lemma convertValue_comparison (c : Column) (sym key : string) :
  (sym, key) ∈ [ (neqSymbol, "$ne"); (gtSymbol, "$gt"); (gteSymbol, "$gte");
                 (ltSymbol, "$lt"); (lteSymbol, "$lte") ] ->
  Exp c = sym ->
  convertValue Sprintf_v c = (setValue c (VM {[ key := Value c ]}), None).
Proof.
  intros Hin H. unfold convertValue. rewrite H.
  repeat (apply elem_of_cons in Hin as [Hin | Hin];
          [injection Hin as -> ->; reflexivity |]).
  now apply elem_of_nil in Hin.
Qed.

Lemma convertValue_Like (c : Column) :
  Exp c = Like ->
  convertValue Sprintf_v c =
  (setValue c (VM (<[ "$regex" := VString (QuoteMeta (Sprintf_v (Value c))) ]>
                    {[ "$options" := VString "i" ]})), None).
Proof. intros H. unfold convertValue. rewrite H. reflexivity. Qed.

(** The value that a conversion leaves is a document, except under [=],
    where it is the value that came in or its identifier. *)
Lemma convert_ok_value (c c' : Column) :
  convert Sprintf_v c = (c', None) ->
  Name c' = Name (objectIDColumn c) /\
  expMap !! expKey c = Some (Exp c') /\
  ((Exp c' = eqSymbol /\ Value c' = Value (objectIDColumn c)) \/
   (Exp c' <> eqSymbol /\ exists m, Value c' = VM m)).
Proof.
  intros H. destruct (convert_ok_steps _ _ H) as (v & c3 & Hc & Hv & H3 & Hl).
  apply convertLogic_fields in Hl as (Hn & He & Hval).
  pose proof (convertValue_fields _ _ _ _ H3) as (Hn3 & He3 & _).
  simpl in Hn3, He3. rewrite Hn, He, Hval, Hn3, He3.
  split; [reflexivity|]. split; [exact Hv|].
  pose proof (expMap_symbols _ _ Hv) as Hs.
  apply elem_of_cons in Hs as [-> | Hs].
  { left. rewrite convertValue_eqSymbol in H3 by reflexivity.
    injection H3 as <-. auto. }
  right.
  repeat (apply elem_of_cons in Hs as [-> | Hs];
    [first
       [ erewrite convertValue_comparison in H3
           by (first [reflexivity | repeat constructor]);
         injection H3 as <-; split; [discriminate | eexists; reflexivity]
       | rewrite convertValue_Like in H3 by reflexivity;
         injection H3 as <-; split; [discriminate | eexists; reflexivity]
       | rewrite (convertValue_set _ _ (Exp (setExp (objectIDColumn c) _))) in H3
           by (first [reflexivity | repeat constructor]);
         destruct (Value (setExp (objectIDColumn c) _)); try discriminate;
         injection H3 as <-; split; [discriminate | eexists; reflexivity] ] |]).
  now apply elem_of_nil in Hs.
Qed.

End ConversionFacts.

Lemma convertLogic_again (a a' : Column) :
  convertLogic a = (a', None) ->
  logicMap !! ToLower (Logic a') = Some (Logic a') /\
  convertLogic a' = (a', None).
Proof.
  intros H. apply convertLogic_ok in H as [_ H].
  rewrite logicOf_eq in H. pose proof (logicMap_fixed _ _ H) as Hf.
  split; [exact Hf|].
  assert (Hne : Logic a' <> "")
    by (destruct (logicMap_values _ _ H) as [-> | ->]; discriminate).
  rewrite convertLogic_eq. unfold logicKey.
  apply String.eqb_neq in Hne. rewrite Hne, Hf. now rewrite setLogic_same.
Qed.

Lemma converted_tokens (Sprintf_v : value -> string) (c c' : Column) :
  convert Sprintf_v c = (c', None) ->
  expMap !! ToLower (Exp c') = Some (Exp c') /\
  convertLogic c' = (c', None).
Proof.
  intros H. destruct (convert_ok_value _ _ _ H) as (_ & He & _).
  destruct (convert_ok_steps _ _ _ H) as (_ & c3 & _ & _ & _ & H3).
  apply convertLogic_again in H3 as [_ H2]. split; [|exact H2].
  now apply expMap_fixed in He.
Qed.

(** X3. A normalised token is normalised to itself: a column that
    [convertLogic] accepts is left unchanged by a second [convertLogic],
    and the operator and the logic that a successful [convert] leaves are
    keys that the tables map, in lower case, to themselves. *)
Theorem normalisation_stable (Sprintf_v : value -> string) (c c' : Column) :
  (convertLogic c = (c', None) -> convertLogic c' = (c', None)) /\
  (convert Sprintf_v c = (c', None) ->
   expMap !! ToLower (Exp c') = Some (Exp c') /\
   logicMap !! ToLower (Logic c') = Some (Logic c') /\
   convertLogic c' = (c', None)).
Proof.
  split.
  - intros H. now apply convertLogic_again in H.
  - intros H. destruct (converted_tokens _ _ _ H) as [He Hl].
    destruct (convert_ok_steps _ _ _ H) as (_ & c3 & _ & _ & _ & H3).
    apply convertLogic_again in H3 as [H1 _]. auto.
Qed.

(** X4. A column is converted once. After a conversion that succeeds, a
    second conversion of the column left is refused, with the error of an
    empty name and the column unchanged, when the first conversion left no
    name; on a column with a name it changes nothing under [=], wraps the
    value a second time under a comparison and escapes the text of the
    document under [like]; and it is refused under [in] and [nin], whose
    value is no string any more. *)
Theorem second_conversion (Sprintf_v : value -> string) (c c' : Column) :
  convert Sprintf_v c = (c', None) ->
  (Exp c' = eqSymbol -> Name c' <> "" -> convert Sprintf_v c' = (c', None)) /\
  (forall sym key,
     (sym, key) ∈ [ (neqSymbol, "$ne"); (gtSymbol, "$gt"); (gteSymbol, "$gte");
                    (ltSymbol, "$lt"); (lteSymbol, "$lte") ] ->
     Exp c' = sym -> Name c' <> "" ->
     convert Sprintf_v c'
     = (setValue c' (VM {[ key := VM {[ key := Value (objectIDColumn c) ]} ]}),
        None)) /\
  (Exp c' ∈ [In; NotIn] -> snd (convert Sprintf_v c') <> None) /\
  (Name c' = "" -> convert Sprintf_v c' = (c', Some ErrNameEmpty)) /\
  (Exp c' = Like -> Name c' <> "" ->
   convert Sprintf_v c'
   = (setValue c'
        (VM (<[ "$regex" := VString (QuoteMeta (Sprintf_v (Value c'))) ]>
               {[ "$options" := VString "i" ]})), None)).
Proof.
  intros H.
  destruct (convert_ok_value _ _ _ H) as (Hn & He & Hval).
  destruct (converted_tokens Sprintf_v c c' H) as (Hfix & Hlog).
  destruct (convert_ok_steps _ _ _ H) as (v & c3 & Hc & Hv & H3 & Hl).
  apply checkValid_ok in Hc as [_ Hnil].
  assert (Hkey : expKey c' = ToLower (Exp c')).
  { apply expKey_nonempty. intros E. rewrite E in Hfix. discriminate. }
  split; [|split; [|split; [|split]]].
  - intros Heq Hname. destruct Hval as [[_ Hv'] | [Hne _]]; [|now contradiction Hne].
    rewrite convert_eq.
    assert (Hok : checkValid c' = None).
    { apply checkValid_ok. split; [exact Hname|]. rewrite Hv', objectIDColumn_Value.
      destruct (isObjectID (Value c)); [discriminate | exact Hnil]. }
    rewrite Hok, Hkey, Hfix.
    rewrite (objectIDColumn_id c') by (rewrite Hv'; apply objectIDColumn_plain).
    rewrite setExp_same, convertValue_eqSymbol by exact Heq. exact Hlog.
  - intros sym key Hin Hsym Hname.
    destruct Hval as [[Heq _] | [_ [m Hm]]].
    { exfalso. rewrite Heq in Hsym. subst sym.
      repeat (apply elem_of_cons in Hin as [Hin | Hin]; [discriminate |]).
      now apply elem_of_nil in Hin. }
    assert (Hm' : m = {[ key := Value (objectIDColumn c) ]}).
    { apply convertLogic_fields in Hl as (_ & Hle & Hlv).
      pose proof (convertValue_fields _ _ _ _ H3) as (_ & He3 & _).
      simpl in He3.
      rewrite (convertValue_comparison _ _ sym key Hin) in H3
        by (simpl; rewrite <- He3, <- Hle; exact Hsym).
      injection H3 as <-. simpl in Hlv. rewrite Hm in Hlv. now injection Hlv. }
    rewrite convert_eq.
    assert (Hok : checkValid c' = None)
      by (apply checkValid_ok; split; [exact Hname | rewrite Hm; discriminate]).
    rewrite Hok, Hkey, Hfix.
    rewrite (objectIDColumn_id c') by (now rewrite Hm).
    rewrite setExp_same, (convertValue_comparison _ _ sym key Hin Hsym), Hm, Hm'.
    rewrite convertLogic_eq in Hlog |- *.
    change (logicKey (setValue c' _)) with (logicKey c').
    destruct (logicMap !! logicKey c') as [l|]; [|discriminate].
    injection Hlog as Hlog. rewrite <- Hlog at 2. now destruct c'.
  - intros Hin Hnone.
    destruct Hval as [[Heq _] | [_ [m Hm]]].
    { rewrite Heq in Hin.
      repeat (apply elem_of_cons in Hin as [Hin | Hin]; [discriminate |]).
      now apply elem_of_nil in Hin. }
    rewrite convert_eq in Hnone.
    destruct (checkValid c'); [discriminate|].
    rewrite Hkey, Hfix in Hnone.
    rewrite (objectIDColumn_id c') in Hnone by (now rewrite Hm).
    rewrite setExp_same, (convertValue_set _ _ (Exp c') eq_refl Hin), Hm in Hnone.
    discriminate.
  - intros Hname. rewrite convert_eq. unfold checkValid. now rewrite Hname.
  - intros Hlike Hname.
    destruct Hval as [[Heq _] | [_ [m Hm]]]; [rewrite Heq in Hlike; discriminate|].
    rewrite convert_eq.
    assert (Hok : checkValid c' = None)
      by (apply checkValid_ok; split; [exact Hname | rewrite Hm; discriminate]).
    rewrite Hok, Hkey, Hfix.
    rewrite (objectIDColumn_id c') by (now rewrite Hm).
    rewrite setExp_same, (convertValue_Like _ _ Hlike).
    rewrite convertLogic_eq in Hlog |- *.
    change (logicKey (setValue c' _)) with (logicKey c').
    destruct (logicMap !! logicKey c') as [l|]; [|discriminate].
    injection Hlog as Hlog. apply (f_equal Logic) in Hlog. simpl in Hlog.
    rewrite Hlog. now destruct c'.
Qed.

Lemma substring_0_empty (n : nat) (s : string) :
  substring 0 n s = "" -> n = 0 \/ s = "".
Proof. destruct n, s; simpl; auto; discriminate. Qed.

Lemma TrimSuffix_empty (s suffix : string) :
  TrimSuffix s suffix = "" -> s <> "" -> s = suffix.
Proof.
  unfold TrimSuffix. destruct (HasSuffix s suffix) eqn:E; [|congruence].
  intros H Hne. unfold HasSuffix in E. apply andb_true_iff in E as [El Es].
  apply Nat.leb_le in El. apply String.eqb_eq in Es.
  apply substring_0_empty in H as [H | H]; [|congruence].
  rewrite H in Es. replace (String.length suffix) with (String.length s) in Es by lia.
  now rewrite substring_all in Es.
Qed.

(** X5. The column that a successful [convert] leaves: its operator is one
    of the nine symbols, its logic is [&] or [|], its value is not nil and
    is no string that would be read as an identifier; and its name is
    empty in one case only, that of the name [:oid] on a value that is an
    identifier. *)
Theorem converted_column (Sprintf_v : value -> string) (c c' : Column) :
  convert Sprintf_v c = (c', None) ->
  Exp c' ∈ [eqSymbol; neqSymbol; gtSymbol; gteSymbol; ltSymbol; lteSymbol;
            Like; In; NotIn] /\
  Logic c' ∈ [andSymbol1; orSymbol1] /\
  Value c' <> VNil /\
  isObjectID (Value c') = None /\
  (Name c' = "" <-> Name c = ":oid" /\ is_Some (isObjectID (Value c))).
Proof.
  intros H.
  destruct (convert_ok_value _ _ _ H) as (Hn & He & Hval).
  destruct (convert_ok_steps _ _ _ H) as (v & c3 & Hc & _ & _ & Hl).
  apply checkValid_ok in Hc as [Hname Hnil].
  split; [now apply expMap_symbols in He|].
  split.
  { apply convertLogic_ok in Hl as [_ Hl].
    destruct (logicOf_values _ _ Hl) as [-> | ->]; repeat constructor. }
  split; [|split].
  - destruct Hval as [[_ ->] | [_ [m ->]]]; [|discriminate].
    rewrite objectIDColumn_Value.
    destruct (isObjectID (Value c)); [discriminate | exact Hnil].
  - destruct Hval as [[_ ->] | [_ [m ->]]]; [|reflexivity].
    apply objectIDColumn_plain.
  - rewrite Hn. destruct (isObjectID (Value c)) as [oid|] eqn:E.
    + rewrite (objectIDColumn_some c oid E). simpl Name.
      destruct (String.eqb (Name c) "id") eqn:Eid.
      * apply String.eqb_eq in Eid. rewrite Eid.
        split; [discriminate | intros [? _]; discriminate].
      * split.
        -- intros Ht. split; [|eauto]. now apply TrimSuffix_empty.
        -- intros [-> _]. reflexivity.
    + rewrite (objectIDColumn_id c E).
      split; [intros Hx; now contradiction Hname | intros [_ [x Hx]]; discriminate].
Qed.

(* ===================================================================== *)
(** * When a call succeeds, and what it returns *)
(* ===================================================================== *)

Lemma orIndexesFrom_total (columns : list Column) :
  forall (l i : nat) (orIndexes : list nat),
  Forall (fun c => is_Some (logicOf c)) columns ->
  exists found, orIndexesFrom l i columns orIndexes = inl found.
Proof.
  induction columns as [|c columns IH]; intros l i acc Hall; [simpl; eauto|].
  rewrite orIndexesFrom_cons. destruct (i =? l - 1)%nat; [eauto|].
  apply Forall_cons in Hall as [[sym Hc] Hall].
  rewrite (convertLogic_of _ _ Hc). now apply IH.
Qed.

Lemma checkSameLogic_total (columns : list Column) :
  Forall (fun c => is_Some (logicOf c)) columns ->
  snd (checkSameLogic columns) = None.
Proof.
  intros H. unfold checkSameLogic.
  destruct (orIndexesFrom_total columns (length columns) 0 [] H) as [r ->].
  destruct (length r =? 0)%nat; [reflexivity|].
  destruct (length r =? length columns - 1)%nat; reflexivity.
Qed.

Lemma orIndexesFrom_length (columns : list Column) :
  forall (l i : nat) (orIndexes found : list nat),
  l = i + length columns ->
  orIndexesFrom l i columns orIndexes = inl found ->
  length orIndexes <= length found <= length orIndexes + (length columns - 1).
Proof.
  induction columns as [|c columns IH]; intros l i acc found Hl H.
  - simpl in H. injection H as <-. lia.
  - rewrite orIndexesFrom_cons in H.
    destruct (i =? l - 1)%nat eqn:E; [injection H as <-; lia|].
    apply Nat.eqb_neq in E. simpl in Hl.
    destruct (convertLogic c) as [c' [e|]]; [discriminate|].
    apply IH in H; [|lia].
    destruct (String.eqb (Logic c') orSymbol1); [rewrite length_app in H|];
      simpl in H |- *; lia.
Qed.

Lemma groupingFrom_length (orIndexes : list nat) :
  forall (groupIndexes : list (list nat)) (lastIndex : nat),
  length (fst (groupingFrom orIndexes groupIndexes lastIndex))
  = length groupIndexes + length orIndexes.
Proof.
  induction orIndexes as [|index orIndexes IH]; intros groups lastIndex; simpl;
    [lia|].
  rewrite IH, length_app. simpl. lia.
Qed.

Lemma groupingIndex_length (l : nat) (orIndexes : list nat) :
  length (groupingIndex l orIndexes) = length orIndexes + 1.
Proof.
  unfold groupingIndex.
  pose proof (groupingFrom_length orIndexes [] 0) as H.
  destruct (groupingFrom orIndexes [] 0) as [groups lastIndex].
  simpl in H. rewrite length_app, H. reflexivity.
Qed.

(** What [checkSameLogic] reports, by cases. *)
Lemma checkSameLogic_cases (columns : list Column) :
  (exists err, checkSameLogic columns = (0, [], Some err)) \/
  checkSameLogic columns = (allLogicAnd, [], None) \/
  checkSameLogic columns = (allLogicOr, [], None) \/
  (exists groupIndexes,
     checkSameLogic columns = (0, groupIndexes, None) /\
     2 <= length groupIndexes <= length columns).
Proof.
  unfold checkSameLogic.
  destruct (orIndexesFrom _ _ _ _) as [found | err] eqn:E; [|eauto].
  apply orIndexesFrom_length in E; [|reflexivity]. simpl in E.
  destruct (length found =? 0)%nat eqn:E0; [auto|].
  destruct (length found =? length columns - 1)%nat eqn:E1; [auto|].
  apply Nat.eqb_neq in E0, E1.
  right; right; right. eexists. split; [reflexivity|].
  rewrite groupingIndex_length. lia.
Qed.

Section SuccessFacts.

Variable Sprintf_v : value -> string.

Lemma andColumns_success (w : option (gmap string bool))
    (columns : list Column) :
  forall filter,
  (exists f, andColumns Sprintf_v w columns filter = Return (Some f) None)
  <-> Forall (accepted Sprintf_v w) columns.
Proof.
  induction columns as [|c columns IH]; intros filter; simpl.
  - split; [constructor | eauto].
  - unfold accepted at 1. rewrite Forall_cons.
    destruct (checkName c w).
    { split; [intros [f H]; discriminate | intros [[H _] _]; discriminate]. }
    destruct (convert Sprintf_v c) as [c' [e|]]; simpl.
    { split; [intros [f H]; discriminate | intros [[_ H] _]; discriminate]. }
    rewrite IH. tauto.
Qed.

Lemma orColumns_success (columns : list Column) :
  forall filter,
  (exists f, orColumns Sprintf_v columns filter = Return (Some f) None)
  <-> Forall (fun c => snd (convert Sprintf_v c) = None) columns.
Proof.
  induction columns as [|c columns IH]; intros filter; simpl.
  - split; [constructor | eauto].
  - rewrite Forall_cons.
    destruct (convert Sprintf_v c) as [c' [e|]]; simpl.
    { split; [intros [f H]; discriminate | intros [H _]; discriminate]. }
    rewrite IH. tauto.
Qed.

Lemma andConditionsOf_success (columns : list Column) (indexes : list nat) :
  Forall (fun c => snd (convert Sprintf_v c) = None) columns ->
  Forall (fun i => i < length columns) indexes ->
  forall andConditions,
  exists conds,
    andConditionsOf Sprintf_v columns indexes andConditions = inr conds.
Proof.
  intros Hc. induction indexes as [|i indexes IH]; intros Hi acc; simpl; [eauto|].
  apply Forall_cons in Hi as [Hi Hrest].
  destruct (lookup_lt_is_Some_2 columns i Hi) as [c E]. rewrite E.
  rewrite Forall_lookup in Hc. specialize (Hc i c E).
  destruct (convert Sprintf_v c) as [c' [e|]]; [discriminate|]. now apply IH.
Qed.

Lemma orConditionsOf_success (columns : list Column)
    (groupIndexes : list (list nat)) :
  Forall (fun c => snd (convert Sprintf_v c) = None) columns ->
  Forall (Forall (fun i => i < length columns)) groupIndexes ->
  forall orConditions,
  exists f,
    orConditionsOf Sprintf_v columns groupIndexes orConditions
    = Return (Some f) None.
Proof.
  intros Hc. induction groupIndexes as [|g groups IH]; intros Hg acc; simpl;
    [eauto|].
  apply Forall_cons in Hg as [Hg Hrest].
  destruct (length g =? 1)%nat eqn:E.
  - destruct g as [|i [|j g]]; try discriminate. simpl.
    apply Forall_cons in Hg as [Hi _].
    destruct (lookup_lt_is_Some_2 columns i Hi) as [c Ec]. rewrite Ec.
    pose proof Hc as Hc'. rewrite Forall_lookup in Hc'. specialize (Hc' i c Ec).
    destruct (convert Sprintf_v c) as [c' [e|]]; [discriminate|]. now apply IH.
  - destruct (andConditionsOf_success columns g Hc Hg []) as [conds ->].
    now apply IH.
Qed.

Lemma andConditionsOf_inl (columns : list Column) (indexes : list nat) :
  forall andConditions o,
  andConditionsOf Sprintf_v columns indexes andConditions = inl o ->
  o = Panic \/ exists e, o = Return None (Some e).
Proof.
  induction indexes as [|i indexes IH]; intros acc o; simpl; [discriminate|].
  destruct (columns !! i) as [c|]; [|intros H; injection H as <-; auto].
  destruct (convert Sprintf_v c) as [c' [e|]]; [|apply IH].
  intros H. injection H as <-. eauto.
Qed.

(** The filter of the mixed branch: one group [$or] with a condition for
    each group of indexes. *)
Lemma orConditionsOf_shape (columns : list Column)
    (groupIndexes : list (list nat)) :
  forall orConditions f,
  orConditionsOf Sprintf_v columns groupIndexes orConditions
  = Return (Some f) None ->
  exists conds,
    f = {[ "$or" := VMs conds ]} /\
    length conds = length orConditions + length groupIndexes.
Proof.
  induction groupIndexes as [|g groups IH]; intros acc f; simpl.
  - intros H. injection H as <-. exists acc. rewrite insert_empty. split; [reflexivity | lia].
  - destruct (length g =? 1)%nat.
    + destruct (g !! 0%nat) as [i|]; [|discriminate].
      destruct (columns !! i) as [c|]; [|discriminate].
      destruct (convert Sprintf_v c) as [c' [e|]]; [discriminate|].
      intros H. apply IH in H as (conds & -> & Hl). exists conds.
      rewrite length_app in Hl. simpl in Hl. split; [reflexivity | lia].
    + destruct (andConditionsOf Sprintf_v columns g []) as [o | ac] eqn:Ea.
      * intros ->. exfalso.
        destruct (andConditionsOf_inl _ _ _ _ Ea) as [? | [e ?]]; discriminate.
      * intros H. apply IH in H as (conds & -> & Hl). exists conds.
        rewrite length_app in Hl. simpl in Hl. split; [reflexivity | lia].
Qed.

End SuccessFacts.

Lemma accepted_logic (Sprintf_v : value -> string)
    (w : option (gmap string bool)) (columns : list Column) :
  Forall (fun c => snd (convert Sprintf_v c) = None) columns ->
  Forall (fun c => is_Some (logicOf c)) columns.
Proof.
  intros Hall. eapply Forall_impl; [exact Hall|]. intros c H. simpl in H.
  destruct (convert Sprintf_v c) as [c' [e|]] eqn:E; [discriminate|].
  apply convert_ok_logic in E. eauto.
Qed.

Lemma accepted_convert (Sprintf_v : value -> string)
    (w : option (gmap string bool)) (columns : list Column) :
  Forall (accepted Sprintf_v w) columns ->
  Forall (fun c => snd (convert Sprintf_v c) = None) columns.
Proof. intros Hall. eapply Forall_impl; [exact Hall|]. now intros c [_ H]. Qed.

(** X6. The filter of a call that succeeds has one key at most: none for
    no column, the name of the converted column for one column, and from
    two columns on either [$and] or [$or], over a list of at least two
    conditions and at most as many as there are columns. *)
Theorem filter_shape (Sprintf_v : value -> string)
    (p : Params) (opts : list RulerOption) (f : bsonM) :
  snd (ConvertToMongoFilter Sprintf_v p opts) = Return (Some f) None ->
  (Columns p = [] -> f = ∅) /\
  (forall c0, Columns p = [c0] -> f = normalized Sprintf_v c0) /\
  (2 <= length (Columns p) ->
   exists key conds,
     key ∈ ["$and"; "$or"] /\
     f = {[ key := VMs conds ]} /\
     2 <= length conds <= length (Columns p)).
Proof.
  intros Hres. split; [|split].
  - intros Hcols. rewrite (ConvertToMongoFilter_none _ _ _ Hcols) in Hres.
    destruct (validation _ _); [discriminate|]. now injection Hres as <-.
  - intros c0 Hcols. rewrite (ConvertToMongoFilter_one _ _ _ c0 Hcols) in Hres.
    destruct (validation _ _); [discriminate|].
    destruct (checkName c0 _); [discriminate|]. unfold normalized.
    destruct (convert Sprintf_v c0) as [c0' [e|]]; [discriminate|].
    now injection Hres as <-.
  - intros Hlen.
    destruct (Nat.eq_dec (length (Columns p)) 2) as [H2 | H2].
    + destruct (length_two _ H2) as (c0 & c1 & Hcols).
      rewrite (ConvertToMongoFilter_two _ _ _ c0 c1 Hcols) in Hres.
      cbv zeta in Hres.
      destruct (validation _ _); [discriminate|].
      destruct (checkName c0 _); [discriminate|].
      destruct (checkName c1 _); [discriminate|].
      destruct (convert Sprintf_v c0) as [c0' [e|]]; [discriminate|].
      destruct (convert Sprintf_v c1) as [c1' [e|]]; [discriminate|].
      injection Hres as <-. rewrite H2.
      exists (if String.eqb (Logic c0') andSymbol1 then "$and" else "$or"),
             [predicate c0'; predicate c1'].
      split; [|split; [reflexivity | simpl; lia]].
      destruct (String.eqb (Logic c0') andSymbol1); repeat constructor.
    + rewrite ConvertToMongoFilter_multi in Hres by lia.
      destruct (validation _ _); [discriminate|]. simpl snd in Hres.
      assert (Hne : Columns p <> [])
        by (intros E; rewrite E in Hlen; simpl in Hlen; lia).
      destruct (checkSameLogic_cases (Columns p))
        as [[err Hs] | [Hs | [Hs | (groups & Hs & Hg)]]].
      * unfold convertMultiColumns in Hres. rewrite Hs in Hres. discriminate.
      * rewrite (convertMultiColumns_and _ _ _ Hs) in Hres.
        apply andColumns_ok in Hres; [|exact Hne].
        exists "$and", (map (normalized Sprintf_v) (Columns p)).
        split; [repeat constructor|]. split; [exact Hres|].
        rewrite length_map. lia.
      * rewrite (convertMultiColumns_or _ _ _ Hs) in Hres.
        apply orColumns_ok in Hres; [|exact Hne].
        exists "$or", (map (normalized Sprintf_v) (Columns p)).
        split; [repeat constructor|]. split; [exact Hres|].
        rewrite length_map. lia.
      * unfold convertMultiColumns in Hres. rewrite Hs in Hres. simpl in Hres.
        apply orConditionsOf_shape in Hres as (conds & -> & Hl).
        exists "$or", conds. split; [repeat constructor|].
        split; [reflexivity|]. simpl in Hl. lia.
Qed.

Section Acceptance.

Variable Sprintf_v : value -> string.

(** On two columns at most, the calls that succeed are those whose every
    column is accepted. *)
Lemma short_list_success (p : Params) (opts : list RulerOption) :
  validation (optionsOf opts) p = None ->
  length (Columns p) <= 2 ->
  (exists f, snd (ConvertToMongoFilter Sprintf_v p opts) = Return (Some f) None)
  <-> Forall (accepted Sprintf_v (whitelistNames (optionsOf opts))) (Columns p).
Proof.
  intros Hv Hlen. set (w := whitelistNames (optionsOf opts)).
  destruct (Columns p) as [|c0 [|c1 [|c2 rest]]] eqn:Hcols;
    simpl in Hlen; try lia.
  - rewrite (ConvertToMongoFilter_none _ _ _ Hcols), Hv.
    split; [constructor | eauto].
  - rewrite (ConvertToMongoFilter_one _ _ _ c0 Hcols), Hv.
    fold w. rewrite Forall_cons. unfold accepted.
    destruct (checkName c0 w).
    { split; [intros [f H]; discriminate | intros [[H _] _]; discriminate]. }
    destruct (convert Sprintf_v c0) as [c0' [e|]]; simpl.
    { split; [intros [f H]; discriminate | intros [[_ H] _]; discriminate]. }
    split; [repeat constructor; reflexivity | eauto].
  - rewrite (ConvertToMongoFilter_two _ _ _ c0 c1 Hcols), Hv. cbv zeta.
    fold w. rewrite !Forall_cons. unfold accepted.
    destruct (checkName c0 w).
    { split; [intros [f H]; discriminate | intros [[H _] _]; discriminate]. }
    destruct (checkName c1 w).
    { split; [intros [f H]; discriminate | intros (_ & [H _] & _); discriminate]. }
    destruct (convert Sprintf_v c0) as [c0' [e|]]; simpl.
    { split; [intros [f H]; discriminate | intros [[_ H] _]; discriminate]. }
    destruct (convert Sprintf_v c1) as [c1' [e|]]; simpl.
    { split; [intros [f H]; discriminate | intros (_ & [_ H] & _); discriminate]. }
    split; [repeat constructor; reflexivity | eauto].
Qed.

(** Columns that are all accepted make the call succeed, whatever the
    logic. *)
Lemma accepted_columns_succeed (p : Params) (opts : list RulerOption) :
  validation (optionsOf opts) p = None ->
  Forall (accepted Sprintf_v (whitelistNames (optionsOf opts))) (Columns p) ->
  exists f, snd (ConvertToMongoFilter Sprintf_v p opts) = Return (Some f) None.
Proof.
  intros Hv Hall. set (w := whitelistNames (optionsOf opts)) in *.
  destruct (le_lt_dec (length (Columns p)) 2) as [Hlen | Hlen];
    [now apply short_list_success|].
  rewrite ConvertToMongoFilter_multi, Hv by lia. simpl snd.
  pose proof (accepted_convert _ _ _ Hall) as Hconv.
  pose proof (checkSameLogic_total _ (accepted_logic _ w _ Hconv)) as Hnone.
  unfold convertMultiColumns.
  destruct (checkSameLogic (Columns p)) as [[logicType groups] e] eqn:Hs.
  simpl in Hnone. subst e.
  destruct (logicType =? allLogicAnd)%nat; [now apply andColumns_success|].
  destruct (logicType =? allLogicOr)%nat; [now apply orColumns_success|].
  apply orConditionsOf_success; [exact Hconv|].
  eapply checkSameLogic_bound; eassumption.
Qed.

End Acceptance.

(** X7. Which calls succeed. Once the validation function, if any, has
    accepted the columns, a call succeeds whenever every column passes
    [checkName] and [convert], whatever the logic; and on one or two
    columns, or on columns whose internal logic is all AND, it succeeds
    only then, so that every name of a successful call is in the
    whitelist. *)
Theorem success_of_accepted_columns (Sprintf_v : value -> string)
    (p : Params) (opts : list RulerOption) :
  validation (optionsOf opts) p = None ->
  let w := whitelistNames (optionsOf opts) in
  let succeeds :=
    exists f, snd (ConvertToMongoFilter Sprintf_v p opts) = Return (Some f) None in
  (Forall (accepted Sprintf_v w) (Columns p) -> succeeds) /\
  (length (Columns p) <= 2 \/
   Forall (fun c => logicOf c = Some andSymbol1) (internal (Columns p)) ->
   succeeds -> Forall (accepted Sprintf_v w) (Columns p)).
Proof.
  intros Hv w succeeds. subst succeeds w. split.
  - now apply accepted_columns_succeed.
  - intros [Hlen | Hand] Hsucc; [now apply short_list_success|].
    destruct (le_lt_dec (length (Columns p)) 2) as [Hlen | Hlen];
      [now apply short_list_success|].
    rewrite ConvertToMongoFilter_multi, Hv in Hsucc by lia. simpl snd in Hsucc.
    rewrite (convertMultiColumns_and _ _ _ (checkSameLogic_and _ Hand)) in Hsucc.
    now apply andColumns_success in Hsucc.
Qed.

(* ===================================================================== *)
(** * Conditions that have been checked *)
(* ===================================================================== *)

Lemma expMap_key_lower (k v : string) : expMap !! k = Some v -> ToLower k = k.
Proof.
  intros H. apply elem_of_list_to_map_2 in H.
  repeat (apply elem_of_cons in H as [H | H];
          [injection H as -> _; reflexivity |]).
  now apply elem_of_nil in H.
Qed.

Lemma logicMap_key_lower (k v : string) :
  logicMap !! k = Some v -> ToLower k = k.
Proof.
  intros H. apply elem_of_list_to_map_2 in H.
  repeat (apply elem_of_cons in H as [H | H];
          [injection H as -> _; reflexivity |]).
  now apply elem_of_nil in H.
Qed.

Lemma checkColumns_cons (column : Column) (rest : list Column) :
  checkColumns (column :: rest) =
  match checkValid column with
  | Some err => Some (ErrOfColumn err)
  | None =>
      if negb (String.eqb (Exp column) "")
         && negb (bool_decide (is_Some (expMap !! Exp column)))
      then Some (ErrUnknownExp (Exp column))
      else if negb (String.eqb (Logic column) "")
              && negb (bool_decide (is_Some (logicMap !! Logic column)))
      then Some (ErrOfColumn (ErrUnknownLogic (Logic column)))
      else checkColumns rest
  end.
Proof. reflexivity. Qed.

Lemma known_or_empty (m : gmap string string) (token : string) :
  negb (String.eqb token "") && negb (bool_decide (is_Some (m !! token)))
  = false ->
  token = "" \/ is_Some (m !! token).
Proof.
  destruct (String.eqb token "") eqn:E.
  - apply String.eqb_eq in E. auto.
  - destruct (bool_decide (is_Some (m !! token))) eqn:B; [|discriminate].
    apply bool_decide_eq_true_1 in B. auto.
Qed.

(** What [checkColumns] has seen of each column. *)
Lemma checkColumns_ok (columns : list Column) :
  checkColumns columns = None ->
  Forall (fun col =>
            checkValid col = None /\
            (Exp col = "" \/ is_Some (expMap !! Exp col)) /\
            (Logic col = "" \/ is_Some (logicMap !! Logic col))) columns.
Proof.
  induction columns as [|col columns IH]; [constructor|].
  rewrite checkColumns_cons.
  destruct (checkValid col) eqn:Hc; [discriminate|].
  destruct (negb (String.eqb (Exp col) "")
            && negb (bool_decide (is_Some (expMap !! Exp col)))) eqn:He;
    [discriminate|].
  destruct (negb (String.eqb (Logic col) "")
            && negb (bool_decide (is_Some (logicMap !! Logic col)))) eqn:Hl;
    [discriminate|].
  intros H. apply Forall_cons. split; [|exact (IH H)].
  split; [exact Hc|]. split; now apply known_or_empty.
Qed.

Lemma ConvertToMongo_snd (Sprintf_v : value -> string) (c : Conditions)
    (opts : list RulerOption) :
  snd (ConvertToMongo Sprintf_v c opts)
  = snd (ConvertToMongoFilter Sprintf_v
           (mkParams 0 0 "" (ConditionsColumns c) 0) opts).
Proof.
  unfold ConvertToMongo. cbv zeta.
  now destruct (ConvertToMongoFilter _ _ _).
Qed.

Section CheckedConditions.

Variable Sprintf_v : value -> string.

(** An operator other than [in] and [nin] never refuses a value. *)
Lemma convertValue_total (c : Column) :
  Exp c ∈ [eqSymbol; neqSymbol; gtSymbol; gteSymbol; ltSymbol; lteSymbol; Like] ->
  snd (convertValue Sprintf_v c) = None.
Proof.
  intros H. unfold convertValue.
  repeat (apply elem_of_cons in H as [-> | H]; [reflexivity |]).
  now apply elem_of_nil in H.
Qed.

(** A column that has been checked is converted, unless its operator is
    [in] or [nin] and its value is not a plain string. *)
Lemma checked_column_converts (col : Column) :
  checkValid col = None ->
  Exp col = "" \/ is_Some (expMap !! Exp col) ->
  Logic col = "" \/ is_Some (logicMap !! Logic col) ->
  (forall sym, expMap !! expKey col = Some sym -> sym ∈ [In; NotIn] ->
     exists s, Value col = VString s /\ isObjectID (VString s) = None) ->
  snd (convert Sprintf_v col) = None.
Proof.
  intros Hc He Hl Hset. rewrite convert_eq, Hc.
  assert (Hkey : exists sym, expMap !! expKey col = Some sym).
  { unfold expKey. destruct He as [-> | [v Hv]]; [eexists; reflexivity|].
    destruct (String.eqb (Exp col) "") eqn:E; [eexists; reflexivity|].
    rewrite (expMap_key_lower _ _ Hv). eauto. }
  destruct Hkey as [sym Hsym]. rewrite Hsym.
  assert (Hlog : is_Some (logicOf col)).
  { rewrite logicOf_eq. unfold logicKey.
    destruct Hl as [-> | [v Hv]]; [eexists; reflexivity|].
    destruct (String.eqb (Logic col) "") eqn:E; [eexists; reflexivity|].
    rewrite (logicMap_key_lower _ _ Hv). eauto. }
  assert (Hval : snd (convertValue Sprintf_v (setExp (objectIDColumn col) sym))
                 = None).
  { pose proof (expMap_symbols _ _ Hsym) as Hs.
    destruct (decide (sym ∈ [In; NotIn])) as [Hin | Hin].
    - destruct (Hset sym Hsym Hin) as (s & Hv & Hid).
      rewrite (convertValue_set _ (setExp (objectIDColumn col) sym) sym eq_refl Hin).
      rewrite <- Hv in Hid. rewrite (objectIDColumn_id col Hid).
      simpl Value. now rewrite Hv.
    - apply convertValue_total. simpl Exp.
      repeat (apply elem_of_cons in Hs as [-> | Hs];
              [first [ repeat constructor; fail
                     | exfalso; apply Hin; repeat constructor ] |]).
      now apply elem_of_nil in Hs. }
  destruct (convertValue _ _) as [c3 [e|]] eqn:E3; [discriminate|].
  apply convertValue_fields in E3 as (_ & _ & E3). simpl in E3.
  destruct Hlog as [l Hlog].
  rewrite (convertLogic_of c3 l); [reflexivity|].
  rewrite <- Hlog. apply logicOf_ext. now rewrite E3, objectIDColumn_Logic.
Qed.

End CheckedConditions.

(** X8. Conditions that [CheckValid] accepts have at least one column, and
    each column has a name, a value, and an operator and a logic that
    [convert] knows too. With no option, [ConvertToMongo] then succeeds,
    provided each value under [in] or [nin] is a string that is not read
    as an identifier. *)
Theorem checked_conditions_convert (Sprintf_v : value -> string)
    (c : Conditions) :
  CheckValid c = None ->
  ConditionsColumns c <> [] /\
  Forall (fun col =>
            Name col <> "" /\ Value col <> VNil /\
            is_Some (expMap !! expKey col) /\ is_Some (logicOf col))
         (ConditionsColumns c) /\
  (Forall (fun col =>
             forall sym, expMap !! expKey col = Some sym -> sym ∈ [In; NotIn] ->
               exists s, Value col = VString s /\ isObjectID (VString s) = None)
          (ConditionsColumns c) ->
   exists f, snd (ConvertToMongo Sprintf_v c []) = Return (Some f) None).
Proof.
  unfold CheckValid. destruct (length (ConditionsColumns c) =? 0)%nat eqn:E;
    [discriminate|].
  intros H. apply checkColumns_ok in H. split; [|split].
  - intros E0. now rewrite E0 in E.
  - eapply Forall_impl; [exact H|]. intros col (Hc & He & Hl).
    apply checkValid_ok in Hc as [Hn Hv]. split; [exact Hn|]. split; [exact Hv|].
    split.
    + unfold expKey. destruct He as [-> | [v Hv']]; [eexists; reflexivity|].
      destruct (String.eqb (Exp col) ""); [eexists; reflexivity|].
      rewrite (expMap_key_lower _ _ Hv'). eauto.
    + rewrite logicOf_eq. unfold logicKey.
      destruct Hl as [-> | [v Hv']]; [eexists; reflexivity|].
      destruct (String.eqb (Logic col) ""); [eexists; reflexivity|].
      rewrite (logicMap_key_lower _ _ Hv'). eauto.
  - intros Hset. rewrite ConvertToMongo_snd.
    apply accepted_columns_succeed; [reflexivity|]. simpl Columns.
    apply Forall_forall. intros col Hin.
    rewrite Forall_forall in H, Hset.
    destruct (H col Hin) as (Hc & He & Hl). split.
    + apply checkValid_ok in Hc as [Hn _]. unfold checkName. simpl.
      apply String.eqb_neq in Hn. now rewrite Hn.
    + now apply checked_column_converts; [| | |apply Hset].
Qed.

(* ===================================================================== *)
(** * The groups of [groupingIndex] *)
(* ===================================================================== *)

Lemma groupingFrom_app (orIndexes rest : list nat) :
  forall (groupIndexes : list (list nat)) (lastIndex : nat),
  groupingFrom (orIndexes ++ rest) groupIndexes lastIndex
  = groupingFrom rest
      (fst (groupingFrom orIndexes groupIndexes lastIndex))
      (snd (groupingFrom orIndexes groupIndexes lastIndex)).
Proof.
  induction orIndexes as [|index orIndexes IH]; intros groups lastIndex;
    [reflexivity|].
  simpl. apply IH.
Qed.

(** A run of consecutive indexes from the index the loop has reached: one
    group for each. *)
Lemma groupingFrom_consecutive (n : nat) :
  forall (a : nat) (groupIndexes : list (list nat)),
  groupingFrom (seq a n) groupIndexes a
  = ((groupIndexes ++ map (fun i => [i]) (seq a n))%list, a + n).
Proof.
  induction n as [|n IH]; intros a groups; simpl.
  - now rewrite app_nil_r, Nat.add_0_r.
  - rewrite Nat.eqb_refl, IH.
    replace (S a - a) with 1 by lia. simpl seq.
    rewrite <- app_assoc. simpl. f_equal. lia.
Qed.

Lemma concat_singletons (l : list nat) : concat (map (fun i => [i]) l) = l.
Proof. induction l as [|x l IH]; simpl; [reflexivity | now rewrite IH]. Qed.

Lemma leading_marks_groups (l n m : nat) :
  n < m -> m < l ->
  groupingIndex l (seq 0 n ++ [m])
  = (map (fun i => [i]) (seq 0 n)
     ++ [seq n (S m - n); seq (S m) (l - S m)])%list /\
  concat (groupingIndex l (seq 0 n ++ [m])) = seq 0 l.
Proof.
  intros Hnm Hml.
  assert (H : groupingIndex l (seq 0 n ++ [m])
              = (map (fun i => [i]) (seq 0 n)
                 ++ [seq n (S m - n); seq (S m) (l - S m)])%list).
  { unfold groupingIndex. rewrite groupingFrom_app, groupingFrom_consecutive.
    simpl fst. simpl snd. simpl groupingFrom.
    replace (n =? m)%nat with false by (symmetry; apply Nat.eqb_neq; lia).
    rewrite <- app_assoc. simpl. do 4 f_equal; lia. }
  split; [exact H|]. rewrite H, concat_app, concat_singletons. simpl.
  rewrite app_nil_r. clear H.
  remember (S m - n) as a eqn:Ea. remember (l - S m) as b eqn:Eb.
  assert (El : l = n + (a + b)) by lia.
  assert (Em : S m = n + a) by lia.
  rewrite El, Em, !seq_app. reflexivity.
Qed.

(** X9. Where the grouping is a partition. When the OR marks are on the
    first [n] columns and on one later column [m], [groupingIndex] returns
    the runs that end at the marks: a group for each of the first [n]
    columns, the group from [n] to [m], and the group of the columns after
    [m]; together they are the columns [0] to [l-1], each once and in
    order. *)
Theorem grouping_of_leading_marks (l n m : nat) :
  n < m -> m < l ->
  groupingIndex l (seq 0 n ++ [m])
  = (map (fun i => [i]) (seq 0 n)
     ++ [seq n (S m - n); seq (S m) (l - S m)])%list /\
  concat (groupingIndex l (seq 0 n ++ [m])) = seq 0 l.
Proof. exact (leading_marks_groups l n m). Qed.

Lemma groupingFrom_ranges (orIndexes : list nat) :
  forall (groupIndexes : list (list nat)) (lastIndex : nat),
  Forall (fun g => exists a k, g = seq a k) groupIndexes ->
  Forall (fun g => exists a k, g = seq a k)
         (fst (groupingFrom orIndexes groupIndexes lastIndex)).
Proof.
  induction orIndexes as [|index orIndexes IH]; intros groups lastIndex Hg;
    simpl; [exact Hg|].
  apply IH. apply Forall_app. split; [exact Hg|].
  apply Forall_cons. split; [eauto | constructor].
Qed.

Lemma groupingFrom_prefix (orIndexes : list nat) :
  forall (groupIndexes : list (list nat)) (lastIndex : nat),
  exists more,
    fst (groupingFrom orIndexes groupIndexes lastIndex)
    = (groupIndexes ++ more)%list.
Proof.
  induction orIndexes as [|index orIndexes IH]; intros groups lastIndex; simpl.
  - exists []. now rewrite app_nil_r.
  - destruct (IH (groups ++ [seq lastIndex (S index - lastIndex)])%list
                 (if (lastIndex =? index)%nat then S lastIndex else index))
      as [more ->].
    eexists. now rewrite <- app_assoc.
Qed.

(** X10. The groups of [groupingIndex], whatever the marks: there is one
    group more than there are marks, each group is a range of consecutive
    indexes, the first group runs from 0 to the first mark, and with marks
    below [l] no index of a group reaches [l]. *)
Theorem grouping_structure (l : nat) (orIndexes : list nat) :
  length (groupingIndex l orIndexes) = length orIndexes + 1 /\
  Forall (fun g => exists a k, g = seq a k) (groupingIndex l orIndexes) /\
  (forall index rest, orIndexes = index :: rest ->
     groupingIndex l orIndexes !! 0%nat = Some (seq 0 (S index))) /\
  (Forall (fun i => i < l) orIndexes ->
   Forall (Forall (fun i => i < l)) (groupingIndex l orIndexes)).
Proof.
  split; [apply groupingIndex_length|]. split; [|split].
  - unfold groupingIndex.
    pose proof (groupingFrom_ranges orIndexes [] 0 ltac:(constructor)) as H.
    destruct (groupingFrom orIndexes [] 0) as [groups lastIndex]. simpl in H.
    apply Forall_app. split; [exact H|].
    apply Forall_cons. split; [eauto | constructor].
  - intros index rest ->. unfold groupingIndex. simpl groupingFrom.
    pose proof (groupingFrom_prefix rest [seq 0 (S index - 0)]
                  (if (0 =? index)%nat then 1 else index)) as [more H].
    destruct (groupingFrom rest _ _) as [groups lastIndex]. simpl in H.
    rewrite H. reflexivity.
  - apply groupingIndex_bound.
Qed.

(* ===================================================================== *)
(** * Identifiers and their hexadecimal form *)
(* ===================================================================== *)

Lemma fromHexChar_hexDigit (n : nat) :
  n < 16 -> fromHexChar (hexDigit n) = Some n.
Proof.
  intros H. do 16 (destruct n as [|n]; [reflexivity|]). lia.
Qed.

Lemma hexDigit_fromHexChar (a : ascii) (h : nat) :
  fromHexChar a = Some h -> h < 16 /\ hexDigit h = lower_byte a.
Proof.
  destruct a as [[] [] [] [] [] [] [] []]; intros H; vm_compute in H;
    try discriminate; injection H as <-; split;
    first [lia | vm_compute; reflexivity].
Qed.

Lemma fromHexChar_ascii (a : ascii) (h : nat) :
  fromHexChar a = Some h -> (nat_of_ascii a <? 128)%nat = true.
Proof.
  destruct a as [[] [] [] [] [] [] [] []]; intros H; vm_compute in H;
    try discriminate; reflexivity.
Qed.

Lemma isASCII_cons (c : ascii) (s : string) :
  isASCII (String c s) = (nat_of_ascii c <? 128)%nat && isASCII s.
Proof. reflexivity. Qed.

Lemma ToLower_ascii (s : string) :
  isASCII s = true -> ToLower s = lowerASCII s.
Proof. intros H. unfold ToLower. now rewrite H. Qed.

Lemma byte_digits (b : Byte.byte) :
  nat_of_ascii (ascii_of_byte b) / 16 < 16 /\
  nat_of_ascii (ascii_of_byte b) mod 16 < 16 /\
  byte_of_ascii
    (ascii_of_nat (16 * (nat_of_ascii (ascii_of_byte b) / 16)
                   + nat_of_ascii (ascii_of_byte b) mod 16)) = b.
Proof.
  pose proof (nat_ascii_bounded (ascii_of_byte b)) as Hb.
  split; [apply Nat.Div0.div_lt_upper_bound; lia|].
  split; [apply Nat.mod_upper_bound; lia|].
  rewrite <- Nat.div_mod_eq.
  now rewrite ascii_nat_embedding, byte_of_ascii_of_byte.
Qed.

Lemma digits_byte (h l : nat) :
  h < 16 -> l < 16 ->
  nat_of_ascii (ascii_of_byte (byte_of_ascii (ascii_of_nat (16 * h + l)))) / 16
  = h /\
  nat_of_ascii (ascii_of_byte (byte_of_ascii (ascii_of_nat (16 * h + l)))) mod 16
  = l.
Proof.
  intros Hh Hl.
  rewrite ascii_of_byte_of_ascii, nat_ascii_embedding by lia.
  split.
  - symmetry. apply (Nat.div_unique _ 16 h l); lia.
  - symmetry. apply (Nat.mod_unique _ 16 h l); lia.
Qed.

Lemma hexDecode_pair (a b : ascii) (s : string) :
  hexDecode (String a (String b s)) =
  match fromHexChar a, fromHexChar b, hexDecode s with
  | Some h, Some l, Some bs =>
      Some (byte_of_ascii (ascii_of_nat (16 * h + l)) :: bs)
  | _, _, _ => None
  end.
Proof. reflexivity. Qed.

Lemma hexEncode_cons (b : Byte.byte) (bs : list Byte.byte) :
  hexEncode (b :: bs) =
  String (hexDigit (nat_of_ascii (ascii_of_byte b) / 16))
    (String (hexDigit (nat_of_ascii (ascii_of_byte b) mod 16)) (hexEncode bs)).
Proof. reflexivity. Qed.

Lemma hexDecode_hexEncode (bs : list Byte.byte) :
  hexDecode (hexEncode bs) = Some bs.
Proof.
  induction bs as [|b bs IH]; [reflexivity|].
  destruct (byte_digits b) as (Hh & Hl & Hb).
  rewrite hexEncode_cons, hexDecode_pair.
  rewrite (fromHexChar_hexDigit _ Hh), (fromHexChar_hexDigit _ Hl), IH.
  now rewrite Hb.
Qed.

Lemma hexEncode_length (bs : list Byte.byte) :
  String.length (hexEncode bs) = 2 * length bs.
Proof. induction bs as [|b bs IH]; simpl; [reflexivity | rewrite IH; lia]. Qed.

Lemma hexEncode_hexDecode (n : nat) :
  forall (s : string) (bs : list Byte.byte),
  String.length s <= n ->
  hexDecode s = Some bs ->
  String.length s = 2 * length bs /\ isASCII s = true /\
  hexEncode bs = lowerASCII s.
Proof.
  induction n as [|n IH]; intros s bs Hn H.
  - destruct s; [|simpl in Hn; lia]. injection H as <-. auto.
  - destruct s as [|a [|b s]]; [injection H as <-; auto | discriminate |].
    rewrite hexDecode_pair in H.
    destruct (fromHexChar a) as [h|] eqn:Ea; [|discriminate].
    destruct (fromHexChar b) as [l|] eqn:Eb; [|discriminate].
    destruct (hexDecode s) as [bs'|] eqn:Es; [|discriminate].
    assert (Hbs : bs = byte_of_ascii (ascii_of_nat (16 * h + l)) :: bs')
      by congruence.
    clear H. subst bs.
    pose proof (fromHexChar_ascii a h Ea) as Aa.
    pose proof (fromHexChar_ascii b l Eb) as Ab.
    apply hexDigit_fromHexChar in Ea as [Hh Ea], Eb as [Hl Eb].
    destruct (IH s bs' ltac:(simpl in Hn; lia) Es) as (IH1 & IH2 & IH3).
    destruct (digits_byte h l Hh Hl) as [Hd Hm].
    split; [cbn [String.length length]; lia|].
    split; [now rewrite !isASCII_cons, Aa, Ab, IH2|].
    rewrite hexEncode_cons, Hd, Hm, Ea, Eb, IH3.
    reflexivity.
Qed.

(** A string of hexadecimal digits is ASCII: [ToLower] folds its bytes. *)
Lemma hexDecode_lower (s : string) (bs : list Byte.byte) :
  hexDecode s = Some bs ->
  String.length s = 2 * length bs /\ hexEncode bs = ToLower s.
Proof.
  intros H.
  destruct (hexEncode_hexDecode (String.length s) s bs (le_n _) H)
    as (H1 & H2 & H3).
  split; [exact H1|]. now rewrite ToLower_ascii.
Qed.

Lemma Hex_inj (o1 o2 : ObjectID) : Hex o1 = Hex o2 -> o1 = o2.
Proof.
  unfold Hex. intros H.
  pose proof (hexDecode_hexEncode o1) as H1. rewrite H in H1.
  rewrite hexDecode_hexEncode in H1. now injection H1.
Qed.

Lemma isObjectID_some (v : value) (oid : ObjectID) :
  isObjectID v = Some oid ->
  exists s, v = VString s /\ String.length s = 24 /\ hexDecode s = Some oid.
Proof.
  destruct v; try discriminate. simpl. unfold ObjectIDFromHex.
  destruct (String.length s =? 24)%nat eqn:E; [|discriminate].
  apply Nat.eqb_eq in E. eauto.
Qed.

(** X11. Identifiers and hexadecimal strings. The hexadecimal form of an
    identifier of twelve bytes is read back by [isObjectID] as that
    identifier; a value that [isObjectID] reads is a string of 24
    characters whose lower case is the hexadecimal form of the identifier
    read, which has twelve bytes; so two strings are read as the same
    identifier exactly when they are equal up to the case of their
    letters. *)
Theorem objectID_round_trip (oid : ObjectID) :
  (length oid = 12 -> isObjectID (VString (Hex oid)) = Some oid) /\
  (forall v, isObjectID v = Some oid ->
     length oid = 12 /\
     exists s, v = VString s /\ String.length s = 24 /\ Hex oid = ToLower s) /\
  (forall s1 s2 oid2,
     isObjectID (VString s1) = Some oid ->
     isObjectID (VString s2) = Some oid2 ->
     (oid = oid2 <-> ToLower s1 = ToLower s2)).
Proof.
  assert (Hread : forall v o, isObjectID v = Some o ->
            length o = 12 /\
            exists s, v = VString s /\ String.length s = 24 /\ Hex o = ToLower s).
  { intros v o H. destruct (isObjectID_some _ _ H) as (s & -> & Hl & Hd).
    destruct (hexDecode_lower s o Hd) as [H1 H2].
    split; [lia|]. exists s. auto. }
  split; [|split].
  - intros Hl. simpl. unfold ObjectIDFromHex, Hex.
    rewrite hexEncode_length, Hl. simpl. apply hexDecode_hexEncode.
  - intros v H. exact (Hread v oid H).
  - intros s1 s2 oid2 H1 H2.
    destruct (Hread _ _ H1) as (_ & s & E1 & _ & Hx1).
    destruct (Hread _ _ H2) as (_ & s' & E2 & _ & Hx2).
    injection E1 as <-. injection E2 as <-.
    rewrite <- Hx1, <- Hx2. split; [now intros -> | apply Hex_inj].
Qed.

(* ===================================================================== *)
(** * The list under [in] and [nin] *)
(* ===================================================================== *)

Lemma Join_cons (f : string) (rest : list string) (sep : ascii) :
  Join (f :: rest) sep =
  match rest with
  | [] => f
  | _ :: _ => String.append f (String sep (Join rest sep))
  end.
Proof. destruct rest; reflexivity. Qed.

Lemma fields_Join (sep : ascii) (s : string) :
  Join (fst (fields sep s) :: snd (fields sep s)) sep = s.
Proof.
  induction s as [|c s IH]; [reflexivity|].
  cbn [fields]. destruct (fields sep s) as [hd tl]. simpl fst in *. simpl snd in *.
  destruct (Ascii.eqb c sep) eqn:E.
  - apply Ascii.eqb_eq in E. subst c. simpl fst. simpl snd.
    rewrite Join_cons, IH. reflexivity.
  - simpl fst. simpl snd. rewrite Join_cons in IH |- *.
    destruct tl; simpl; now rewrite <- IH.
Qed.

Lemma fields_free (sep : ascii) (s : string) :
  Forall (fun f => ~ List.In sep (list_ascii_of_string f))
         (fst (fields sep s) :: snd (fields sep s)).
Proof.
  induction s as [|c s IH]; [repeat constructor; simpl; tauto|].
  cbn [fields]. destruct (fields sep s) as [hd tl]. simpl fst in *. simpl snd in *.
  destruct (Ascii.eqb c sep) eqn:E; simpl fst; simpl snd.
  - constructor; [simpl; tauto | exact IH].
  - apply Ascii.eqb_neq in E. apply Forall_cons in IH as [Hh Ht].
    constructor; [|exact Ht]. simpl. intros [H | H]; [congruence | tauto].
Qed.

Lemma fields_count (sep : ascii) (s : string) :
  length (snd (fields sep s))
  = count_occ ascii_dec (list_ascii_of_string s) sep.
Proof.
  induction s as [|c s IH]; [reflexivity|].
  cbn [fields]. destruct (fields sep s) as [hd tl]. simpl snd in *.
  simpl list_ascii_of_string. simpl count_occ.
  destruct (Ascii.eqb c sep) eqn:E.
  - apply Ascii.eqb_eq in E. subst c. simpl snd.
    destruct (ascii_dec sep sep); [simpl; now rewrite IH | congruence].
  - apply Ascii.eqb_neq in E. simpl snd.
    destruct (ascii_dec c sep); [congruence | exact IH].
Qed.

Lemma Split_fields (s : string) (sep : ascii) :
  Split s sep = fst (fields sep s) :: snd (fields sep s).
Proof. unfold Split. now destruct (fields sep s). Qed.

(** X12. The list that [convert] builds under [in] and [nin]. For a column
    with a name, an operator that normalises to [in] or [nin] and a string
    that is not read as an identifier, the value left is the list of the
    fields of the string under [$in], respectively [$nin]: joined by
    commas the fields give the string back, no field holds a comma, and
    there is one field more than there are commas, so that the empty
    string gives one empty field. *)
Theorem set_operator_fields (Sprintf_v : value -> string)
    (c : Column) (sym s : string) :
  Name c <> "" ->
  expMap !! expKey c = Some sym ->
  sym ∈ [In; NotIn] ->
  Value c = VString s ->
  isObjectID (VString s) = None ->
  exists fields,
    Value (fst (convert Sprintf_v c))
    = VM {[ (if String.eqb sym In then "$in" else "$nin") :=
            VArr (map VString fields) ]} /\
    Join fields ","%char = s /\
    Forall (fun f => ~ List.In ","%char (list_ascii_of_string f)) fields /\
    length fields = 1 + count_occ ascii_dec (list_ascii_of_string s) ","%char.
Proof.
  intros Hn Hsym Hin Hv Hid. exists (Split s ","%char).
  split; [|rewrite Split_fields; split; [|split]].
  - rewrite convert_eq.
    assert (Hc : checkValid c = None)
      by (apply checkValid_ok; split; [exact Hn | rewrite Hv; discriminate]).
    rewrite Hc, Hsym. rewrite <- Hv in Hid. rewrite (objectIDColumn_id c Hid).
    rewrite (convertValue_set _ (setExp c sym) sym eq_refl Hin).
    simpl Value. rewrite Hv. now rewrite convertLogic_Value.
  - apply fields_Join.
  - apply fields_free.
  - simpl length. now rewrite fields_count.
Qed.

(* ===================================================================== *)
(** * The cache of user examples *)
(* ===================================================================== *)

Lemma GetUserExampleCacheKey_inj (id1 id2 : string) :
  UserExampleCache.GetUserExampleCacheKey id1
  = UserExampleCache.GetUserExampleCacheKey id2 ->
  id1 = id2.
Proof. unfold UserExampleCache.GetUserExampleCacheKey. apply String.app_inj. Qed.

Section CacheFacts.

Context {UserExample : Type}.

Lemma retMapOf_lookup (ids : list string)
    (itemMap : gmap string (option UserExample)) :
  forall (retMap : gmap string (option UserExample)) (id : string),
  UserExampleCache.retMapOf ids itemMap retMap !! id =
  if decide (id ∈ ids)
  then match itemMap !! UserExampleCache.GetUserExampleCacheKey id with
       | Some val => Some val
       | None => retMap !! id
       end
  else retMap !! id.
Proof.
  induction ids as [|i ids IH]; intros retMap id; simpl.
  - destruct (decide (id ∈ [])) as [H | _]; [now apply elem_of_nil in H | reflexivity].
  - destruct (itemMap !! UserExampleCache.GetUserExampleCacheKey i) as [val|] eqn:Ei;
      rewrite IH; destruct (decide (id ∈ ids)) as [Hin | Hin].
    + rewrite decide_True by (now right).
      destruct (itemMap !! UserExampleCache.GetUserExampleCacheKey id) eqn:E;
        [reflexivity|].
      destruct (decide (i = id)) as [-> | Hne]; [congruence|].
      now rewrite lookup_insert_ne.
    + destruct (decide (i = id)) as [-> | Hne].
      * rewrite decide_True by (now left). now rewrite lookup_insert_eq, Ei.
      * rewrite decide_False by (rewrite elem_of_cons; intros [? | ?]; congruence).
        now rewrite lookup_insert_ne.
    + rewrite decide_True by (now right). reflexivity.
    + destruct (decide (i = id)) as [-> | Hne].
      * rewrite decide_True by (now left). now rewrite Ei.
      * now rewrite decide_False
          by (rewrite elem_of_cons; intros [? | ?]; congruence).
Qed.

End CacheFacts.

(** X13. [MultiGet] of the cache of user examples. It asks the cache for
    the keys of the ids, in their order, and distinct ids have distinct
    keys. An error of the cache is returned with no map. Otherwise the map
    returned holds, for each id asked, the item that the cache gave under
    the key of this id, if it gave one, and holds nothing else. *)
Theorem MultiGet_by_id {store cacheError UserExample : Type}
    (c : UserExampleCache.Cache store cacheError UserExample)
    (s s' : store) (ids : list string)
    (itemMap : gmap string (option UserExample)) (err : option cacheError) :
  UserExampleCache.cacheMultiGet c s
    (map UserExampleCache.GetUserExampleCacheKey ids) = (s', itemMap, err) ->
  (forall id1 id2,
     UserExampleCache.GetUserExampleCacheKey id1
     = UserExampleCache.GetUserExampleCacheKey id2 -> id1 = id2) /\
  (forall e, err = Some e ->
     UserExampleCache.MultiGet c s ids = (s', None, Some e)) /\
  (err = None ->
   exists retMap,
     UserExampleCache.MultiGet c s ids = (s', Some retMap, None) /\
     forall id,
       retMap !! id =
       if decide (id ∈ ids)
       then itemMap !! UserExampleCache.GetUserExampleCacheKey id
       else None).
Proof.
  intros H. split; [exact GetUserExampleCacheKey_inj|]. split.
  - intros e ->. unfold UserExampleCache.MultiGet. cbv zeta. now rewrite H.
  - intros ->. eexists. split.
    + unfold UserExampleCache.MultiGet. cbv zeta. now rewrite H.
    + intros id. rewrite retMapOf_lookup, lookup_empty.
      destruct (decide (id ∈ ids)); [|reflexivity].
      now destruct (itemMap !! _).
Qed.

Section MultiSetFacts.

Context {UserExample : Type}.
Variable ID : UserExample -> ObjectID.

(** The key of a record. *)
Let keyOf (v : UserExample) : string :=
  UserExampleCache.GetUserExampleCacheKey (Hex (ID v)).

Lemma valMapOf_nil (data : list (option UserExample)) :
  forall valMap, None ∈ data -> UserExampleCache.valMapOf ID data valMap = None.
Proof.
  induction data as [|[v|] data IH]; intros valMap H; simpl.
  - now apply elem_of_nil in H.
  - apply IH. apply elem_of_cons in H as [H | H]; [discriminate | exact H].
  - reflexivity.
Qed.

Lemma valMapOf_records (vs : list UserExample) :
  forall valMap,
  exists m,
    UserExampleCache.valMapOf ID (map Some vs) valMap = Some m /\
    (forall k x, m !! k = Some x ->
       (exists v, x = Some v /\ v ∈ vs /\ k = keyOf v) \/ valMap !! k = Some x) /\
    (forall k, k ∉ map keyOf vs -> m !! k = valMap !! k) /\
    (NoDup (map keyOf vs) -> forall v, v ∈ vs -> m !! keyOf v = Some (Some v)).
Proof.
  induction vs as [|a vs IH]; intros valMap; simpl.
  - exists valMap. split; [reflexivity|]. split; [auto|]. split; [auto|].
    intros _ v H. now apply elem_of_nil in H.
  - destruct (IH (<[ keyOf a := Some a ]> valMap)) as (m & Hm & H1 & H2 & H3).
    exists m. split; [exact Hm|]. split; [|split].
    + intros k x Hk. destruct (H1 k x Hk) as [(v & -> & Hv & ->) | Hold].
      * left. exists v. split; [reflexivity|]. split; [now right | reflexivity].
      * destruct (decide (keyOf a = k)) as [<- | Hne].
        -- rewrite lookup_insert_eq in Hold. injection Hold as <-.
           left. exists a. split; [reflexivity|]. split; [now left | reflexivity].
        -- rewrite lookup_insert_ne in Hold by exact Hne. now right.
    + intros k Hk. rewrite not_elem_of_cons in Hk. destruct Hk as [Hne Hk].
      rewrite (H2 k Hk). now rewrite lookup_insert_ne by congruence.
    + intros Hnd v Hv. apply NoDup_cons in Hnd as [Ha Hnd].
      apply elem_of_cons in Hv as [-> | Hv].
      * rewrite (H2 _ Ha). now rewrite lookup_insert_eq.
      * now apply H3.
Qed.

Lemma keyOf_inj (v1 v2 : UserExample) : keyOf v1 = keyOf v2 -> ID v1 = ID v2.
Proof.
  unfold keyOf. intros H. apply GetUserExampleCacheKey_inj in H.
  now apply Hex_inj.
Qed.

Lemma keyOf_NoDup (vs : list UserExample) :
  NoDup (map ID vs) -> NoDup (map keyOf vs).
Proof.
  induction vs as [|a vs IH]; simpl; [constructor|].
  intros H. apply NoDup_cons in H as [Ha H]. apply NoDup_cons. split; [|auto].
  intros Hin. apply Ha. apply list_elem_of_In in Hin. apply in_map_iff in Hin.
  destruct Hin as (v & Hk & Hv). apply keyOf_inj in Hk.
  apply list_elem_of_In. apply in_map_iff. exists v. split; [exact Hk | exact Hv].
Qed.

End MultiSetFacts.

(** X14. [MultiSet] of the cache of user examples. A [nil] record stops the
    call before the cache is touched. Otherwise the cache is given one map:
    each of its entries is a record of the list under the key made of the
    prefix and the hexadecimal form of its identifier, and when the
    identifiers of the records are distinct, every record of the list is in
    the map under its key. *)
Theorem MultiSet_by_identifier {store cacheError UserExample : Type}
    (ID : UserExample -> ObjectID)
    (c : UserExampleCache.Cache store cacheError UserExample)
    (s : store) (duration : Z) :
  (forall data, None ∈ data ->
     UserExampleCache.MultiSet ID c s data duration
     = (s, UserExampleCache.NilDereference)) /\
  (forall vs,
   exists valMap,
     UserExampleCache.MultiSet ID c s (map Some vs) duration
     = (fst (UserExampleCache.cacheMultiSet c s valMap duration),
        UserExampleCache.Done
          (snd (UserExampleCache.cacheMultiSet c s valMap duration))) /\
     (forall k x, valMap !! k = Some x ->
        exists v, x = Some v /\ v ∈ vs /\
                  k = UserExampleCache.GetUserExampleCacheKey (Hex (ID v))) /\
     (NoDup (map ID vs) ->
      forall v, v ∈ vs ->
        valMap !! UserExampleCache.GetUserExampleCacheKey (Hex (ID v))
        = Some (Some v))).
Proof.
  split.
  - intros data H. unfold UserExampleCache.MultiSet.
    now rewrite (valMapOf_nil ID data ∅ H).
  - intros vs.
    destruct (valMapOf_records ID vs ∅) as (m & Hm & H1 & _ & H3).
    exists m. split; [|split].
    + unfold UserExampleCache.MultiSet. rewrite Hm.
      now destruct (UserExampleCache.cacheMultiSet c s m duration).
    + intros k x Hk. destruct (H1 k x Hk) as [H | H]; [exact H|].
      now rewrite lookup_empty in H.
    + intros Hnd. apply H3. now apply keyOf_NoDup.
Qed.

(* ===================================================================== *)
(** * Where the grouping is not a partition *)
(* ===================================================================== *)

(** The groups of [groupingIndex] when its loop starts at [lastIndex]. *)
Lemma groupingFrom_acc (orIndexes : list nat) :
  forall (groupIndexes : list (list nat)) (lastIndex : nat),
  groupingFrom orIndexes groupIndexes lastIndex
  = ((groupIndexes ++ fst (groupingFrom orIndexes [] lastIndex))%list,
     snd (groupingFrom orIndexes [] lastIndex)).
Proof.
  induction orIndexes as [|index orIndexes IH]; intros groups lastIndex; simpl.
  - now rewrite app_nil_r.
  - rewrite IH. rewrite (IH [seq lastIndex (S index - lastIndex)]).
    simpl. now rewrite <- app_assoc.
Qed.

Lemma seq_cons (a k : nat) : 0 < k -> seq a k = a :: seq (S a) (k - 1).
Proof. destruct k; [lia|]. intros _. simpl. now rewrite Nat.sub_0_r. Qed.

Lemma columns_tiled (l : nat) (orIndexes : list nat) :
  forall lastIndex,
  lastIndex < l ->
  StronglySorted lt orIndexes ->
  Forall (fun i => lastIndex <= i /\ S i < l) orIndexes ->
  concat (fst (groupingFrom orIndexes [] lastIndex)
          ++ [seq (snd (groupingFrom orIndexes [] lastIndex) + 1)
                  (l - (snd (groupingFrom orIndexes [] lastIndex) + 1))])
  = seq lastIndex (l - lastIndex) ->
  exists n m, orIndexes = (seq lastIndex n ++ [m])%list /\ lastIndex + n < m.
Proof.
  induction orIndexes as [|i rest IH]; intros lastIndex Hl Hs Hb H.
  - exfalso. simpl in H. rewrite app_nil_r in H.
    rewrite (seq_cons lastIndex) in H by lia.
    destruct (l - (lastIndex + 1)) eqn:E; simpl in H; [discriminate|].
    injection H as H _. lia.
  - apply Forall_cons in Hb as [[Hi Hil] Hb].
    apply StronglySorted_inv in Hs as [Hs Hlt].
    simpl groupingFrom in H. rewrite groupingFrom_acc in H.
    simpl fst in H. simpl snd in H.
    destruct (lastIndex =? i)%nat eqn:E.
    + apply Nat.eqb_eq in E. subst i.
      replace (S lastIndex - lastIndex) with 1 in H by lia.
      simpl in H. rewrite (seq_cons lastIndex (l - lastIndex)) in H by lia.
      injection H as H.
      replace (l - lastIndex - 1) with (l - S lastIndex) in H by lia.
      destruct (IH (S lastIndex)) as (n & m & -> & Hnm);
        [lia | exact Hs | | exact H |].
      * apply Forall_forall. intros x Hx. rewrite Forall_forall in Hlt, Hb.
        specialize (Hlt x Hx). specialize (Hb x Hx). lia.
      * exists (S n), m. split; [reflexivity | lia].
    + apply Nat.eqb_neq in E.
      destruct rest as [|j rest].
      * exists 0, i. split; [reflexivity | lia].
      * exfalso. apply Forall_cons in Hlt as [Hij _].
        simpl groupingFrom in H. rewrite groupingFrom_acc in H.
        simpl fst in H. simpl snd in H.
        replace (l - lastIndex) with ((S i - lastIndex) + (l - S i)) in H by lia.
        rewrite seq_app in H. simpl concat in H.
        apply app_inv_head in H.
        replace (lastIndex + (S i - lastIndex)) with (S i) in H by lia.
        rewrite (seq_cons i (S j - i)) in H by lia.
        rewrite (seq_cons (S i) (l - S i)) in H by lia.
        simpl in H. injection H as H _. lia.
Qed.

Lemma orIndexesFrom_sorted (columns : list Column) :
  forall (l i : nat) (orIndexes found : list nat),
  l = i + length columns ->
  StronglySorted lt orIndexes ->
  Forall (fun k => k < i /\ S k < l) orIndexes ->
  orIndexesFrom l i columns orIndexes = inl found ->
  StronglySorted lt found /\ Forall (fun k => S k < l) found.
Proof.
  induction columns as [|c columns IH]; intros l i acc found Hl Hs Hb H.
  - simpl in H. injection H as <-. split; [exact Hs|].
    eapply Forall_impl; [exact Hb|]. intros k Hk. simpl in Hk. lia.
  - rewrite orIndexesFrom_cons in H.
    destruct (i =? l - 1)%nat eqn:E.
    + injection H as <-. split; [exact Hs|].
      eapply Forall_impl; [exact Hb|]. intros k Hk. simpl in Hk. lia.
    + apply Nat.eqb_neq in E. simpl in Hl.
      destruct (convertLogic c) as [c' [e|]]; [discriminate|].
      apply IH in H; [exact H | lia | |].
      * destruct (String.eqb (Logic c') orSymbol1); [|exact Hs].
        apply StronglySorted_app_2; [| exact Hs | repeat constructor].
        intros x y Hx Hy. apply list_elem_of_singleton in Hy as ->.
        rewrite Forall_forall in Hb. now apply Hb.
      * destruct (String.eqb (Logic c') orSymbol1).
        -- apply Forall_app. split.
           ++ eapply Forall_impl; [exact Hb|]. intros k Hk. simpl in Hk. lia.
           ++ repeat constructor; lia.
        -- eapply Forall_impl; [exact Hb|]. intros k Hk. simpl in Hk. lia.
Qed.

Lemma orIndexesFrom_marks (columns : list Column) :
  forall (l i : nat) (orIndexes found : list nat),
  l = i + length columns ->
  orIndexesFrom l i columns orIndexes = inl found ->
  forall k,
  k ∈ found <->
  k ∈ orIndexes \/
  (i <= k /\ S k < l /\
   exists c, columns !! (k - i) = Some c /\
             Logic (fst (convertLogic c)) = orSymbol1).
Proof.
  induction columns as [|c columns IH]; intros l i acc found Hl H k.
  - simpl in H, Hl. injection H as <-. split; [auto|].
    intros [Hk | (H1 & H2 & _)]; [exact Hk | lia].
  - rewrite orIndexesFrom_cons in H. simpl in Hl.
    destruct (i =? l - 1)%nat eqn:E.
    + injection H as <-. apply Nat.eqb_eq in E. split; [auto|].
      intros [Hk | (H1 & H2 & _)]; [exact Hk | lia].
    + apply Nat.eqb_neq in E.
      destruct (convertLogic c) as [c' [e|]] eqn:Ec; [discriminate|].
      rewrite (IH l (S i) _ found ltac:(lia) H k). clear IH H.
      assert (Hc : Logic (fst (convertLogic c)) = Logic c')
        by now rewrite Ec.
      destruct (Nat.eq_dec k i) as [-> | Hki].
      * rewrite Nat.sub_diag. simpl lookup.
        destruct (String.eqb (Logic c') orSymbol1) eqn:El.
        -- apply String.eqb_eq in El. split; intros _.
           ++ right. split; [lia|]. split; [lia|]. exists c. split; congruence.
           ++ left. apply elem_of_app. right. now apply list_elem_of_singleton.
        -- apply String.eqb_neq in El. split.
           ++ intros [Hk | (H1 & _)]; [now left | lia].
           ++ intros [Hk | (_ & _ & c0 & Hc0 & Hl0)]; [now left|].
              injection Hc0 as <-. congruence.
      * assert (Hin : k ∈ (if String.eqb (Logic c') orSymbol1
                           then acc ++ [i] else acc)%list <-> k ∈ acc).
        { destruct (String.eqb (Logic c') orSymbol1); [|tauto].
          rewrite elem_of_app, list_elem_of_singleton. tauto. }
        rewrite Hin. clear Hin. split.
        -- intros [Hk | (H1 & H2 & c0 & Hc0 & Hl0)]; [now left|].
           right. split; [lia|]. split; [exact H2|]. exists c0.
           split; [|exact Hl0].
           replace (k - i) with (S (k - S i)) by lia. exact Hc0.
        -- intros [Hk | (H1 & H2 & c0 & Hc0 & Hl0)]; [now left|].
           right. split; [lia|]. split; [exact H2|]. exists c0.
           split; [|exact Hl0].
           replace (k - i) with (S (k - S i)) in Hc0 by lia. exact Hc0.
Qed.

Lemma increasing_NoDup (l : list nat) : StronglySorted lt l -> NoDup l.
Proof.
  induction 1 as [|x l Hs IH Hx]; constructor; [|exact IH].
  intros Hin. rewrite Forall_forall in Hx. specialize (Hx x Hin). lia.
Qed.

Lemma increasing_unique (l1 l2 : list nat) :
  StronglySorted lt l1 -> StronglySorted lt l2 ->
  (forall k, k ∈ l1 <-> k ∈ l2) -> l1 = l2.
Proof.
  intros H1 H2 H. apply (StronglySorted_unique_strong lt); [| exact H1 | exact H2 |].
  - intros x y _ _ Hxy Hyx. lia.
  - apply NoDup_Permutation; [now apply increasing_NoDup .. | exact H].
Qed.

Lemma leading_marks_sorted (n m : nat) :
  n <= m -> StronglySorted lt (seq 0 n ++ [m]).
Proof.
  intros Hnm. apply StronglySorted_app_2.
  - intros x y Hx Hy. apply elem_of_seq in Hx.
    apply list_elem_of_singleton in Hy. lia.
  - generalize 0. induction n as [|n IH]; intros a; simpl; constructor.
    + apply IH. lia.
    + apply Forall_forall. intros x Hx. apply elem_of_seq in Hx. lia.
  - repeat constructor.
Qed.

(** X15. When the mixed grouping is right. On columns of mixed logic the
    groups of [checkSameLogic] hold every column once and in order exactly
    when the columns marked OR, the last one apart, are the first [n]
    columns and one later column [m]: any other placement of the marks
    loses a column or takes one twice. *)
Theorem mixed_grouping_partition (columns : list Column)
    (groupIndexes : list (list nat)) :
  checkSameLogic columns = (0, groupIndexes, None) ->
  concat groupIndexes = seq 0 (length columns) <->
  exists n m, n < m /\ S m < length columns /\
    forall i c, columns !! i = Some c -> S i < length columns ->
      (Logic (fst (convertLogic c)) = orSymbol1 <-> i < n \/ i = m).
Proof.
  unfold checkSameLogic.
  destruct (orIndexesFrom _ _ _ _) as [found | err] eqn:E; [|discriminate].
  pose proof (orIndexesFrom_marks columns (length columns) 0 [] found
                eq_refl E) as Hmarks.
  pose proof (orIndexesFrom_sorted columns (length columns) 0 [] found
                eq_refl ltac:(constructor) ltac:(constructor) E) as [Hs Hb].
  assert (Hin : forall k, k ∈ found <->
            S k < length columns /\
            exists c, columns !! k = Some c /\
                      Logic (fst (convertLogic c)) = orSymbol1).
  { intros k. rewrite Hmarks, Nat.sub_0_r. split.
    - intros [Hk | (_ & H)]; [inversion Hk | exact H].
    - intros H. right. split; [lia | exact H]. }
  clear Hmarks E.
  destruct (length found =? 0)%nat eqn:E0; [discriminate|].
  destruct (length found =? length columns - 1)%nat; [discriminate|].
  intros H. injection H as <-. apply Nat.eqb_neq in E0.
  assert (Hl : 0 < length columns).
  { destruct found as [|k found]; [now destruct E0|].
    apply Forall_cons in Hb as [Hk _]. lia. }
  split.
  - intros Hc. unfold groupingIndex in Hc.
    destruct (groupingFrom found [] 0) as [groups lastIndex] eqn:Eg.
    destruct (columns_tiled (length columns) found 0 Hl Hs) as (n & m & -> & Hnm).
    + eapply Forall_impl; [exact Hb|]. intros k Hk. simpl in Hk. lia.
    + rewrite Eg, Nat.sub_0_r. exact Hc.
    + exists n, m. split; [lia|].
      assert (Hm : S m < length columns).
      { rewrite Forall_forall in Hb. apply Hb, elem_of_app. right.
        now apply list_elem_of_singleton. }
      split; [exact Hm|]. intros i c Hi Hil.
      rewrite <- (list_elem_of_singleton i m), <- (Nat.add_0_l n) at 1.
      assert (Hseq : i < 0 + n <-> i ∈ seq 0 n) by (rewrite elem_of_seq; lia).
      rewrite Hseq, <- elem_of_app, Hin. split.
      * intros Hor. split; [exact Hil|]. now exists c.
      * intros (_ & c0 & Hc0 & Hor). congruence.
  - intros (n & m & Hnm & Hm & Hcols).
    assert (Hf : found = (seq 0 n ++ [m])%list).
    { apply increasing_unique; [exact Hs | apply leading_marks_sorted; lia |].
      intros k. rewrite Hin, elem_of_app, elem_of_seq, list_elem_of_singleton.
      split.
      - intros (Hk & c & Hc & Hor). apply (Hcols k c Hc Hk) in Hor. lia.
      - intros Hk. assert (Hkl : S k < length columns) by lia.
        split; [exact Hkl|].
        destruct (lookup_lt_is_Some_2 columns k ltac:(lia)) as [c Hc].
        exists c. split; [exact Hc|]. apply (Hcols k c Hc Hkl). lia. }
    rewrite Hf. apply leading_marks_groups; lia.
Qed.

(* ===================================================================== *)
(** * The columns after a call that fails *)
(* ===================================================================== *)

Ltac failure_frame :=
  do 4 (split; [reflexivity|]);
  split; [intros Hlen; simpl in Hlen; first [lia | reflexivity | assumption]
         | intros _].

(** X16. A call of [ConvertToMongoFilter] that returns an error leaves
    [Page], [Limit], [Sort] and [Size] as they were. On three columns or
    more the columns are as before. On one or two columns they are as
    before when the validation function or a name check refused the call;
    otherwise the columns before the one whose [convert] failed are
    converted, the failing column is as its [convert] left it and the
    columns after it are untouched: a second call would convert the
    leading columns again. *)
Theorem columns_after_failure (Sprintf_v : value -> string)
    (p : Params) (opts : list RulerOption) (e : error) :
  snd (ConvertToMongoFilter Sprintf_v p opts) = Return None (Some e) ->
  let p' := fst (ConvertToMongoFilter Sprintf_v p opts) in
  let w := whitelistNames (optionsOf opts) in
  Page p' = Page p /\ Limit p' = Limit p /\ Sort p' = Sort p /\
  Size p' = Size p /\
  (3 <= length (Columns p) -> Columns p' = Columns p) /\
  (length (Columns p) <= 2 ->
   (Columns p' = Columns p /\
    (validation (optionsOf opts) p = Some e \/
     exists c, c ∈ Columns p /\ checkName c w = Some e)) \/
   (exists done c rest,
      Columns p = (done ++ c :: rest)%list /\
      Forall (fun c => checkName c w = None) (Columns p) /\
      Forall (fun c => snd (convert Sprintf_v c) = None) done /\
      snd (convert Sprintf_v c) = Some e /\
      Columns p'
      = (map (fun c => fst (convert Sprintf_v c)) done
         ++ fst (convert Sprintf_v c) :: rest)%list)).
Proof.
  intros Hres p' w. subst p' w.
  destruct (le_lt_dec 3 (length (Columns p))) as [H3 | H3].
  - rewrite ConvertToMongoFilter_multi by exact H3.
    destruct (validation _ _); simpl; frame_cases.
  - destruct (Columns p) as [|c0 [|c1 [|c2 rest]]] eqn:Hcols;
      [| | | simpl in H3; lia].
    + rewrite (ConvertToMongoFilter_none Sprintf_v p opts Hcols) in Hres |- *.
      destruct (validation _ _) as [e0|] eqn:Hv; simpl in Hres |- *;
        [|discriminate].
      injection Hres as ->. failure_frame. left. auto.
    + rewrite (ConvertToMongoFilter_one Sprintf_v p opts c0 Hcols) in Hres |- *.
      destruct (validation _ _) as [e0|] eqn:Hv; simpl in Hres |- *.
      { injection Hres as ->. failure_frame. left. auto. }
      destruct (checkName c0 _) as [e0|] eqn:Hn; simpl in Hres |- *.
      { injection Hres as ->. failure_frame. left.
        split; [exact Hcols|]. right. exists c0. split; [|exact Hn].
        now apply list_elem_of_singleton. }
      destruct (convert Sprintf_v c0) as [c0' [e0|]] eqn:Hc;
        simpl in Hres |- *; [|discriminate].
      injection Hres as ->. failure_frame. right.
      exists [], c0, []. rewrite Hc. repeat split; try reflexivity.
      * repeat constructor. exact Hn.
      * constructor.
    + rewrite (ConvertToMongoFilter_two Sprintf_v p opts c0 c1 Hcols)
        in Hres |- *. cbv zeta in Hres |- *.
      destruct (validation _ _) as [e0|] eqn:Hv; simpl in Hres |- *.
      { injection Hres as ->. failure_frame. left. auto. }
      destruct (checkName c0 _) as [e0|] eqn:Hn0; simpl in Hres |- *.
      { injection Hres as ->. failure_frame. left.
        split; [exact Hcols|]. right. exists c0. split; [|exact Hn0].
        apply elem_of_cons. now left. }
      destruct (checkName c1 _) as [e0|] eqn:Hn1; simpl in Hres |- *.
      { injection Hres as ->. failure_frame. left.
        split; [exact Hcols|]. right. exists c1. split; [|exact Hn1].
        apply elem_of_cons. right. now apply list_elem_of_singleton. }
      destruct (convert Sprintf_v c0) as [c0' [e0|]] eqn:Hc0;
        simpl in Hres |- *.
      { injection Hres as ->. failure_frame. right.
        exists [], c0, [c1]. rewrite Hc0. repeat split; try reflexivity.
        - repeat constructor; assumption.
        - constructor. }
      destruct (convert Sprintf_v c1) as [c1' [e1|]] eqn:Hc1;
        simpl in Hres |- *.
      { injection Hres as ->. failure_frame. right.
        exists [c0], c1, []. rewrite Hc1. simpl map. rewrite Hc0.
        repeat split; try reflexivity.
        - repeat constructor; assumption.
        - repeat constructor. now rewrite Hc0. }
      destruct (String.eqb (Logic c0') andSymbol1); discriminate.
Qed.

(* ===================================================================== *)
(** * The pattern of a fuzzy match *)
(* ===================================================================== *)

Lemma special_backslash (c : ascii) :
  special c = false -> Ascii.eqb c "\"%char = false.
Proof.
  intros H. destruct (Ascii.eqb c "\"%char) eqn:E; [|reflexivity].
  apply Ascii.eqb_eq in E. subst c. discriminate.
Qed.

Lemma QuoteMeta_cons (c : ascii) (s : string) :
  QuoteMeta (String c s)
  = if special c then String "\"%char (String c (QuoteMeta s))
    else String c (QuoteMeta s).
Proof. reflexivity. Qed.

Lemma unquote_QuoteMeta (text : string) : unquote (QuoteMeta text) = text.
Proof.
  induction text as [|c s IH]; [reflexivity|].
  rewrite QuoteMeta_cons. destruct (special c) eqn:E.
  - cbn [unquote]. rewrite Ascii.eqb_refl. now rewrite IH.
  - cbn [unquote]. rewrite (special_backslash c E). now rewrite IH.
Qed.

Lemma escaped_QuoteMeta (text : string) : escaped (QuoteMeta text) = true.
Proof.
  induction text as [|c s IH]; [reflexivity|].
  rewrite QuoteMeta_cons. destruct (special c) eqn:E.
  - cbn [escaped]. rewrite Ascii.eqb_refl, E, IH. reflexivity.
  - cbn [escaped]. rewrite (special_backslash c E), E, IH. reflexivity.
Qed.

Lemma QuoteMeta_length (text : string) :
  String.length (QuoteMeta text)
  = String.length text + metacharacters text.
Proof.
  induction text as [|c s IH]; [reflexivity|].
  rewrite QuoteMeta_cons. destruct (special c) eqn:E;
    cbn [String.length metacharacters]; rewrite ?E, IH; lia.
Qed.

(** X17. The pattern of a fuzzy match. A column that [convert] accepts
    under [like] carries the document of [$regex] and of the option [i];
    dropping the escaping backslashes of the pattern gives back the text of
    the value, every metacharacter of the pattern is escaped, the pattern
    is longer than the text by the number of its metacharacters, and two
    columns have the same pattern only on the same text. *)
Theorem like_pattern (Sprintf_v : value -> string) (c c' : Column) :
  convert Sprintf_v c = (c', None) ->
  Exp c' = Like ->
  let text := Sprintf_v (Value (objectIDColumn c)) in
  exists pattern,
    Value c' = VM (<[ "$regex" := VString pattern ]>
                     {[ "$options" := VString "i" ]}) /\
    unquote pattern = text /\
    escaped pattern = true /\
    String.length pattern = String.length text + metacharacters text /\
    (forall d d', convert Sprintf_v d = (d', None) -> Exp d' = Like ->
       Value d' = Value c' ->
       Sprintf_v (Value (objectIDColumn d)) = text).
Proof.
  assert (Hval : forall d d', convert Sprintf_v d = (d', None) ->
            Exp d' = Like ->
            Value d' = VM (<[ "$regex" := VString
                                (QuoteMeta (Sprintf_v (Value (objectIDColumn d)))) ]>
                             {[ "$options" := VString "i" ]})).
  { intros d d' Hd Hl.
    destruct (convert_ok_steps Sprintf_v d d' Hd) as (v & c3 & _ & _ & Hv & Hlg).
    destruct (convertLogic_fields _ _ _ Hlg) as (_ & He & Hvl).
    destruct (convertValue_fields Sprintf_v _ _ _ Hv) as (_ & He3 & _).
    assert (Hlike : Exp (setExp (objectIDColumn d) v) = Like) by congruence.
    rewrite (convertValue_Like Sprintf_v _ Hlike) in Hv.
    injection Hv as <-. rewrite Hvl. reflexivity. }
  intros Hc Hl text. exists (QuoteMeta text).
  split; [exact (Hval c c' Hc Hl)|].
  split; [apply unquote_QuoteMeta|].
  split; [apply escaped_QuoteMeta|].
  split; [apply QuoteMeta_length|].
  intros d d' Hd Hdl Heq.
  rewrite (Hval d d' Hd Hdl), (Hval c c' Hc Hl) in Heq.
  assert (Hq : QuoteMeta (Sprintf_v (Value (objectIDColumn d)))
               = QuoteMeta text).
  { apply (f_equal (fun v => match v with
                             | VM m => m !! "$regex"
                             | _ => None
                             end)) in Heq.
    cbv beta iota in Heq. rewrite !lookup_insert_eq in Heq.
    injection Heq as Heq. exact Heq. }
  apply (f_equal unquote) in Hq. now rewrite !unquote_QuoteMeta in Hq.
Qed.

(* ===================================================================== *)
(** * The column behind an error *)
(* ===================================================================== *)

Section ErrorFacts.

Variable Sprintf_v : value -> string.

Lemma checkName_error (c : Column) (w : option (gmap string bool))
    (e : error) :
  checkName c w = Some e -> e = ErrNameNotAllowed (Name c).
Proof.
  unfold checkName. destruct (_ || _); [|discriminate]. congruence.
Qed.

Lemma checkName_named (c : Column) (w : option (gmap string bool)) :
  checkName c w = None -> Name c <> "".
Proof.
  unfold checkName. destruct (String.eqb (Name c) "") eqn:E;
    [discriminate|]. intros _. now apply String.eqb_neq.
Qed.

Lemma convertValue_error (c c' : Column) (e : error) :
  convertValue Sprintf_v c = (c', Some e) ->
  e = ErrInvalidValueType (Value c).
Proof.
  unfold convertValue. cbv zeta.
  repeat (match goal with
          | |- context [if ?b then _ else _] => destruct b
          end; try discriminate).
  all: destruct (Value c); try discriminate; congruence.
Qed.

Lemma convert_named_error (c : Column) :
  Name c <> "" -> snd (convert Sprintf_v c) <> Some ErrNameEmpty.
Proof.
  intros Hn. rewrite convert_eq. unfold checkValid.
  apply String.eqb_neq in Hn. rewrite Hn.
  assert (H : snd match expMap !! expKey c with
                  | Some v =>
                      match convertValue Sprintf_v (setExp (objectIDColumn c) v) with
                      | (c3, Some err) => (c3, Some err)
                      | (c3, None) => convertLogic c3
                      end
                  | None =>
                      (setExp (objectIDColumn c)
                         (if String.eqb (Exp c) "" then Eq else Exp c),
                       Some (ErrUnsupportedExp
                               (if String.eqb (Exp c) "" then Eq else Exp c)))
                  end <> Some ErrNameEmpty).
  { destruct (expMap !! expKey c) as [v|]; [|discriminate].
    destruct (convertValue _ _) as [c3 [e|]] eqn:Hv.
    - apply convertValue_error in Hv. subst e. discriminate.
    - rewrite convertLogic_eq. destruct (logicMap !! _); discriminate. }
  destruct (Value c); try exact H. discriminate.
Qed.

Lemma andColumns_error (w : option (gmap string bool))
    (columns : list Column) :
  forall filter f e,
  andColumns Sprintf_v w columns filter = Return f (Some e) ->
  exists c, c ∈ columns /\
    (checkName c w = Some e \/
     (checkName c w = None /\ snd (convert Sprintf_v c) = Some e)).
Proof.
  induction columns as [|c columns IH]; intros filter f e H; simpl in H.
  - discriminate.
  - destruct (checkName c w) as [e0|] eqn:Hn.
    { injection H as _ <-. exists c. split; [apply elem_of_cons; now left|].
      now left. }
    destruct (convert Sprintf_v c) as [c' [e0|]] eqn:Hc.
    { injection H as _ <-. exists c. split; [apply elem_of_cons; now left|].
      right. now rewrite Hc. }
    destruct (IH _ _ _ H) as (c0 & Hin & H0). exists c0.
    split; [apply elem_of_cons; now right | exact H0].
Qed.

End ErrorFacts.

(** X18. The column behind an error. Once the validation function, if
    any, has accepted the columns, an error of [ConvertToMongoFilter] on
    one or two columns, or on columns whose internal logic is all AND, is
    the error of [checkName] on one of the columns or, when the name of
    that column passed, of its [convert]; it is never the error for an
    empty name, which [checkName] reports before [convert] as a name that
    is not allowed. *)
Theorem error_of_a_column (Sprintf_v : value -> string)
    (p : Params) (opts : list RulerOption) (f : option bsonM) (e : error) :
  validation (optionsOf opts) p = None ->
  length (Columns p) <= 2 \/
  Forall (fun c => logicOf c = Some andSymbol1) (internal (Columns p)) ->
  snd (ConvertToMongoFilter Sprintf_v p opts) = Return f (Some e) ->
  let w := whitelistNames (optionsOf opts) in
  e <> ErrNameEmpty /\
  exists c, c ∈ Columns p /\
    (checkName c w = Some e \/
     (checkName c w = None /\ snd (convert Sprintf_v c) = Some e)).
Proof.
  intros Hv Hpath Hres w.
  assert (Hc : exists c, c ∈ Columns p /\
            (checkName c w = Some e \/
             (checkName c w = None /\ snd (convert Sprintf_v c) = Some e))).
  { subst w.
    destruct (le_lt_dec 3 (length (Columns p))) as [H3 | H3].
    - destruct Hpath as [Hlen | Hand]; [lia|].
      rewrite ConvertToMongoFilter_multi, Hv in Hres by exact H3.
      simpl in Hres.
      rewrite (convertMultiColumns_and _ _ _ (checkSameLogic_and _ Hand))
        in Hres.
      exact (andColumns_error _ _ _ _ _ _ Hres).
    - destruct (Columns p) as [|c0 [|c1 [|c2 rest]]] eqn:Hcols;
        [| | | simpl in H3; lia].
      + rewrite (ConvertToMongoFilter_none Sprintf_v p opts Hcols), Hv
          in Hres. discriminate.
      + rewrite (ConvertToMongoFilter_one Sprintf_v p opts c0 Hcols), Hv
          in Hres.
        destruct (checkName c0 _) as [e0|] eqn:Hn; simpl in Hres.
        { injection Hres as _ <-. exists c0.
          split; [now apply list_elem_of_singleton | now left]. }
        destruct (convert Sprintf_v c0) as [c0' [e0|]] eqn:Hc0;
          simpl in Hres; [|discriminate].
        injection Hres as _ <-. exists c0.
        split; [now apply list_elem_of_singleton|]. right. now rewrite Hc0.
      + rewrite (ConvertToMongoFilter_two Sprintf_v p opts c0 c1 Hcols), Hv
          in Hres. cbv zeta in Hres.
        destruct (checkName c0 _) as [e0|] eqn:Hn0; simpl in Hres.
        { injection Hres as _ <-. exists c0.
          split; [apply elem_of_cons; now left | now left]. }
        destruct (checkName c1 _) as [e0|] eqn:Hn1; simpl in Hres.
        { injection Hres as _ <-. exists c1.
          split; [|now left]. apply elem_of_cons. right.
          now apply list_elem_of_singleton. }
        destruct (convert Sprintf_v c0) as [c0' [e0|]] eqn:Hc0;
          simpl in Hres.
        { injection Hres as _ <-. exists c0.
          split; [apply elem_of_cons; now left|]. right. now rewrite Hc0. }
        destruct (convert Sprintf_v c1) as [c1' [e1|]] eqn:Hc1;
          simpl in Hres.
        { injection Hres as _ <-. exists c1.
          split; [|right; now rewrite Hc1]. apply elem_of_cons. right.
          now apply list_elem_of_singleton. }
        destruct (String.eqb (Logic c0') andSymbol1); discriminate. }
  split; [|exact Hc].
  destruct Hc as (c & _ & [Hn | [Hn Hcv]]).
  - apply checkName_error in Hn. subst e. discriminate.
  - intros ->. exact (convert_named_error Sprintf_v c
                        (checkName_named c w Hn) Hcv).
Qed.

(* ===================================================================== *)
(** * Aliases of the tokens *)
(* ===================================================================== *)

Section Aliases.

Variable Sprintf_v : value -> string.

(** A column with a name and a value converts as soon as its operator and
    its logic are known, unless the operator is [in] or [nin] and the value
    is not a plain string. *)
Lemma convert_succeeds (c : Column) (sym : string) :
  checkValid c = None ->
  expMap !! expKey c = Some sym ->
  is_Some (logicOf c) ->
  (sym ∈ [In; NotIn] ->
   exists str, Value c = VString str /\ isObjectID (Value c) = None) ->
  snd (convert Sprintf_v c) = None.
Proof.
  intros Hc Hsym [l Hlog] Hset. rewrite convert_eq, Hc, Hsym.
  assert (Hval : snd (convertValue Sprintf_v (setExp (objectIDColumn c) sym))
                 = None).
  { pose proof (expMap_symbols _ _ Hsym) as Hs.
    destruct (decide (sym ∈ [In; NotIn])) as [Hin | Hin].
    - destruct (Hset Hin) as (str & Hv & Hid).
      rewrite (convertValue_set _ (setExp (objectIDColumn c) sym) sym eq_refl Hin).
      rewrite (objectIDColumn_id c Hid). simpl Value. now rewrite Hv.
    - apply convertValue_total. simpl Exp.
      repeat (apply elem_of_cons in Hs as [-> | Hs];
              [first [ repeat constructor; fail
                     | exfalso; apply Hin; repeat constructor ] |]).
      now apply elem_of_nil in Hs. }
  destruct (convertValue _ _) as [c3 [e|]] eqn:E3; [discriminate|].
  apply convertValue_fields in E3 as (_ & _ & E3). simpl in E3.
  rewrite (convertLogic_of c3 l); [reflexivity|].
  rewrite <- Hlog. apply logicOf_ext. now rewrite E3, objectIDColumn_Logic.
Qed.

(** The errors of [convert] by the step that gives them. *)
Lemma convert_error (c : Column) (e : error) :
  snd (convert Sprintf_v c) = Some e ->
  e = ErrNameEmpty \/ e = ErrValueNil \/
  (expMap !! expKey c = None /\ exists x, e = ErrUnsupportedExp x) \/
  (exists x, e = ErrInvalidValueType x) \/
  (logicOf c = None /\ exists x, e = ErrUnknownLogic x).
Proof.
  rewrite convert_eq. unfold checkValid.
  destruct (String.eqb (Name c) ""); [intros H; injection H as <-; auto|].
  assert (H : snd match expMap !! expKey c with
                  | Some v =>
                      match convertValue Sprintf_v (setExp (objectIDColumn c) v) with
                      | (c3, Some err) => (c3, Some err)
                      | (c3, None) => convertLogic c3
                      end
                  | None =>
                      (setExp (objectIDColumn c)
                         (if String.eqb (Exp c) "" then Eq else Exp c),
                       Some (ErrUnsupportedExp
                               (if String.eqb (Exp c) "" then Eq else Exp c)))
                  end = Some e ->
              (expMap !! expKey c = None /\ exists x, e = ErrUnsupportedExp x) \/
              (exists x, e = ErrInvalidValueType x) \/
              (logicOf c = None /\ exists x, e = ErrUnknownLogic x)).
  { destruct (expMap !! expKey c) as [v|];
      [|intros H; injection H as <-; eauto].
    destruct (convertValue _ _) as [c3 [e3|]] eqn:Hv.
    - apply convertValue_error in Hv. intros H. injection H as <-. eauto.
    - apply convertValue_fields in Hv as (_ & _ & Hl). simpl in Hl.
      assert (Hlog : logicOf c3 = logicOf c)
        by (apply logicOf_ext; now rewrite Hl, objectIDColumn_Logic).
      rewrite convertLogic_eq, <- logicOf_eq, Hlog.
      destruct (logicOf c); [discriminate|].
      intros H. injection H as <-. eauto. }
  destruct (Value c); try (intros H0; right; right; exact (H H0)).
  intros H0. injection H0 as <-. auto.
Qed.

Lemma alias_key (s a : string) : ToLower s = a -> a <> "" -> s <> "".
Proof. intros H Ha. apply ToLower_nonempty. now rewrite H. Qed.

Lemma expAliases_symbol (a t : string) :
  (a, t) ∈ expAliases ->
  a <> "" /\
  exists sym, expMap !! t = Some sym /\ expMap !! a = Some sym /\ sym <> In.
Proof.
  intros Hin. unfold expAliases in Hin.
  repeat (apply elem_of_cons in Hin as [Hin | Hin];
          [injection Hin as -> ->; split; [discriminate|];
           eexists; split; [reflexivity|]; split; [reflexivity | discriminate]
          |]).
  now apply elem_of_nil in Hin.
Qed.

Lemma logicAliases_symbol (a t : string) :
  (a, t) ∈ logicAliases ->
  a <> "" /\
  exists sym, logicMap !! t = Some sym /\ logicMap !! a = Some sym.
Proof.
  intros Hin. unfold logicAliases in Hin.
  repeat (apply elem_of_cons in Hin as [Hin | Hin];
          [injection Hin as -> ->; split; [discriminate|];
           eexists; split; reflexivity |]).
  now apply elem_of_nil in Hin.
Qed.

End Aliases.

(** C10. Aliases of the operator and logic tokens. An operator spelt, in
    any mix of upper and lower case, as one of the symbols [=], [!=], [>],
    [>=], [<], [<=] or as [notin] or [not in] is accepted by [convert]: it
    is looked up as the symbol [sym] that the table gives for the named
    token [eq], [neq], [gt], [gte], [lt], [lte], [nin], the error of
    [convert] is never that of an operator that is not supported, a
    conversion that succeeds leaves [sym] as operator, and the conversion
    does succeed on a column with a name, a value and a known logic (under
    [notin] and [not in], a value that is a string and no identifier); its
    result is that of the named token. Likewise a logic spelt [&], [&&],
    [|] or [||] is normalised by [convertLogic] to the symbol of [and],
    respectively [or]: the error of [convert] is never that of a logic that
    is not known, a conversion that succeeds leaves this symbol as logic,
    the conversion does succeed on a column with a name, a value and a
    known operator, and its result is that of the named token. *)
Theorem convert_alias (Sprintf_v : value -> string)
    (n e l : string) (v : value) (s a t : string) :
  ToLower s = a ->
  ((a, t) ∈ expAliases ->
   let c := mkColumn n s v l in
   exists sym,
     expMap !! t = Some sym /\
     expMap !! expKey c = Some sym /\
     (forall x, snd (convert Sprintf_v c) <> Some (ErrUnsupportedExp x)) /\
     (forall c', convert Sprintf_v c = (c', None) -> Exp c' = sym) /\
     (n <> "" -> v <> VNil -> is_Some (logicOf c) ->
      (sym = NotIn -> exists str, v = VString str /\ isObjectID v = None) ->
      snd (convert Sprintf_v c) = None) /\
     sameResult (convert Sprintf_v c) (convert Sprintf_v (mkColumn n t v l))) /\
  ((a, t) ∈ logicAliases ->
   let c := mkColumn n e v s in
   exists sym,
     logicMap !! t = Some sym /\
     convertLogic c = (mkColumn n e v sym, None) /\
     (forall x, snd (convert Sprintf_v c) <> Some (ErrUnknownLogic x)) /\
     (forall c', convert Sprintf_v c = (c', None) -> Logic c' = sym) /\
     (n <> "" -> v <> VNil ->
      forall op, expMap !! expKey c = Some op ->
      (op ∈ [In; NotIn] -> exists str, v = VString str /\ isObjectID v = None) ->
      snd (convert Sprintf_v c) = None) /\
     sameResult (convert Sprintf_v c) (convert Sprintf_v (mkColumn n e v t))).
Proof.
  intros Hs.
  assert (Hvalid : forall c : Column,
            Name c <> "" -> Value c <> VNil -> checkValid c = None).
  { intros c Hn Hv. unfold checkValid. apply String.eqb_neq in Hn.
    rewrite Hn. destruct (Value c); try reflexivity. now contradiction Hv. }
  split; intros Hin c.
  - destruct (expAliases_symbol a t Hin) as (Ha & sym & Ht & Hsym & Hne).
    assert (Hkey : expMap !! expKey c = Some sym).
    { unfold c. rewrite expKey_nonempty by (simpl; now apply (alias_key s a)).
      simpl Exp. now rewrite Hs. }
    exists sym. split; [exact Ht|]. split; [exact Hkey|].
    split; [|split; [|split]].
    + intros x Hx.
      destruct (convert_error Sprintf_v c _ Hx)
        as [H | [H | [[H _] | [[y H] | [_ [y H]]]]]];
        try discriminate. rewrite Hkey in H. discriminate.
    + intros c' Hc'. apply convert_ok_value in Hc' as (_ & Hc' & _).
      rewrite Hkey in Hc'. now injection Hc'.
    + intros Hn Hv Hl Hset.
      apply (convert_succeeds Sprintf_v c sym);
        [now apply Hvalid | exact Hkey | exact Hl |].
      intros Hsym'. apply Hset.
      apply elem_of_cons in Hsym' as [-> | Hsym']; [now contradiction Hne|].
      now apply list_elem_of_singleton in Hsym'.
    + exact (proj1 (alias_same_result Sprintf_v n e l v s a t Hs) Hin).
  - destruct (logicAliases_symbol a t Hin) as (Ha & sym & Ht & Hsym).
    assert (Hlog : logicOf c = Some sym).
    { unfold c.
      change (mkColumn n e v s) with (setLogic (mkColumn n e v "") s).
      rewrite logicOf_setLogic by now apply (alias_key s a).
      now rewrite Hs. }
    exists sym. split; [exact Ht|].
    split; [exact (convertLogic_of c sym Hlog)|].
    split; [|split; [|split]].
    + intros x Hx.
      destruct (convert_error Sprintf_v c _ Hx)
        as [H | [H | [[_ [y H]] | [[y H] | [H _]]]]];
        try discriminate. rewrite Hlog in H. discriminate.
    + intros c' Hc'. apply convert_ok_logic in Hc'.
      rewrite Hlog in Hc'. now injection Hc'.
    + intros Hn Hv op Hop Hset.
      apply (convert_succeeds Sprintf_v c op);
        [now apply Hvalid | exact Hop | now rewrite Hlog | exact Hset].
    + exact (proj2 (alias_same_result Sprintf_v n e l v s a t Hs) Hin).
Qed.

(* ===================================================================== *)
(** * The last column is converted like the others *)
(* ===================================================================== *)

(** The index that [groupingIndex] keeps after its loop: one of the marks,
    or as many as there are marks when they are the first indexes. *)
Lemma groupingFrom_after (orIndexes : list nat) :
  forall (groupIndexes : list (list nat)) (lastIndex : nat),
  StronglySorted lt orIndexes ->
  Forall (fun i => lastIndex < i) orIndexes ->
  (orIndexes = [] /\ snd (groupingFrom orIndexes groupIndexes lastIndex) = lastIndex)
  \/ snd (groupingFrom orIndexes groupIndexes lastIndex) ∈ orIndexes.
Proof.
  induction orIndexes as [|i rest IH]; intros groups lastIndex Hs Hb;
    [left; auto|].
  right. apply Forall_cons in Hb as [Hi Hb].
  apply StronglySorted_inv in Hs as [Hs Hlt]. simpl groupingFrom.
  replace (lastIndex =? i)%nat with false by (symmetry; apply Nat.eqb_neq; lia).
  destruct (IH (groups ++ [seq lastIndex (S i - lastIndex)])%list i Hs Hlt)
    as [[-> H] | H].
  - simpl. now apply list_elem_of_singleton.
  - apply elem_of_cons. now right.
Qed.

Lemma groupingFrom_lastIndex (orIndexes : list nat) :
  forall (groupIndexes : list (list nat)) (lastIndex : nat),
  StronglySorted lt orIndexes ->
  Forall (fun i => lastIndex <= i) orIndexes ->
  snd (groupingFrom orIndexes groupIndexes lastIndex)
  <= lastIndex + length orIndexes
  \/ snd (groupingFrom orIndexes groupIndexes lastIndex) ∈ orIndexes.
Proof.
  induction orIndexes as [|i rest IH]; intros groups lastIndex Hs Hb;
    [left; simpl; lia|].
  apply Forall_cons in Hb as [Hi Hb].
  apply StronglySorted_inv in Hs as [Hs Hlt]. simpl groupingFrom.
  destruct (lastIndex =? i)%nat eqn:E.
  - apply Nat.eqb_eq in E. subst i.
    destruct (IH (groups ++ [seq lastIndex (S lastIndex - lastIndex)])%list
                (S lastIndex) Hs) as [H | H].
    + eapply Forall_impl; [exact Hlt|]. intros x Hx. simpl in Hx. lia.
    + left. simpl length. lia.
    + right. apply elem_of_cons. now right.
  - right.
    destruct (groupingFrom_after rest
                (groups ++ [seq lastIndex (S i - lastIndex)])%list i Hs Hlt)
      as [[-> H] | H].
    + simpl. now apply list_elem_of_singleton.
    + apply elem_of_cons. now right.
Qed.

(** On mixed logic the last column is in the last group. *)
Lemma last_in_groups (columns : list Column) (groupIndexes : list (list nat)) :
  checkSameLogic columns = (0, groupIndexes, None) ->
  length columns - 1 ∈ concat groupIndexes.
Proof.
  unfold checkSameLogic.
  destruct (orIndexesFrom _ _ _ _) as [found | err] eqn:E; [|discriminate].
  pose proof (orIndexesFrom_sorted columns (length columns) 0 [] found
                eq_refl ltac:(constructor) ltac:(constructor) E) as [Hs Hb].
  pose proof (orIndexesFrom_length columns (length columns) 0 [] found
                eq_refl E) as Hlen. simpl in Hlen.
  destruct (length found =? 0)%nat eqn:E0; [discriminate|].
  destruct (length found =? length columns - 1)%nat eqn:E1; [discriminate|].
  apply Nat.eqb_neq in E0, E1.
  intros H. injection H as <-. unfold groupingIndex.
  assert (Hlast : snd (groupingFrom found [] 0) + 1 < length columns).
  { destruct (groupingFrom_lastIndex found [] 0 Hs) as [H | H].
    - apply Forall_forall. intros x _. lia.
    - lia.
    - rewrite Forall_forall in Hb. specialize (Hb _ H). simpl in Hb. lia. }
  destruct (groupingFrom found [] 0) as [groups lastIndex]. simpl in Hlast.
  rewrite concat_app. apply elem_of_app. right. simpl concat.
  rewrite app_nil_r. apply elem_of_seq. lia.
Qed.

Section LastColumn.

Variable Sprintf_v : value -> string.

(** A logic that is not known, on a column that converts with a logic
    that is known. *)
Lemma unknown_logic_error (c : Column) (l0 l : string) :
  logicOf (setLogic c l) = None ->
  snd (convert Sprintf_v (setLogic c l0)) = None ->
  snd (convert Sprintf_v (setLogic c l)) = Some (ErrUnknownLogic l).
Proof.
  intros Hl H0. rewrite convert_eq in H0 |- *.
  change (checkValid (setLogic c l0)) with (checkValid c) in H0.
  change (checkValid (setLogic c l)) with (checkValid c).
  change (expKey (setLogic c l0)) with (expKey c) in H0.
  change (expKey (setLogic c l)) with (expKey c).
  destruct (checkValid c); [discriminate|].
  rewrite objectIDColumn_setLogic in H0 |- *.
  destruct (expMap !! expKey c) as [v|]; [|discriminate].
  change (setExp (setLogic (objectIDColumn c) l0) v)
    with (setLogic (setExp (objectIDColumn c) v) l0) in H0.
  change (setExp (setLogic (objectIDColumn c) l) v)
    with (setLogic (setExp (objectIDColumn c) v) l).
  rewrite convertValue_setLogic in H0 |- *.
  destruct (convertValue Sprintf_v (setExp (objectIDColumn c) v)) as [c3 [e|]];
    simpl fst in *; simpl snd in *; [discriminate|].
  assert (Hl3 : logicOf (setLogic c3 l) = None)
    by (rewrite <- Hl; now apply logicOf_ext).
  rewrite convertLogic_eq. rewrite logicOf_eq in Hl3. rewrite Hl3.
  simpl Logic. simpl snd.
  destruct (String.eqb l "") eqn:E; [|reflexivity].
  apply String.eqb_eq in E. subst l. discriminate.
Qed.

Variables (columns : list Column) (x0 x : Column) (e : error).

Hypothesis converted :
  snd (convert Sprintf_v x0) = None -> snd (convert Sprintf_v x) = Some e.

Lemma lookup_last : (columns ++ [x])%list !! length columns = Some x.
Proof. now apply list_lookup_middle. Qed.

Lemma lookup_not_last (y1 y2 : Column) (i : nat) :
  i <> length columns ->
  (columns ++ [y1])%list !! i = (columns ++ [y2])%list !! i.
Proof.
  intros Hi. destruct (lt_dec i (length columns)) as [H | H].
  - now rewrite !lookup_app_l.
  - rewrite !lookup_ge_None_2; [reflexivity | |];
      rewrite length_app; simpl; lia.
Qed.

Lemma andColumns_last (w : option (gmap string bool)) :
  checkName x w = checkName x0 w ->
  forall cols filter f,
  andColumns Sprintf_v w (cols ++ [x0]) filter = Return (Some f) None ->
  andColumns Sprintf_v w (cols ++ [x]) filter = Return None (Some e).
Proof.
  intros Hn. induction cols as [|a cols IH]; intros filter f; simpl.
  - rewrite Hn. destruct (checkName x0 w); [discriminate|].
    destruct (convert Sprintf_v x0) as [x0' [e0|]]; [discriminate|].
    intros _. specialize (converted eq_refl).
    destruct (convert Sprintf_v x) as [x' [e'|]]; simpl in converted;
      congruence.
  - destruct (checkName a w); [discriminate|].
    destruct (convert Sprintf_v a) as [a' [ea|]]; [discriminate|]. apply IH.
Qed.

Lemma orColumns_last :
  forall cols filter f,
  orColumns Sprintf_v (cols ++ [x0]) filter = Return (Some f) None ->
  orColumns Sprintf_v (cols ++ [x]) filter = Return None (Some e).
Proof.
  induction cols as [|a cols IH]; intros filter f; simpl.
  - destruct (convert Sprintf_v x0) as [x0' [e0|]]; [discriminate|].
    intros _. specialize (converted eq_refl).
    destruct (convert Sprintf_v x) as [x' [e'|]]; simpl in converted;
      congruence.
  - destruct (convert Sprintf_v a) as [a' [ea|]]; [discriminate|]. apply IH.
Qed.

Lemma andConditionsOf_last (indexes : list nat) :
  forall andConditions conds,
  andConditionsOf Sprintf_v (columns ++ [x0]) indexes andConditions = inr conds ->
  (length columns ∈ indexes ->
   andConditionsOf Sprintf_v (columns ++ [x]) indexes andConditions
   = inl (Return None (Some e))) /\
  (length columns ∉ indexes ->
   andConditionsOf Sprintf_v (columns ++ [x]) indexes andConditions = inr conds).
Proof.
  induction indexes as [|i indexes IH]; intros acc conds H.
  - split; [intros Hin; now apply elem_of_nil in Hin | intros _; exact H].
  - simpl in H |- *.
    destruct (Nat.eq_dec i (length columns)) as [-> | Hi].
    + rewrite lookup_last. rewrite (list_lookup_middle columns [] x0 _ eq_refl) in H.
      destruct (convert Sprintf_v x0) as [x0' [e0|]]; [discriminate|].
      specialize (converted eq_refl).
      destruct (convert Sprintf_v x) as [x' [e'|]]; simpl in converted;
        [|discriminate].
      split; [intros _; congruence|].
      intros Hnot. exfalso. apply Hnot, elem_of_cons. now left.
    + rewrite (lookup_not_last x x0 i Hi).
      destruct ((columns ++ [x0])%list !! i) as [a|]; [|discriminate].
      destruct (convert Sprintf_v a) as [a' [ea|]]; [discriminate|].
      destruct (IH _ _ H) as [IH1 IH2]. split.
      * intros Hin. apply IH1. apply elem_of_cons in Hin as [Hin | Hin];
          [congruence | exact Hin].
      * intros Hnot. apply IH2. intros Hin. apply Hnot, elem_of_cons.
        now right.
Qed.

Lemma orConditionsOf_last (groupIndexes : list (list nat)) :
  forall orConditions f,
  orConditionsOf Sprintf_v (columns ++ [x0]) groupIndexes orConditions
  = Return (Some f) None ->
  length columns ∈ concat groupIndexes ->
  orConditionsOf Sprintf_v (columns ++ [x]) groupIndexes orConditions
  = Return None (Some e).
Proof.
  induction groupIndexes as [|g groups IH]; intros acc f H Hin.
  - now apply elem_of_nil in Hin.
  - simpl in H, Hin |- *. apply elem_of_app in Hin.
    destruct (length g =? 1)%nat eqn:E.
    + destruct g as [|i [|j g]]; try discriminate. simpl in H |- *.
      destruct (Nat.eq_dec i (length columns)) as [-> | Hi].
      * rewrite lookup_last.
        rewrite (list_lookup_middle columns [] x0 _ eq_refl) in H.
        destruct (convert Sprintf_v x0) as [x0' [e0|]]; [discriminate|].
        specialize (converted eq_refl).
        destruct (convert Sprintf_v x) as [x' [e'|]]; simpl in converted;
          congruence.
      * rewrite (lookup_not_last x x0 i Hi).
        destruct ((columns ++ [x0])%list !! i) as [a|]; [|discriminate].
        destruct (convert Sprintf_v a) as [a' [ea|]]; [discriminate|].
        apply (IH _ _ H). destruct Hin as [Hin | Hin]; [|exact Hin].
        apply list_elem_of_singleton in Hin. congruence.
    + destruct (andConditionsOf Sprintf_v (columns ++ [x0]) g [])
        as [o | conds] eqn:Ha.
      { destruct (andConditionsOf_inl Sprintf_v _ _ _ _ Ha) as [-> | [e0 ->]];
          discriminate. }
      destruct (andConditionsOf_last g [] conds Ha) as [H1 H2].
      destruct (decide (length columns ∈ g)) as [Hg | Hg].
      * now rewrite (H1 Hg).
      * rewrite (H2 Hg). apply (IH _ _ H).
        destruct Hin as [Hin | Hin]; [now contradiction Hg | exact Hin].
Qed.

End LastColumn.

(** C3, as the code has it. Without a validation function, the logic of
    the last column takes no part in the grouping, and as long as it is a
    token that is known (or empty) it changes neither the filter nor the
    error; but [convert] normalises it as on every column, so that on
    columns that a call accepts with the logic of the last column left
    empty, a logic of the last column that is not known makes the call fail
    with the error of this logic. *)
Theorem last_logic_validated (Sprintf_v : value -> string)
    (p : Params) (opts : list RulerOption)
    (columns : list Column) (c : Column) :
  validateFn (optionsOf opts) = None ->
  let call (l : string) :=
    snd (ConvertToMongoFilter Sprintf_v
           (setColumns p (columns ++ [setLogic c l])) opts) in
  (forall l1 l2,
     checkSameLogic (columns ++ [setLogic c l1])
     = checkSameLogic (columns ++ [setLogic c l2])) /\
  (forall l1 l2,
     is_Some (logicOf (setLogic c l1)) -> is_Some (logicOf (setLogic c l2)) ->
     call l1 = call l2) /\
  (forall l f,
     logicOf (setLogic c l) = None ->
     call "" = Return (Some f) None ->
     call l = Return None (Some (ErrUnknownLogic l))).
Proof.
  intros Hv call. subst call. cbv beta.
  split; [intros l1 l2; apply checkSameLogic_last|].
  split.
  { intros l1 l2 H1 H2. apply last_column_alike; [exact Hv|].
    now apply alike_setLogic. }
  intros l f Hl.
  set (x0 := setLogic c ""). set (x := setLogic c l).
  pose proof (unknown_logic_error Sprintf_v c "" l Hl) as Hx.
  fold x0 x in Hx.
  assert (Hval : forall q, validation (optionsOf opts) q = None)
    by (intros q; unfold validation; now rewrite Hv).
  assert (Hname : forall w, checkName x w = checkName x0 w) by reflexivity.
  destruct (le_lt_dec 2 (length columns)) as [Hlen | Hlen].
  - rewrite !ConvertToMongoFilter_multi, !Hval
      by (simpl; rewrite length_app; simpl; lia).
    simpl snd. unfold convertMultiColumns. simpl Columns.
    rewrite (checkSameLogic_last columns x x0).
    destruct (checkSameLogic (columns ++ [x0]))
      as [[logicType groups] [e0|]] eqn:Hs; [discriminate|].
    destruct (checkSameLogic_type _ _ _ _ Hs) as [-> | [-> | ->]]; simpl.
    + intros H. apply (orConditionsOf_last Sprintf_v columns x0 x _ Hx _ _ _ H).
      apply last_in_groups in Hs. rewrite length_app in Hs. simpl in Hs.
      now replace (length columns + 1 - 1) with (length columns) in Hs by lia.
    + apply (andColumns_last Sprintf_v x0 x _ Hx _ (Hname _)).
    + apply (orColumns_last Sprintf_v x0 x _ Hx).
  - destruct columns as [|c0 [|c1 columns']]; simpl in Hlen; try lia.
    + simpl app.
      rewrite (ConvertToMongoFilter_one _ (setColumns p [x0]) _ x0 eq_refl),
              (ConvertToMongoFilter_one _ (setColumns p [x]) _ x eq_refl),
              !Hval.
      rewrite (Hname _). destruct (checkName x0 _); [discriminate|].
      destruct (convert Sprintf_v x0) as [x0' [e0|]]; [discriminate|].
      specialize (Hx eq_refl).
      destruct (convert Sprintf_v x) as [x' [e'|]]; simpl in Hx |- *;
        [intros _; congruence | discriminate].
    + simpl app.
      rewrite (ConvertToMongoFilter_two _ (setColumns p [c0; x0]) _ c0 x0 eq_refl),
              (ConvertToMongoFilter_two _ (setColumns p [c0; x]) _ c0 x eq_refl),
              !Hval.
      cbv zeta. destruct (checkName c0 _); [discriminate|].
      rewrite (Hname _). destruct (checkName x0 _); [discriminate|].
      destruct (convert Sprintf_v c0) as [c0' [e0|]]; [discriminate|].
      destruct (convert Sprintf_v x0) as [x0' [e1|]]; [discriminate|].
      specialize (Hx eq_refl).
      destruct (convert Sprintf_v x) as [x' [e'|]]; simpl in Hx |- *;
        [intros _; congruence | discriminate].
Qed.

End Translator.

(* ===================================================================== *)
(** * The theorems at concrete columns *)
(* ===================================================================== *)

(** C3 fails as stated: a logic of the last column that is not known
    makes the call fail, on one column and on three, where the same
    columns with a known token succeed. *)
Lemma last_logic_is_checked :
  let one (logic : string) := paramsOf [ mkColumn "a" "eq" (VInt 1) logic ] in
  let three (logic : string) :=
    paramsOf [ mkColumn "a" "eq" (VInt 1) "and";
               mkColumn "b" "eq" (VInt 2) "and";
               mkColumn "c" "eq" (VInt 3) logic ] in
  snd (ConvertToMongoFilter keepRunes fmtValue (one "and") [])
  = Return (Some {[ "a" := VInt 1 ]}) None /\
  snd (ConvertToMongoFilter keepRunes fmtValue (one "xor") [])
  = Return None (Some (ErrUnknownLogic "xor")) /\
  snd (ConvertToMongoFilter keepRunes fmtValue (three "or") [])
  = Return (Some {[ "$and" := VMs [ {[ "a" := VInt 1 ]};
                                    {[ "b" := VInt 2 ]};
                                    {[ "c" := VInt 3 ]} ] ]}) None /\
  snd (ConvertToMongoFilter keepRunes fmtValue (three "xor") [])
  = Return None (Some (ErrUnknownLogic "xor")).
Proof. repeat split; vm_compute; reflexivity. Qed.

(** C4 fails as stated: on one column the fast path returns the bare
    predicate and [convertMultiColumns] a group [$and] around it; on two
    columns the two report different errors when the first has no value
    and the second no name. *)
Lemma fast_paths_differ :
  let p1 := paramsOf [ mkColumn "a" "eq" (VInt 1) "" ] in
  let p2 := paramsOf [ mkColumn "a" "eq" VNil ""; mkColumn "" "eq" (VInt 1) "" ] in
  (snd (ConvertToMongoFilter keepRunes fmtValue p1 [])
   = Return (Some {[ "a" := VInt 1 ]}) None /\
   convertMultiColumns keepRunes fmtValue p1 None
   = Return (Some {[ "$and" := VMs [ {[ "a" := VInt 1 ]} ] ]}) None /\
   snd (ConvertToMongoFilter keepRunes fmtValue p1 [])
   <> convertMultiColumns keepRunes fmtValue p1 None) /\
  (snd (ConvertToMongoFilter keepRunes fmtValue p2 [])
   = Return None (Some (ErrNameNotAllowed "")) /\
   convertMultiColumns keepRunes fmtValue p2 None = Return None (Some ErrValueNil)).
Proof.
  repeat split; try (vm_compute; reflexivity).
  intros H. apply (f_equal (entryOf "a")) in H. vm_compute in H. discriminate.
Qed.

(** C6 fails as stated: on three columns the call succeeds and leaves
    the columns as they came in, which are not the normalised ones; and on
    the one column [id = exampleHex] it changes the name as well. *)
Lemma columns_left_unconverted :
  let p := paramsOf [ mkColumn "a" "eq" (VInt 1) "and";
                      mkColumn "b" "eq" (VInt 2) "and";
                      mkColumn "c" "eq" (VInt 3) "and" ] in
  let p1 := paramsOf [ mkColumn "id" "eq" (VString exampleHex) "" ] in
  snd (ConvertToMongoFilter keepRunes fmtValue p [])
  = Return (Some {[ "$and" := VMs [ {[ "a" := VInt 1 ]};
                                    {[ "b" := VInt 2 ]};
                                    {[ "c" := VInt 3 ]} ] ]}) None /\
  Columns (fst (ConvertToMongoFilter keepRunes fmtValue p [])) = Columns p /\
  fst (convert keepRunes fmtValue (mkColumn "a" "eq" (VInt 1) "and"))
  = mkColumn "a" "=" (VInt 1) "&" /\
  Columns (fst (ConvertToMongoFilter keepRunes fmtValue p []))
  <> map (fun c => fst (convert keepRunes fmtValue c)) (Columns p) /\
  ConvertToMongoFilter keepRunes fmtValue p1 []
  = (paramsOf [ mkColumn "_id" "=" (VObjectID exampleOID) "&" ],
     Return (Some {[ "_id" := VObjectID exampleOID ]}) None).
Proof.
  repeat split; try (vm_compute; reflexivity).
  intros H. vm_compute in H. discriminate.
Qed.

(** C7 fails as stated: a column without a name whose value is the
    identifier of the example is rejected by [checkValid], and [convert]
    leaves the string where it was; and with the operator [neq] the value
    that [convert] leaves is the identifier under [$ne], not the
    identifier. *)
Lemma objectID_without_name :
  let c := mkColumn "" "eq" (VString exampleHex) "" in
  let c' := mkColumn "id" "neq" (VString exampleHex) "" in
  String.length exampleHex = 24 /\
  ObjectIDFromHex exampleHex = Some exampleOID /\
  convert keepRunes fmtValue c = (c, Some ErrNameEmpty) /\
  Value (fst (convert keepRunes fmtValue c)) = VString exampleHex /\
  convert keepRunes fmtValue c'
  = (mkColumn "_id" "!=" (VM {[ "$ne" := VObjectID exampleOID ]}) "&", None).
Proof. repeat split; vm_compute; reflexivity. Qed.

(** C8 fails as stated: one column, whose internal logic values are none,
    gives the bare predicate and no group; and two columns joined by AND
    give no group when the second has no value. *)
Lemma single_logic_without_group :
  let p1 := paramsOf [ mkColumn "a" "eq" (VInt 1) "and" ] in
  let p2 := paramsOf [ mkColumn "a" "eq" (VInt 1) "and";
                       mkColumn "b" "eq" VNil "" ] in
  (Forall (fun c => logicOf keepRunes c = Some andSymbol1) (internal (Columns p1)) /\
   snd (ConvertToMongoFilter keepRunes fmtValue p1 [])
   = Return (Some {[ "a" := VInt 1 ]}) None /\
   ({[ "a" := VInt 1 ]} : bsonM)
   <> {[ "$and" := VMs (map (normalized keepRunes fmtValue) (Columns p1)) ]}) /\
  (Forall (fun c => logicOf keepRunes c = Some andSymbol1) (internal (Columns p2)) /\
   snd (ConvertToMongoFilter keepRunes fmtValue p2 []) = Return None (Some ErrValueNil)).
Proof.
  repeat split; try (vm_compute; reflexivity).
  - constructor.
  - intros H. apply (f_equal (fun f : bsonM => f !! "a")) in H.
    vm_compute in H. discriminate.
  - repeat constructor.
Qed.

(** C9 fails as stated: the value of the column is a string, the operator
    is [in], and [convert] returns the type error, for the string is an
    object identifier. A column without a name, or with no value, is
    refused for that and not for the type of its value. And on three
    columns of mixed logic the call succeeds although [convert] rejects the
    second, which [groupingIndex] has left out. *)
Lemma set_operator_on_identifier :
  let c := mkColumn "id" "in" (VString exampleHex) "" in
  let b := mkColumn "b" "in" (VInt 5) "and" in
  (expMap !! expKey keepRunes c = Some In /\
   Value c = VString exampleHex /\
   convert keepRunes fmtValue c
   = (mkColumn "_id" "in" (VObjectID exampleOID) "",
      Some (ErrInvalidValueType (VObjectID exampleOID)))) /\
  snd (convert keepRunes fmtValue (mkColumn "" "in" (VInt 5) "")) = Some ErrNameEmpty /\
  snd (convert keepRunes fmtValue (mkColumn "a" "in" VNil "")) = Some ErrValueNil /\
  snd (convert keepRunes fmtValue b) = Some (ErrInvalidValueType (VInt 5)) /\
  snd (ConvertToMongoFilter keepRunes fmtValue
         (paramsOf [ mkColumn "a" "eq" (VInt 1) "or"; b;
                     mkColumn "c" "eq" (VInt 3) "and" ]) [])
  = Return (Some {[ "$or" := VMs [ {[ "a" := VInt 1 ]};
                                   {[ "c" := VInt 3 ]} ] ]}) None.
Proof. repeat split; vm_compute; reflexivity. Qed.

(** The column [id = exampleHex] of the specification. *)
Lemma convert_objectID_witness :
  let c := mkColumn "id" "eq" (VString exampleHex) "" in
  Name c <> "" /\
  String.length exampleHex = 24 /\
  ObjectIDFromHex exampleHex = Some exampleOID /\
  Name (fst (convert keepRunes fmtValue c)) = "_id" /\
  Value (fst (convert keepRunes fmtValue c)) = VObjectID exampleOID.
Proof.
  intros c.
  assert (Hn : Name c <> "") by discriminate.
  pose proof (convert_objectID keepRunes fmtValue c exampleHex exampleOID
                Hn eq_refl eq_refl eq_refl) as (H1 & _ & _ & H2 & _).
  split; [exact Hn|]. split; [reflexivity|]. split; [reflexivity|].
  split; [exact H1 | exact (H2 eq_refl)].
Defined.

(** Three columns joined by OR. *)
Lemma single_logic_group_witness :
  let p := paramsOf [ mkColumn "a" "eq" (VInt 1) "or";
                      mkColumn "b" "gt" (VInt 2) "||";
                      mkColumn "c" "eq" (VInt 3) "" ] in
  let f : bsonM := {[ "$or" := VMs [ {[ "a" := VInt 1 ]};
                                     {[ "b" := VM {[ "$gt" := VInt 2 ]} ]};
                                     {[ "c" := VInt 3 ]} ] ]} in
  2 <= length (Columns p) /\
  Forall (fun c => logicOf keepRunes c = Some orSymbol1) (internal (Columns p)) /\
  snd (ConvertToMongoFilter keepRunes fmtValue p []) = Return (Some f) None /\
  f = {[ "$or" := VMs (map (normalized keepRunes fmtValue) (Columns p)) ]}.
Proof.
  intros p f.
  assert (Hin : (orSymbol1, "$or") ∈ [(andSymbol1, "$and"); (orSymbol1, "$or")])
    by (repeat constructor).
  assert (Hlen : 2 <= length (Columns p)) by (simpl; lia).
  assert (Hall : Forall (fun c => logicOf keepRunes c = Some orSymbol1)
                   (internal (Columns p)))
    by (repeat constructor).
  assert (Hres : snd (ConvertToMongoFilter keepRunes fmtValue p []) = Return (Some f) None)
    by (vm_compute; reflexivity).
  split; [exact Hlen|]. split; [exact Hall|]. split; [exact Hres|].
  exact (single_logic_group keepRunes fmtValue p [] orSymbol1 "$or" f Hin Hlen Hall Hres).
Defined.

(** A value of three fields, one of them empty, under [Not In]. *)
Lemma set_operator_witness :
  let c := mkColumn "tag" "Not In" (VString "x,,y") "" in
  Name c <> "" /\
  expMap !! expKey keepRunes c = Some NotIn /\
  isObjectID (Value c) = None /\
  Value (fst (convert keepRunes fmtValue c))
  = VM {[ "$nin" := VArr [VString "x"; VString ""; VString "y"] ]} /\
  snd (convert keepRunes fmtValue c) = None.
Proof.
  intros c.
  assert (Hn : Name c <> "") by discriminate.
  assert (Hin : NotIn ∈ [In; NotIn]) by (repeat constructor).
  pose proof (set_operator keepRunes fmtValue c NotIn Hn eq_refl Hin) as (_ & _ & H & _).
  destruct (H "x,,y" eq_refl eq_refl) as [H1 H2].
  split; [exact Hn|]. split; [reflexivity|]. split; [reflexivity|].
  split; [exact H1 | exact H2].
Defined.

(** Two columns after a call, the first an identifier. *)
Lemma columns_after_conversion_witness :
  let p := mkParams 2 20 "-name"
             [ mkColumn "id" "eq" (VString exampleHex) "OR";
               mkColumn "age" "gte" (VInt 18) "" ] 0 in
  let f : bsonM :=
    {[ "$or" := VMs [ {[ "_id" := VObjectID exampleOID ]};
                      {[ "age" := VM {[ "$gte" := VInt 18 ]} ]} ] ]} in
  snd (ConvertToMongoFilter keepRunes fmtValue p []) = Return (Some f) None /\
  Sort (fst (ConvertToMongoFilter keepRunes fmtValue p [])) = "-name" /\
  Columns (fst (ConvertToMongoFilter keepRunes fmtValue p []))
  = [ mkColumn "_id" "=" (VObjectID exampleOID) "|";
      mkColumn "age" ">=" (VM {[ "$gte" := VInt 18 ]}) "&" ].
Proof.
  intros p f.
  assert (Hres : snd (ConvertToMongoFilter keepRunes fmtValue p []) = Return (Some f) None)
    by (vm_compute; reflexivity).
  pose proof (columns_after_conversion keepRunes fmtValue p [] f Hres)
    as (_ & _ & Hs & _ & Hc & _).
  split; [exact Hres|]. split; [exact Hs|].
  assert (Hlen : length (Columns p) <= 2) by (simpl; lia).
  exact (Hc Hlen).
Defined.

(** Two columns joined by OR, on the fast path and in the general loop. *)
Lemma fast_paths_and_general_witness :
  let p := paramsOf [ mkColumn "a" "eq" (VInt 1) "or";
                      mkColumn "b" "like" (VString "50% off.") "" ] in
  let f : bsonM :=
    {[ "$or" := VMs [ {[ "a" := VInt 1 ]};
                      {[ "b" := VM (<[ "$regex" := VString "50% off\." ]>
                                      {[ "$options" := VString "i" ]}) ]} ] ]} in
  validation (optionsOf []) p = None /\
  snd (ConvertToMongoFilter keepRunes fmtValue p []) = Return (Some f) None /\
  convertMultiColumns keepRunes fmtValue p None = Return (Some f) None.
Proof.
  intros p f.
  assert (Hres : snd (ConvertToMongoFilter keepRunes fmtValue p []) = Return (Some f) None)
    by (vm_compute; reflexivity).
  pose proof (fast_paths_and_general keepRunes fmtValue p [] eq_refl) as (_ & _ & H).
  split; [reflexivity|]. split; [exact Hres|].
  exact (H eq_refl f Hres).
Defined.

(** A validation function that refuses every list, on a column that no
    other check would let through. *)
Lemma error_aborts_witness :
  let refuse : list Column -> option error :=
    fun _ => Some (ErrOther "too many columns") in
  let p := paramsOf [ mkColumn "" "between" VNil "xor" ] in
  ConvertToMongoFilter keepRunes fmtValue p [WithValidateFn (Some refuse)]
  = (p, Return None (Some (ErrOther "too many columns"))).
Proof.
  intros refuse p.
  exact (proj2 (error_aborts keepRunes fmtValue p [WithValidateFn (Some refuse)])
           refuse (ErrOther "too many columns") eq_refl eq_refl).
Defined.

(** Three columns that end in [or] and in [&&]. *)
Lemma last_logic_known_witness :
  let columns := [ mkColumn "a" "eq" (VInt 1) "or";
                   mkColumn "b" "lt" (VInt 2) "and" ] in
  let c := mkColumn "c" "eq" (VInt 3) "" in
  snd (ConvertToMongoFilter keepRunes fmtValue
         (paramsOf (columns ++ [setLogic c "or"])) [])
  = snd (ConvertToMongoFilter keepRunes fmtValue
           (paramsOf (columns ++ [setLogic c "&&"])) []).
Proof.
  intros columns c.
  assert (H1 : is_Some (logicOf keepRunes (setLogic c "or"))) by (eexists; reflexivity).
  assert (H2 : is_Some (logicOf keepRunes (setLogic c "&&"))) by (eexists; reflexivity).
  exact (last_logic_known keepRunes fmtValue (paramsOf []) [] columns c "or" "&&"
           eq_refl H1 H2).
Defined.

(** A column named [:oid] with the identifier of the example: the
    conversion succeeds and leaves no name. *)
Lemma converted_column_witness :
  let c := mkColumn ":oid" "" (VString exampleHex) "" in
  convert keepRunes fmtValue c = (mkColumn "" "=" (VObjectID exampleOID) "&", None) /\
  Exp (fst (convert keepRunes fmtValue c)) ∈
    [eqSymbol; neqSymbol; gtSymbol; gteSymbol; ltSymbol; lteSymbol;
     Like; In; NotIn] /\
  (Name (fst (convert keepRunes fmtValue c)) = "" <->
   Name c = ":oid" /\ is_Some (isObjectID (Value c))).
Proof.
  intros c.
  assert (H : convert keepRunes fmtValue c
              = (mkColumn "" "=" (VObjectID exampleOID) "&", None))
    by (vm_compute; reflexivity).
  pose proof (converted_column keepRunes fmtValue c _ H) as (H1 & _ & _ & _ & H5).
  rewrite H. split; [reflexivity|]. split; [exact H1 | exact H5].
Defined.

(** Two conversions of [age > 18], and of an identifier under the name
    [:oid], which the first conversion leaves without a name. *)
Lemma second_conversion_witness :
  let c := mkColumn "age" "gt" (VInt 18) "" in
  let c' := mkColumn "age" ">" (VM {[ "$gt" := VInt 18 ]}) "&" in
  let d := mkColumn ":oid" "gt" (VString exampleHex) "" in
  let d' := mkColumn "" ">" (VM {[ "$gt" := VObjectID exampleOID ]}) "&" in
  convert keepRunes fmtValue c = (c', None) /\
  convert keepRunes fmtValue c'
  = (mkColumn "age" ">" (VM {[ "$gt" := VM {[ "$gt" := VInt 18 ]} ]}) "&", None) /\
  convert keepRunes fmtValue d = (d', None) /\
  convert keepRunes fmtValue d' = (d', Some ErrNameEmpty).
Proof.
  intros c c' d d'.
  assert (H : convert keepRunes fmtValue c = (c', None)) by (vm_compute; reflexivity).
  assert (Hd : convert keepRunes fmtValue d = (d', None)) by (vm_compute; reflexivity).
  pose proof (second_conversion keepRunes fmtValue c c' H) as (_ & H2 & _).
  pose proof (second_conversion keepRunes fmtValue d d' Hd) as (_ & _ & _ & H4 & _).
  assert (Hin : (gtSymbol, "$gt") ∈
                [ (neqSymbol, "$ne"); (gtSymbol, "$gt"); (gteSymbol, "$gte");
                  (ltSymbol, "$lt"); (lteSymbol, "$lte") ])
    by (repeat constructor).
  assert (Hn : Name c' <> "") by discriminate.
  split; [exact H|]. split; [exact (H2 gtSymbol "$gt" Hin eq_refl Hn)|].
  split; [exact Hd | exact (H4 eq_refl)].
Defined.

(** Three columns of mixed logic: one key, [$or], over two conditions. *)
Lemma filter_shape_witness :
  let p := paramsOf [ mkColumn "a" "eq" (VInt 1) "and";
                      mkColumn "b" "eq" (VInt 2) "or";
                      mkColumn "c" "eq" (VInt 3) "" ] in
  let f : bsonM :=
    {[ "$or" := VMs [ {[ "$and" := VMs [ {[ "a" := VInt 1 ]};
                                         {[ "b" := VInt 2 ]} ] ]};
                      {[ "c" := VInt 3 ]} ] ]} in
  snd (ConvertToMongoFilter keepRunes fmtValue p []) = Return (Some f) None /\
  exists key conds,
    key ∈ ["$and"; "$or"] /\ f = {[ key := VMs conds ]} /\
    2 <= length conds <= length (Columns p).
Proof.
  intros p f.
  assert (Hres : snd (ConvertToMongoFilter keepRunes fmtValue p []) = Return (Some f) None)
    by (vm_compute; reflexivity).
  pose proof (filter_shape keepRunes fmtValue p [] f Hres) as (_ & _ & H).
  assert (Hlen : 2 <= length (Columns p)) by (simpl; lia).
  split; [exact Hres | exact (H Hlen)].
Defined.

(** Four columns joined by AND under a whitelist of three names. *)
Lemma success_of_accepted_columns_witness :
  let w : gmap string bool := {[ "a" := true; "b" := true; "c" := false ]} in
  let p := paramsOf [ mkColumn "a" "eq" (VInt 1) "";
                      mkColumn "b" "like" (VString "x") "and";
                      mkColumn "a" "gt" (VInt 0) "&&";
                      mkColumn "c" "eq" (VInt 3) "" ] in
  validation (optionsOf [WithWhitelistNames (Some w)]) p = None /\
  snd (ConvertToMongoFilter keepRunes fmtValue p [WithWhitelistNames (Some w)])
  = Return None (Some (ErrNameNotAllowed "c")) /\
  ~ Forall (accepted keepRunes fmtValue (Some w)) (Columns p).
Proof.
  intros w p.
  pose proof (success_of_accepted_columns keepRunes fmtValue p
                [WithWhitelistNames (Some w)] eq_refl) as [H1 _].
  split; [reflexivity|]. split; [vm_compute; reflexivity|].
  intros Hall. destruct (H1 Hall) as [f Hf]. vm_compute in Hf. discriminate.
Defined.

(** Conditions of three columns of mixed logic, one under [in]. *)
Lemma checked_conditions_convert_witness :
  let c := mkConditions [ mkColumn "name" "like" (VString "li") "||";
                          mkColumn "tag" "in" (VString "a,b") "";
                          mkColumn "age" ">=" (VInt 18) "and" ] in
  CheckValid c = None /\
  exists f, snd (ConvertToMongo keepRunes fmtValue c []) = Return (Some f) None.
Proof.
  intros c.
  assert (H : CheckValid c = None) by (vm_compute; reflexivity).
  pose proof (checked_conditions_convert keepRunes fmtValue c H) as (_ & _ & H3).
  split; [exact H|]. apply H3.
  repeat (apply Forall_cons; split;
          [intros sym Hs Hin; vm_compute in Hs; injection Hs as <-;
           first [ eexists; split; reflexivity
                 | exfalso; repeat (apply elem_of_cons in Hin as [Hin | Hin];
                                    [discriminate|]);
                   now apply elem_of_nil in Hin ] |]).
  constructor.
Defined.

(** The specification's example: five columns, OR on the second. *)
Lemma grouping_of_leading_marks_witness :
  0 < 1 /\ 1 < 5 /\
  groupingIndex 5 [1] = [[0; 1]; [2; 3; 4]] /\
  concat (groupingIndex 5 [1]) = [0; 1; 2; 3; 4].
Proof.
  assert (H0 : 0 < 1) by lia. assert (H1 : 1 < 5) by lia.
  split; [exact H0|]. split; [exact H1|].
  exact (grouping_of_leading_marks 5 0 1 H0 H1).
Defined.

(** The identifier of the example, written in upper case. *)
Lemma objectID_round_trip_witness :
  length exampleOID = 12 /\
  isObjectID (VString (Hex exampleOID)) = Some exampleOID /\
  isObjectID (VString "507F1F77BCF86CD799439011") = Some exampleOID /\
  Hex exampleOID = ToLower keepRunes "507F1F77BCF86CD799439011".
Proof.
  pose proof (objectID_round_trip keepRunes exampleOID) as (H1 & H2 & _).
  assert (H : isObjectID (VString "507F1F77BCF86CD799439011") = Some exampleOID)
    by (vm_compute; reflexivity).
  destruct (H2 _ H) as (Hl & s & Hs & _ & Hx). injection Hs as <-.
  split; [reflexivity|]. split; [exact (H1 eq_refl)|]. split; [exact H | exact Hx].
Defined.

(** The fields of [a,,b] and of the empty string. *)
Lemma set_operator_fields_witness :
  let c := mkColumn "tag" "in" (VString "a,,b") "" in
  let e := mkColumn "tag" "nin" (VString "") "" in
  Value (fst (convert keepRunes fmtValue c))
  = VM {[ "$in" := VArr [VString "a"; VString ""; VString "b"] ]} /\
  Value (fst (convert keepRunes fmtValue e)) = VM {[ "$nin" := VArr [VString ""] ]} /\
  exists fields,
    Value (fst (convert keepRunes fmtValue c)) = VM {[ "$in" := VArr (map VString fields) ]} /\
    Join fields ","%char = "a,,b".
Proof.
  intros c e.
  assert (Hn : Name c <> "") by discriminate.
  assert (Hin : In ∈ [In; NotIn]) by (repeat constructor).
  destruct (set_operator_fields keepRunes fmtValue c In "a,,b" Hn eq_refl Hin eq_refl eq_refl)
    as (fields & H1 & H2 & _).
  split; [vm_compute; reflexivity|]. split; [vm_compute; reflexivity|].
  exists fields. split; [exact H1 | exact H2].
Defined.

(** Two ids asked of a cache that holds one of them. *)
Lemma MultiGet_by_id_witness :
  let cache := UserExampleCache.mapCache nat in
  let s : gmap string (option nat) := {[ "userExample:a" := Some 7 ]} in
  exists retMap,
    UserExampleCache.MultiGet cache s ["a"; "b"] = (s, Some retMap, None) /\
    retMap !! "a" = Some (Some 7) /\ retMap !! "b" = None /\
    retMap !! "userExample:a" = None.
Proof.
  intros cache s.
  destruct (MultiGet_by_id cache s s ["a"; "b"]
              {[ "userExample:a" := Some 7 ]} None)
    as (_ & _ & H); [vm_compute; reflexivity|].
  destruct (H eq_refl) as (retMap & Hm & Hl). exists retMap.
  split; [exact Hm|].
  split; [rewrite Hl; vm_compute; reflexivity|].
  split; rewrite Hl; vm_compute; reflexivity.
Defined.

(** Three columns with OR on the second: the groups are [0; 1] and [2]. *)
Lemma mixed_grouping_partition_witness :
  let columns := [ mkColumn "a" "" (VInt 1) "";
                   mkColumn "b" "" (VInt 2) "or";
                   mkColumn "c" "" (VInt 3) "" ] in
  checkSameLogic keepRunes columns = (0, [[0; 1]; [2]], None) /\
  exists n m, n < m /\ S m < 3 /\
    forall i c, columns !! i = Some c -> S i < 3 ->
      (Logic (fst (convertLogic keepRunes c)) = orSymbol1 <-> i < n \/ i = m).
Proof.
  intros columns.
  assert (H : checkSameLogic keepRunes columns = (0, [[0; 1]; [2]], None))
    by (vm_compute; reflexivity).
  split; [exact H|].
  exact (proj1 (mixed_grouping_partition keepRunes columns [[0; 1]; [2]] H) eq_refl).
Defined.

(** Two columns, the second with an operator that is not known: the first
    column is left converted. *)
Lemma columns_after_failure_witness :
  let c0 := mkColumn "age" "GT" (VInt 18) "" in
  let c1 := mkColumn "name" "between" (VString "a") "" in
  let p := paramsOf [c0; c1] in
  let p' := fst (ConvertToMongoFilter keepRunes fmtValue p []) in
  snd (ConvertToMongoFilter keepRunes fmtValue p [])
  = Return None (Some (ErrUnsupportedExp "between")) /\
  Columns p' = [mkColumn "age" ">" (VM {[ "$gt" := VInt 18 ]}) "&"; c1] /\
  Page p' = Page p /\ Limit p' = Limit p /\ Sort p' = Sort p /\
  Size p' = Size p.
Proof.
  intros c0 c1 p p'.
  assert (H : snd (ConvertToMongoFilter keepRunes fmtValue p [])
              = Return None (Some (ErrUnsupportedExp "between")))
    by (vm_compute; reflexivity).
  pose proof (columns_after_failure keepRunes fmtValue p [] _ H)
    as (H1 & H2 & H3 & H4 & _).
  split; [exact H|]. split; [vm_compute; reflexivity|].
  split; [exact H1|]. split; [exact H2|]. split; [exact H3 | exact H4].
Defined.

(** The specification's example: [50% off] has no metacharacter, [a.b*]
    has two. *)
Lemma like_pattern_witness :
  let c := mkColumn "title" "LIKE" (VString "a.b*") "" in
  exists pattern,
    Value (fst (convert keepRunes fmtValue c))
    = VM (<[ "$regex" := VString pattern ]> {[ "$options" := VString "i" ]}) /\
    unquote pattern = "a.b*" /\
    String.length pattern = 6.
Proof.
  intros c.
  destruct (like_pattern keepRunes fmtValue c (fst (convert keepRunes fmtValue c)))
    as (pattern & H1 & H2 & _ & H4 & _);
    [vm_compute; reflexivity | vm_compute; reflexivity |].
  exists pattern. split; [exact H1|]. split; [exact H2 | exact H4].
Defined.

(** One column without a name: the error is that of [checkName]. *)
Lemma error_of_a_column_witness :
  let c := mkColumn "" "eq" (VInt 1) "" in
  snd (ConvertToMongoFilter keepRunes fmtValue (paramsOf [c]) [])
  = Return None (Some (ErrNameNotAllowed "")) /\
  ErrNameNotAllowed "" <> ErrNameEmpty /\
  snd (convert keepRunes fmtValue c) = Some ErrNameEmpty.
Proof.
  intros c.
  assert (H : snd (ConvertToMongoFilter keepRunes fmtValue (paramsOf [c]) [])
              = Return None (Some (ErrNameNotAllowed "")))
    by (vm_compute; reflexivity).
  assert (Hlen : length (Columns (paramsOf [c])) <= 2) by (simpl; lia).
  split; [exact H|].
  split; [|vm_compute; reflexivity].
  exact (proj1 (error_of_a_column keepRunes fmtValue (paramsOf [c]) [] None _
                  eq_refl (or_introl Hlen) H)).
Defined.

(** The operator [Not In] beside [nin], and the logic [||] beside [or]. *)
Lemma convert_alias_witness :
  let c := mkColumn "tag" "Not In" (VString "x,y") "||" in
  ToLower keepRunes "Not In" = "not in" /\
  ("not in", "nin") ∈ expAliases /\
  convert keepRunes fmtValue c
  = (mkColumn "tag" "nin"
       (VM {[ "$nin" := VArr [VString "x"; VString "y"] ]}) "|", None) /\
  sameResult (convert keepRunes fmtValue c)
    (convert keepRunes fmtValue (mkColumn "tag" "nin" (VString "x,y") "||")) /\
  ToLower keepRunes "||" = "||" /\
  ("||", "or") ∈ logicAliases /\
  convertLogic keepRunes c
  = (mkColumn "tag" "Not In" (VString "x,y") "|", None) /\
  sameResult (convert keepRunes fmtValue c)
    (convert keepRunes fmtValue (mkColumn "tag" "Not In" (VString "x,y") "or")).
Proof.
  intros c.
  assert (H1 : ("not in", "nin") ∈ expAliases) by (repeat constructor).
  assert (H2 : ("||", "or") ∈ logicAliases) by (repeat constructor).
  destruct (proj1 (convert_alias keepRunes fmtValue "tag" "" "||"
                     (VString "x,y") "Not In" "not in" "nin" eq_refl) H1)
    as (sym & _ & _ & _ & _ & _ & Hsame).
  destruct (proj2 (convert_alias keepRunes fmtValue "tag" "Not In" ""
                     (VString "x,y") "||" "||" "or" eq_refl) H2)
    as (sym' & Hsym' & Hlogic & _ & _ & _ & Hsame').
  assert (E : sym' = "|") by (vm_compute in Hsym'; now injection Hsym').
  rewrite E in Hlogic.
  split; [reflexivity|]. split; [exact H1|].
  split; [vm_compute; reflexivity|]. split; [exact Hsame|].
  split; [reflexivity|]. split; [exact H2|].
  split; [exact Hlogic | exact Hsame'].
Defined.

(** Three columns with OR on the second: [or] and [&&] on the last give
    the same result, and [xor] the error of this logic. *)
Lemma last_logic_validated_witness :
  let columns := [ mkColumn "a" "eq" (VInt 1) "and";
                   mkColumn "b" "lt" (VInt 2) "or" ] in
  let c := mkColumn "c" "eq" (VInt 3) "" in
  let call (l : string) :=
    snd (ConvertToMongoFilter keepRunes fmtValue
           (paramsOf (columns ++ [setLogic c l])) []) in
  call "or" = call "&&" /\
  call "xor" = Return None (Some (ErrUnknownLogic "xor")).
Proof.
  intros columns c call.
  destruct (last_logic_validated keepRunes fmtValue (paramsOf []) []
              columns c eq_refl) as (_ & H2 & H3).
  split.
  - apply (H2 "or" "&&"); eexists; reflexivity.
  - eapply (H3 "xor"); [reflexivity | vm_compute; reflexivity].
Defined.
